(** * Cytoid API: leaderboard, level ratings and player progression

    A shallow embedding of the ranking and rating logic of the level and
    profile controllers (LevelController, ProfileController).

    Conventions of the embedding:
    - a database table is the list of its rows, a row is a record;
    - a column of SQL type uuid is the 128-bit number it denotes ([N]), so
      that equality and ORDER BY on it are those of PostgreSQL;
    - a finite JavaScript [number] is a rational ([Q]) and arithmetic on it
      is exact; NaN and the infinities appear only where the code can
      produce them from finite inputs (a division by zero in a header);
    - a scalar subquery has three results: NULL, one value, or the error
      PostgreSQL raises when it yields more than one row;
    - a controller method is a function from the world (database, Redis,
      clock, response headers) to an outcome and the world it leaves;
    - a JSON text is identified with the value it encodes. *)

From Stdlib Require Import ZArith NArith QArith Qround Lia Lqa Ascii String.
From Stdlib Require Import Sorting.Sorted.
From stdpp Require Import base decidable option list sorting gmap strings.

Set Default Proof Using "Type".
Set Warnings "-clear-no-such-hyp".
Local Open Scope Z_scope.

(** ** Outcomes: a value, or one of the errors the controllers throw *)

Inductive HttpError : Type :=
  | BadRequestError
  | NotFoundError
  | DatabaseError.

Inductive outcome (A : Type) : Type :=
  | Return (a : A)
  | Throw (e : HttpError).
Arguments Return {A} a.
Arguments Throw {A} e.

Definition obind {A B} (m : outcome A) (k : A → outcome B) : outcome B :=
  match m with
  | Return a => k a
  | Throw e => Throw e
  end.

#[global] Instance outcome_ret : MRet outcome := @Return.
#[global] Instance outcome_bind : MBind outcome := λ A B k m, obind m k.

(** Comparisons of numbers are decidable. *)
#[global] Instance Q_lt_dec : RelDecision Qlt.
Proof.
  intros x y. destruct (Qlt_le_dec x y) as [Hlt|Hle];
    [left; exact Hlt | right; apply Qle_not_lt, Hle].
Defined.

#[global] Instance Q_le_dec : RelDecision Qle.
Proof.
  intros x y. destruct (Qlt_le_dec y x) as [Hlt|Hle];
    [right; apply Qlt_not_le, Hlt | left; exact Hle].
Defined.

#[global] Instance Q_eq_dec : RelDecision Qeq := Qeq_dec.

(** ** SQL building blocks *)

(** Result of a subquery used as an expression. *)
Inductive scalar (A : Type) : Type :=
  | SNull
  | SVal (a : A)
  | SMany.
Arguments SNull {A}.
Arguments SVal {A} a.
Arguments SMany {A}.

Definition scalar_subquery {A} (rows : list A) : scalar A :=
  match rows with
  | [] => SNull
  | [a] => SVal a
  | _ :: _ :: _ => SMany
  end.

(** [col = (subquery)]: NULL compares true with nothing. *)
Definition eq_scalar (x : N) (s : scalar N) : bool :=
  match s with
  | SVal y => bool_decide (x = y)
  | _ => false
  end.

(** The Unique node that implements DISTINCT ON over sorted input: a row is
    emitted when its key differs from the key of the row before it. *)
Fixpoint distinct_on_from {A} (key : A → N) (prev : option N) (l : list A) : list A :=
  match l with
  | [] => []
  | x :: l' =>
      if decide (prev = Some (key x))
      then distinct_on_from key (Some (key x)) l'
      else x :: distinct_on_from key (Some (key x)) l'
  end.

Definition distinct_on {A} (key : A → N) (l : list A) : list A :=
  distinct_on_from key None l.

(** [rank() OVER (ORDER BY ...)]: one plus the number of rows of the
    partition that sort strictly before the row. *)
Definition sql_rank {A} (before : A → A → bool) (rows : list A) (x : A) : Z :=
  1 + Z.of_nat (length (filter (λ y, before y x = true) rows)).

(** A numeric value cast to an integer, as for the argument of LIMIT and
    OFFSET: rounded to the nearest integer, halves away from zero. *)
Definition sql_round (q : Q) : Z :=
  if decide (0 <= q)%Q then Qfloor (q + 0.5)%Q else - Qfloor (- q + 0.5)%Q.

Definition row_count (q : Q) : nat := Z.to_nat (sql_round q).

(** The largest value of PostgreSQL's bigint, the type of the counts of
    LIMIT and OFFSET. *)
Definition int8_max : Z := 9223372036854775807.

(** [.limit(limit).offset(offset)]. The query builder writes a LIMIT or an
    OFFSET clause only for a number that is not 0, so a limit of 0 leaves
    the rows unlimited; the database casts the number of a clause to bigint
    and raises an error for a negative count and for one beyond bigint. *)
Definition limit_offset {A} (limit offset : Q) (rows : list A) : outcome (list A) :=
  if decide ((0 ≤ sql_round limit ≤ int8_max) ∧ (0 ≤ sql_round offset ≤ int8_max))
  then Return (let rest := drop (row_count offset) rows in
               if decide (limit == 0)%Q then rest
               else take (row_count limit) rest)
  else Throw DatabaseError.

(** A number bound to a parameter that the database types integer: the
    driver sends the decimal text of the number, which is valid input for
    an integer only when the number is whole. *)
Definition integer_text (q : Q) : bool :=
  bool_decide (Qden (Qred q) = 1%positive).

(** ** Tables *)

Record User : Type := mkUser {
  user_id : N;
  user_uid : option string;
  user_name : string;
}.

Record Level : Type := mkLevel {
  level_id : N;
  level_uid : string;
  level_duration : Q;
  level_date_created : Z;
  level_date_modified : Z;
}.

Record Chart : Type := mkChart {
  chart_id : N;
  chart_levelId : N;
  chart_type : string;
  chart_difficulty : Q;
  chart_notesCount : Z;
}.

(** A play result; named [PlayRecord] because [Record] is a keyword. *)
Record PlayRecord : Type := mkPlayRecord {
  rec_id : N;
  rec_chartId : N;
  rec_ownerId : N;
  rec_score : Z;
  rec_accuracy : Q;
  rec_date : Z;
  rec_ranked : bool;
}.

Record Rating : Type := mkRating {
  rating_levelId : N;
  rating_userId : N;
  rating_value : Q;
}.

Record Download : Type := mkDownload {
  download_levelId : N;
  download_userId : N;
}.

Record Database : Type := mkDatabase {
  users : list User;
  levels : list Level;
  charts : list Chart;
  records : list PlayRecord;
  level_ratings : list Rating;
  level_downloads : list Download;
}.

(** [(SELECT id FROM levels WHERE uid = :uid)] *)
Definition level_id_of_uid (db : Database) (uid : string) : scalar N :=
  scalar_subquery
    (level_id <$> filter (λ l, level_uid l = uid) (levels db)).

(** [(SELECT id FROM charts WHERE "levelId" = (SELECT id FROM levels WHERE
    uid = :uid) AND type = :type)] *)
Definition chart_id_of (db : Database) (uid type : string) : scalar N :=
  match level_id_of_uid db uid with
  | SMany => SMany
  | lvl =>
      scalar_subquery
        (chart_id <$>
           filter (λ c, eq_scalar (chart_levelId c) lvl = true ∧ chart_type c = type)
                  (charts db))
  end.

(** ** The world a request runs in *)

(** The aggregate that [getRatings] computes and caches. [average] is
    [None] for the NaN that [parseFloat(null)] gives, which JSON prints as
    null. *)
Record RatingsAggregate : Type := mkAggregate {
  average : option Q;
  total : Z;
  distribution : list Z;
}.

(** A Redis key set with SETEX: its value and the time it expires at. *)
Record CacheEntry : Type := mkCacheEntry {
  cache_value : RatingsAggregate;
  cache_expiry : Z;
}.

(** The text of a response header; a number stands for its decimal text. *)
Inductive HeaderValue : Type :=
  | HNum (q : Q)
  | HInfinity
  | HNaN
  | HText (s : string).

Record World : Type := mkWorld {
  world_db : Database;
  world_redis : gmap string CacheEntry;
  world_now : Z;
  world_headers : gmap string HeaderValue;
  world_statements : nat;
}.

Definition M (A : Type) : Type := World → outcome A * World.

Definition ret {A} (a : A) : M A := λ w, (Return a, w).

Definition throw {A} (e : HttpError) : M A := λ w, (Throw e, w).

Definition bind {A B} (m : M A) (k : A → M B) : M B := λ w,
  match m w with
  | (Return a, w') => k a w'
  | (Throw e, w') => (Throw e, w')
  end.

Notation "'let*' x ':=' m 'in' k" := (bind m (λ x, k))
  (at level 10, x pattern, m at level 100, k at level 200).

(** One statement sent to the database that only reads. *)
Definition db_query {A} (q : Database → outcome A) : M A := λ w,
  (q (world_db w),
   mkWorld (world_db w) (world_redis w) (world_now w) (world_headers w)
           (S (world_statements w))).

(** One statement that writes: on an error the tables are left as they were. *)
Definition db_execute {A} (q : Database → outcome (A * Database)) : M A := λ w,
  match q (world_db w) with
  | Return (a, db') =>
      (Return a,
       mkWorld db' (world_redis w) (world_now w) (world_headers w)
               (S (world_statements w)))
  | Throw e =>
      (Throw e,
       mkWorld (world_db w) (world_redis w) (world_now w) (world_headers w)
               (S (world_statements w)))
  end.

(** [ctx.set(field, value)] *)
Definition set_header (field : string) (v : HeaderValue) : M unit := λ w,
  (Return tt,
   mkWorld (world_db w) (world_redis w) (world_now w)
           (<[field := v]> (world_headers w)) (world_statements w)).

(** [redis.getAsync]: a key is gone once its expiry time is reached. *)
Definition redis_get (key : string) : M (option RatingsAggregate) := λ w,
  (Return (match world_redis w !! key with
           | Some e => if decide (world_now w < cache_expiry e)
                       then Some (cache_value e) else None
           | None => None
           end), w).

(** [redis.setexAsync(key, seconds, value)] *)
Definition redis_setex (key : string) (seconds : Z) (v : RatingsAggregate) : M unit := λ w,
  (Return tt,
   mkWorld (world_db w)
           (<[key := mkCacheEntry v (world_now w + seconds)]> (world_redis w))
           (world_now w) (world_headers w) (world_statements w)).

(** [redis.delAsync(key)] *)
Definition redis_del (key : string) : M unit := λ w,
  (Return tt,
   mkWorld (world_db w) (delete key (world_redis w))
           (world_now w) (world_headers w) (world_statements w)).

(** ** UUIDs: [validator.isUUID(s, '4')] and PostgreSQL's uuid input *)

Definition hex_digit (c : ascii) : option N :=
  let n := N_of_ascii c in
  if ((48 <=? n) && (n <=? 57))%N then Some (n - 48)%N
  else if ((65 <=? n) && (n <=? 70))%N then Some (n - 55)%N
  else if ((97 <=? n) && (n <=? 102))%N then Some (n - 87)%N
  else None.

Inductive uuid_class : Type := CHex | CDash | CFour | CVariant.

Definition in_class (k : uuid_class) (c : ascii) : bool :=
  match k with
  | CHex => bool_decide (is_Some (hex_digit c))
  | CDash => bool_decide (c = "-"%char)
  | CFour => bool_decide (c = "4"%char)
  | CVariant =>
      bool_decide (c = "8"%char ∨ c = "9"%char ∨ c = "a"%char ∨ c = "b"%char
                   ∨ c = "A"%char ∨ c = "B"%char)
  end.

(** [/^[0-9A-F]{8}-[0-9A-F]{4}-4[0-9A-F]{3}-[89AB][0-9A-F]{3}-[0-9A-F]{12}$/i] *)
Definition uuid4_pattern : list uuid_class :=
  replicate 8 CHex ++ [CDash] ++ replicate 4 CHex ++ [CDash; CFour] ++
  replicate 3 CHex ++ [CDash; CVariant] ++ replicate 3 CHex ++ [CDash] ++
  replicate 12 CHex.

Fixpoint matches_classes (p : list uuid_class) (s : string) : bool :=
  match p, s with
  | [], EmptyString => true
  | k :: p', String c s' => in_class k c && matches_classes p' s'
  | _, _ => false
  end.

Definition isUUID4 (s : string) : bool := matches_classes uuid4_pattern s.

Fixpoint uuid_in_from (acc : N) (s : string) : N :=
  match s with
  | EmptyString => acc
  | String c s' =>
      match hex_digit c with
      | Some d => uuid_in_from (16 * acc + d)%N s'
      | None => uuid_in_from acc s'
      end
  end.

(** The 128-bit value of a uuid given as text, in either letter case. *)
Definition uuid_in (s : string) : N := uuid_in_from 0%N s.

(** ** The leaderboard of a chart *)

(** [ORDER BY score DESC, date ASC] *)
Definition score_date_le (a b : PlayRecord) : Prop :=
  rec_score b < rec_score a ∨ (rec_score a = rec_score b ∧ rec_date a ≤ rec_date b).

(** [a] sorts strictly before [b] under [ORDER BY score DESC, date ASC]. *)
Definition score_date_before (a b : PlayRecord) : bool :=
  (rec_score b <? rec_score a) ||
  ((rec_score a =? rec_score b) && (rec_date a <? rec_date b)).

(** [ORDER BY "ownerId", score DESC, date ASC] *)
Definition owner_score_date_le (a b : PlayRecord) : Prop :=
  (rec_ownerId a < rec_ownerId b)%N ∨
  (rec_ownerId a = rec_ownerId b ∧ score_date_le a b).

#[global] Instance score_date_le_dec : RelDecision score_date_le.
Proof. intros a b. unfold score_date_le. apply _. Defined.

#[global] Instance owner_score_date_le_dec : RelDecision owner_score_date_le.
Proof. intros a b. unfold owner_score_date_le. apply _. Defined.

(** A row of the leaderboard: the record, its owner (LEFT JOIN, so absent
    when no user has that id) and the rank. *)
Record LeaderboardEntry : Type := mkEntry {
  entry_record : PlayRecord;
  entry_owner : option User;
  entry_rank : Z;
}.

(** [WHERE "chartId" = (...) AND ranked = true] *)
Definition ranked_on_chart (c : scalar N) (r : PlayRecord) : Prop :=
  eq_scalar (rec_chartId r) c = true ∧ rec_ranked r = true.

#[global] Instance ranked_on_chart_dec c r : Decision (ranked_on_chart c r).
Proof. unfold ranked_on_chart. apply _. Defined.

(** The FROM subquery: [SELECT DISTINCT ON ("ownerId") * FROM record WHERE
    ... ORDER BY "ownerId", score DESC, date ASC]. *)
Definition best_records (c : scalar N) (rs : list PlayRecord) : list PlayRecord :=
  distinct_on rec_ownerId
    (merge_sort owner_score_date_le (filter (ranked_on_chart c) rs)).

(** [LEFT JOIN users u ON u.id = r."ownerId"]; [users.id] is the primary key. *)
Definition owner_of (db : Database) (r : PlayRecord) : option User :=
  head (filter (λ u, user_id u = rec_ownerId r) (users db)).

(** The rows of the query that [queryLeaderboard] builds, in the order of
    the window's sort. *)
Definition queryLeaderboard (db : Database) (levelUid chartType : string)
  : outcome (list LeaderboardEntry) :=
  match chart_id_of db levelUid chartType with
  | SMany => Throw DatabaseError
  | c =>
      let r := best_records c (records db) in
      Return ((λ x, mkEntry x (owner_of db x) (sql_rank score_date_before r x))
                <$> merge_sort score_date_le r)
  end.

(** ** getChartRanking *)

Definition clampUserLimit (userLimit : Q) : Q :=
  let userLimit := if decide (userLimit < 0)%Q then 0%Q else userLimit in
  if decide (10 < userLimit)%Q then 10%Q else userLimit.

(** The value compared with [u_id] in [rankQuery]. *)
Definition rank_user_id (db : Database) (user : string) : scalar N :=
  if isUUID4 user then SVal (uuid_in user)
  else scalar_subquery
         (user_id <$> filter (λ u, user_uid u = Some user) (users db)).

(** [u_id = ...]: the joined user's id, NULL when the join found none. *)
Definition u_id_is (uid : scalar N) (e : LeaderboardEntry) : bool :=
  match entry_owner e with
  | Some u => eq_scalar (user_id u) uid
  | None => false
  end.

(** [(SELECT rank FROM lb WHERE u_id = ...)] *)
Definition rankQuery (lb : list LeaderboardEntry) (uid : scalar N) : scalar Z :=
  scalar_subquery (entry_rank <$> filter (λ e, u_id_is uid e = true) lb).

(** [abs(rank - :rk) <= :userLimit] *)
Definition within_rank (rk : Z) (userLimit : Q) (e : LeaderboardEntry) : Prop :=
  (inject_Z (Z.abs (entry_rank e - rk)) <= userLimit)%Q.

#[global] Instance within_rank_dec rk userLimit e : Decision (within_rank rk userLimit e).
Proof. unfold within_rank. apply _. Defined.

(** [WITH lb AS (...) SELECT * FROM lb WHERE abs(rank - (rankQuery)) <= :userLimit].
    The rank is cast to integer, so the database types [:userLimit]
    integer too and refuses the query when the number bound to it is not
    whole. *)
Definition ranking_around (db : Database) (levelUid chartType user : string)
    (userLimit : Q) : outcome (list LeaderboardEntry) :=
  if integer_text userLimit then
    lb ← queryLeaderboard db levelUid chartType;
    match rank_user_id db user with
    | SMany => Throw DatabaseError
    | uid =>
        match rankQuery lb uid with
        | SMany => Throw DatabaseError
        | SNull => Return []
        | SVal rk =>
            Return (filter (within_rank rk userLimit) lb)
        end
    end
  else Throw DatabaseError.

(** [SELECT count(DISTINCT r."ownerId") FROM record r WHERE "chartId" = (...)
    AND ranked = true] *)
Definition count_ranked_owners (db : Database) (levelUid chartType : string)
  : outcome Z :=
  match chart_id_of db levelUid chartType with
  | SMany => Throw DatabaseError
  | c =>
      Return (Z.of_nat (length (remove_dups
        (rec_ownerId <$> filter (ranked_on_chart c) (records db)))))
  end.

(** The existence check: the number of charts of that type in the level. *)
Definition count_charts (db : Database) (levelUid chartType : string)
  : outcome Z :=
  match level_id_of_uid db levelUid with
  | SMany => Throw DatabaseError
  | lvl =>
      Return (Z.of_nat (length
        (filter (λ c, chart_type c = chartType ∧ eq_scalar (chart_levelId c) lvl = true)
                (charts db))))
  end.

(** [Math.floor(count / limit).toString()] *)
Definition total_page_floor (count : Z) (limit : Q) : HeaderValue :=
  if decide (limit == 0)%Q
  then (if decide (count = 0) then HNaN else HInfinity)
  else HNum (inject_Z (Qfloor (inject_Z count / limit))).

(** A string used as a condition: undefined and the empty string are false. *)
Definition truthy_string (s : option string) : option string :=
  match s with
  | Some EmptyString | None => None
  | Some s => Some s
  end.

(** The entities are the raw rows, one per record (record ids are a
    primary key), each with the rank of its row. *)
Definition getChartRanking (id chartType : string) (limit page : option Q)
    (user : option string) (userLimit : option Q) : M (list LeaderboardEntry) :=
  let limit := default 10%Q limit in
  let page := default 0%Q page in
  let userLimit := clampUserLimit (default 3%Q userLimit) in
  let* entities :=
    match truthy_string user with
    | Some user =>
        db_query (λ db, ranking_around db id chartType user userLimit)
    | None =>
        let limit := if decide (30 < limit)%Q then 30%Q else limit in
        let* count := db_query (λ db, count_ranked_owners db id chartType) in
        let* _ := set_header "X-Total-Page" (total_page_floor count limit) in
        let* _ := set_header "X-Total-Entries" (HNum (inject_Z count)) in
        let* _ := set_header "X-Current-Page" (HNum page) in
        db_query (λ db, lb ← queryLeaderboard db id chartType;
                        limit_offset limit (limit * page)%Q lb)
    end in
  match entities with
  | [] =>
      let* count := db_query (λ db, count_charts db id chartType) in
      if decide (count = 0) then throw NotFoundError else ret entities
  | _ :: _ => ret entities
  end.

(** *** A small database to run the queries on *)

Module Sample.

Definition alice : User := mkUser 1 (Some "alice") "Alice".
Definition bob : User := mkUser 2 (Some "bob") "Bob".
Definition carol : User := mkUser 3 (Some "carol") "Carol".
Definition dave : User := mkUser 4 (Some "dave") "Dave".

Definition lvl : Level := mkLevel 10 "io.cytoid.glow" 120 1000 1000.
Definition lvl2 : Level := mkLevel 11 "io.cytoid.dusk" 60 2000 2000.

Definition hard : Chart := mkChart 100 10 "hard" 15 900.
Definition extreme : Chart := mkChart 101 11 "extreme" 15 300.

Definition plays : list PlayRecord :=
  [ mkPlayRecord 1 100 1 900000 0.9 50 true;
    mkPlayRecord 2 100 1 950000 0.95 60 true;
    mkPlayRecord 3 100 2 950000 0.95 40 true;
    mkPlayRecord 4 100 3 990000 0.99 70 false;
    mkPlayRecord 5 100 3 800000 0.8 80 true;
    mkPlayRecord 6 101 1 1000000 1 90 true;
    mkPlayRecord 7 100 4 1000000 1 100 false;
    mkPlayRecord 8 101 4 1000000 1 110 false ].

Definition ratings : list Rating :=
  [ mkRating 10 1 8; mkRating 10 2 10 ].

Definition db : Database :=
  mkDatabase [alice; bob; carol; dave] [lvl; lvl2] [hard; extreme] plays ratings [].

Definition world : World := mkWorld db ∅ 0 ∅ 0.

(** The chart a record of the sample was played on. *)
Definition chart_of (r : PlayRecord) : Chart :=
  if decide (rec_chartId r = 100%N) then hard else extreme.

End Sample.

(** ** Level ratings *)

Definition levelRatingCacheKey : string := "cytoid:level:ratings:".

Definition sql_sum (l : list Q) : Q := foldr Qplus 0%Q l.

(** [avg]: NULL over no rows. *)
Definition sql_avg (l : list Q) : option Q :=
  match l with
  | [] => None
  | _ :: _ => Some (sql_sum l / inject_Z (Z.of_nat (length l)))%Q
  end.

(** The CTE [ratings]: the rating rows of the level. *)
Definition ratings_of_level (db : Database) (lvl : scalar N) : list Rating :=
  filter (λ r, eq_scalar (rating_levelId r) lvl = true) (level_ratings db).

(** The rating rows of one user among [rs]. *)
Definition ratings_by (userId : N) (rs : list Rating) : list Rating :=
  filter (λ r, rating_userId r = userId) rs.

(** How many of the ratings equal each of 1, ..., 10. *)
Definition rating_distribution (rs : list Rating) : list Z :=
  (λ i, Z.of_nat (length
          (filter (λ r, rating_value r == inject_Z i)%Q rs)))
    <$> seqZ 1 10.

Definition aggregate_of (rs : list Rating) : RatingsAggregate :=
  mkAggregate (sql_avg (rating_value <$> rs))
              (Z.of_nat (length rs))
              (rating_distribution rs).

(** The aggregate query of [getRatings], with the user's own rating when a
    user is given. *)
Definition query_ratings (id : string) (user : option User) (db : Database)
  : outcome (RatingsAggregate * scalar Q) :=
  match level_id_of_uid db id with
  | SMany => Throw DatabaseError
  | lvl =>
      let rs := ratings_of_level db lvl in
      match user with
      | None => Return (aggregate_of rs, SNull)
      | Some u =>
          match scalar_subquery (rating_value <$> ratings_by (user_id u) rs) with
          | SMany => Throw DatabaseError
          | own => Return (aggregate_of rs, own)
          end
      end
  end.

(** The lookup of the user's rating on a cache hit ([getRawOne]: the first
    row, if any). *)
Definition query_own_rating (id : string) (u : User) (db : Database)
  : outcome (option Q) :=
  match level_id_of_uid db id with
  | SMany => Throw DatabaseError
  | lvl =>
      Return (head (rating_value <$>
                      filter (λ r, rating_userId r = user_id u ∧
                                   eq_scalar (rating_levelId r) lvl = true)
                             (level_ratings db)))
  end.

(** [parseInt(x, 10)] of a number printed in decimal: its integer part. *)
Definition parseInt10 (q : Q) : Z := Z.quot (Qnum q) (Z.pos (Qden q)).

(** The [rating] property of the response object. *)
Inductive RatingField : Type :=
  | RatingAbsent
  | RatingNull
  | RatingValue (q : Q).

Inductive RatingsResponse : Type :=
  | CachedText (a : RatingsAggregate)
  | RatingsObject (a : RatingsAggregate) (rating : RatingField).

(** [parseInt(a.rating, 10)], with 0 standing for the NaN that a missing or
    null rating gives: both are false as a condition. *)
Definition own_rating (own : scalar Q) : Z :=
  match own with
  | SVal r => parseInt10 r
  | _ => 0
  end.

(** A cached text is never empty, so [if (cacheVal)] asks whether the key
    is there. *)
Definition getRatings (id : string) (user : option User) : M RatingsResponse :=
  let* cacheVal := redis_get (levelRatingCacheKey +:+ id) in
  match cacheVal with
  | Some cached =>
      match user with
      | Some u =>
          let* rating := db_query (query_own_rating id u) in
          ret (RatingsObject cached
                 (match rating with
                  | Some r => RatingValue r
                  | None => RatingNull
                  end))
      | None => ret (CachedText cached)
      end
  | None =>
      let* a := db_query (query_ratings id user) in
      let rating := own_rating a.2 in
      let* _ := redis_setex (levelRatingCacheKey +:+ id) 3600 a.1 in
      ret (RatingsObject a.1
             (if decide (rating = 0) then RatingAbsent
              else RatingValue (inject_Z rating)))
  end.

(** [DELETE FROM level_ratings WHERE "levelId" = (...) AND userId = :userId],
    with the number of rows it removed. *)
Definition delete_rating (id : string) (userId : N) (db : Database)
  : outcome (Z * Database) :=
  match level_id_of_uid db id with
  | SMany => Throw DatabaseError
  | lvl =>
      let hit r := eq_scalar (rating_levelId r) lvl = true ∧ rating_userId r = userId in
      Return (Z.of_nat (length (filter hit (level_ratings db))),
              mkDatabase (users db) (levels db) (charts db) (records db)
                         (filter (λ r, ¬ hit r) (level_ratings db))
                         (level_downloads db))
  end.

(** The column [rating] of [level_ratings] is declared in the Rating
    entity, which is not among the sources: it holds fractions (a numeric or
    floating point column) or whole numbers only (an integer column). *)
Class RatingColumn : Type := fractional_ratings : bool.

Definition integer_column : RatingColumn := false.
Definition numeric_column : RatingColumn := true.

(** [INSERT INTO level_ratings ... ON CONFLICT ON CONSTRAINT
    "level_ratings_levelId_userId_key" DO UPDATE SET "rating" = :rating].
    The rating is bound as its decimal text: for an integer column the
    text of a number that is not whole is invalid input, and the database
    refuses the statement before it runs. A NULL levelId violates NOT NULL,
    which the code turns into [NotFoundError]. *)
Definition upsert_rating {col : RatingColumn} (id : string) (userId : N) (rating : Q)
    (db : Database) : outcome (unit * Database) :=
  if negb (fractional_ratings || integer_text rating) then Throw DatabaseError
  else
    match level_id_of_uid db id with
    | SMany => Throw DatabaseError
    | SNull => Throw NotFoundError
    | SVal lvl =>
        let hit r := rating_levelId r = lvl ∧ rating_userId r = userId in
        let rows :=
          if decide (Exists hit (level_ratings db))
          then (λ r, if decide (hit r) then mkRating lvl userId rating else r)
                 <$> level_ratings db
          else level_ratings db ++ [mkRating lvl userId rating] in
        Return (tt, mkDatabase (users db) (levels db) (charts db) (records db)
                               rows (level_downloads db))
    end.

(** [!rating]: undefined and 0 are false. *)
Definition falsy_number (x : option Q) : bool :=
  match x with
  | None => true
  | Some q => bool_decide (q == 0)%Q
  end.

(** [rating] is [None] for a call without a rating; the route declares the
    body parameter as required, a direct call need not pass it. *)
Definition updateRatings {col : RatingColumn} (id : string) (user : User)
    (rating : option Q) : M RatingsResponse :=
  let* _ :=
    if falsy_number rating then
      let* affected := db_execute (delete_rating id (user_id user)) in
      if decide (affected = 0) then throw NotFoundError else ret tt
    else
      let rating := default 0%Q rating in
      if decide (10 < rating ∨ rating <= 0)%Q then throw BadRequestError
      else db_execute (upsert_rating id (user_id user) rating) in
  let* _ := redis_del (levelRatingCacheKey +:+ id) in
  getRatings id (Some user).

(** ** Listing levels *)

Inductive SortOrder : Type := ASC | DESC.

(** A capital letter of ASCII or its small letter. *)
Definition letter (capital c : ascii) : bool :=
  bool_decide (c = capital) ||
  bool_decide (N_of_ascii c = N_of_ascii capital + 32)%N.

(** [sortOrder.toUpperCase() === 'DESC'], on the UTF-8 text of the
    parameter. JavaScript upper-cases by the case mapping of Unicode: D, E
    and C come from their capital and small letters only, S also from
    U+017F, the long s, whose UTF-8 bytes are C5 BF; a character that
    upper-cases to several letters gives SS or ST or letters outside DESC. *)
Definition toUpperCase_is_DESC (sortOrder : string) : bool :=
  match sortOrder with
  | String d (String e (String s (String c EmptyString))) =>
      letter "D" d && letter "E" e && letter "S" s && letter "C" c
  | String d (String e (String s1 (String s2 (String c EmptyString)))) =>
      letter "D" d && letter "E" e &&
      bool_decide (N_of_ascii s1 = 197 ∧ N_of_ascii s2 = 191)%N &&
      letter "C" c
  | _ => false
  end.

(** The text PostgreSQL prints for a uuid. *)
Definition hex_char (d : N) : ascii :=
  if (d <? 10)%N then ascii_of_N (48 + d) else ascii_of_N (87 + d).

Fixpoint hex_digits (n : nat) (x : N) (acc : list ascii) : list ascii :=
  match n with
  | O => acc
  | S n' => hex_digits n' (x / 16)%N (hex_char (x mod 16)%N :: acc)
  end.

Definition uuid_out (x : N) : string :=
  let ds := hex_digits 32 x [] in
  string_of_list_ascii
    (take 8 ds ++ "-"%char :: take 4 (drop 8 ds) ++ "-"%char ::
     take 4 (drop 12 ds) ++ "-"%char :: take 4 (drop 16 ds) ++ "-"%char ::
     drop 20 ds).

(** The expressions a result can be ordered by. *)
Inductive SortColumn : Type :=
  | ColDateCreated
  | ColDateModified
  | ColDuration
  | ColDownloads
  | ColPlays
  | ColAuxRating
  | ColMaxDifficulty
  | ColMinDifficulty.

(** The ratings given to a level. *)
Definition level_rating_values (db : Database) (l : Level) : list Q :=
  rating_value <$> filter (λ r, rating_levelId r = level_id l) (level_ratings db).

(** [(SELECT (60 + avg(rating) * count(rating)) * 1.0 / (10 + count(rating))
    FROM level_ratings WHERE "levelId" = levels.id)]: NULL as soon as the
    average is. *)
Definition aux_rating (db : Database) (l : Level) : option Q :=
  let rs := level_rating_values db l in
  let count := inject_Z (Z.of_nat (length rs)) in
  avg ← sql_avg rs;
  Some ((60 + avg * count) * 1.0 / (10 + count))%Q.

(** [(SELECT avg(rating) FROM level_ratings WHERE "levelId" = levels.id)] *)
Definition avg_rating (db : Database) (l : Level) : option Q :=
  sql_avg (level_rating_values db l).

Definition downloads_of (db : Database) (l : Level) : Z :=
  Z.of_nat (length (filter (λ d, download_levelId d = level_id l) (level_downloads db))).

(** [(SELECT count( * ) FROM records JOIN charts ON charts.id = records."chartId"
    WHERE charts."levelId" = levels.id)] *)
Definition plays_of (db : Database) (l : Level) : Z :=
  Z.of_nat (length
    (r ← records db;
     filter (λ c, chart_id c = rec_chartId r ∧ chart_levelId c = level_id l)
            (charts db))).

(** The charts joined to a level. *)
Definition charts_of (db : Database) (l : Level) : list Chart :=
  filter (λ c, chart_levelId c = level_id l) (charts db).

Definition Qmax_list (l : list Q) : option Q :=
  match l with
  | [] => None
  | x :: l' => Some (foldr (λ y m, if decide (m < y)%Q then y else m) x l')
  end.

Definition Qmin_list (l : list Q) : option Q :=
  match l with
  | [] => None
  | x :: l' => Some (foldr (λ y m, if decide (y < m)%Q then y else m) x l')
  end.

Definition column_value (db : Database) (col : SortColumn) (l : Level) : option Q :=
  match col with
  | ColDateCreated => Some (inject_Z (level_date_created l))
  | ColDateModified => Some (inject_Z (level_date_modified l))
  | ColDuration => Some (level_duration l)
  | ColDownloads => Some (inject_Z (downloads_of db l))
  | ColPlays => Some (inject_Z (plays_of db l))
  | ColAuxRating => aux_rating db l
  | ColMaxDifficulty => Qmax_list (chart_difficulty <$> charts_of db l)
  | ColMinDifficulty => Qmin_list (chart_difficulty <$> charts_of db l)
  end.

(** The own properties of [keyMap]. *)
Definition keyMap (sortOrder : string) : gmap string SortColumn :=
  list_to_map
    [ ("creation_date", ColDateCreated);
      ("modification_date", ColDateModified);
      ("duration", ColDuration);
      ("downloads", ColDownloads);
      ("plays", ColPlays);
      ("rating", ColAuxRating);
      ("difficulty", if decide (sortOrder = "asc") then ColMaxDifficulty
                     else ColMinDifficulty) ].

(** [keyMap[key]]. [keyMap] is a plain object, so a key that is not its own
    is answered by [Object.prototype]: with a function for each of its
    methods and with the prototype itself for [__proto__]. *)
Inductive KeyValue : Type :=
  | KeyColumn (col : SortColumn)
  | KeyFunction
  | KeyPrototype.

Definition object_prototype_methods : list string :=
  [ "constructor"; "hasOwnProperty"; "isPrototypeOf"; "propertyIsEnumerable";
    "toLocaleString"; "toString"; "valueOf";
    "__defineGetter__"; "__defineSetter__"; "__lookupGetter__";
    "__lookupSetter__" ].

Definition keyMap_get (sortOrder key : string) : option KeyValue :=
  match keyMap sortOrder !! key with
  | Some col => Some (KeyColumn col)
  | None =>
      if decide (key ∈ object_prototype_methods) then Some KeyFunction
      else if decide (key = "__proto__") then Some KeyPrototype
      else None
  end.

(** One term of an ORDER BY clause. *)
Record OrderTerm : Type := mkOrderTerm {
  term_column : SortColumn;
  term_order : SortOrder;
  term_nulls_last : bool;
}.

Definition term_compare (t : OrderTerm) (a b : option Q) : comparison :=
  match a, b with
  | None, None => Eq
  | None, Some _ => if term_nulls_last t then Gt else Lt
  | Some _, None => if term_nulls_last t then Lt else Gt
  | Some x, Some y =>
      match term_order t with
      | ASC => (x ?= y)%Q
      | DESC => (y ?= x)%Q
      end
  end.

Fixpoint order_compare (db : Database) (ts : list OrderTerm) (a b : Level)
  : comparison :=
  match ts with
  | [] => Eq
  | t :: ts' =>
      match term_compare t (column_value db (term_column t) a)
                           (column_value db (term_column t) b) with
      | Eq => order_compare db ts' a b
      | c => c
      end
  end.

(** [a] may come before [b] in a result ordered by [ts]. *)
Definition order_le (db : Database) (ts : list OrderTerm) (a b : Level) : Prop :=
  order_compare db ts a b ≠ Gt.

#[global] Instance order_le_dec db ts : RelDecision (order_le db ts).
Proof. intros a b. unfold order_le. apply _. Defined.

(** [ORDER BY]; no clause leaves the rows as they come. *)
Definition order_by (db : Database) (ts : list OrderTerm) (rows : list Level)
  : list Level :=
  match ts with
  | [] => rows
  | _ :: _ => merge_sort (order_le db ts) rows
  end.

(** Without NULLS FIRST / LAST, NULLs sort as the largest values. *)
Definition default_nulls_last (o : SortOrder) : bool :=
  match o with ASC => true | DESC => false end.

(** The ORDER BY clause [getLevels] builds, [None] when the database cannot
    read it. [orderBy] takes a function for a whole ordering with no term
    of its own, so after a method of [Object.prototype] only the term added
    by [addOrderBy] is left; the prototype object is no instance of
    [Object], so [orderBy] writes its text, [[object Object]], as the
    expression to order by, which is not SQL. *)
Definition levels_order (sortOrder : string) (theSortOrder : SortOrder)
    (query : gmap string string) : option (list OrderTerm) :=
  match sort ← truthy_string (query !! "sort");
        value ← keyMap_get sortOrder sort;
        Some (sort, value) with
  | Some (sort, KeyColumn col) =>
      Some (mkOrderTerm col theSortOrder true ::
            (if decide (sort ≠ "creation_date")
             then [mkOrderTerm ColDateCreated DESC (default_nulls_last DESC)]
             else []))
  | Some (_, KeyFunction) =>
      Some [mkOrderTerm ColDateCreated DESC (default_nulls_last DESC)]
  | Some (_, KeyPrototype) => None
  | None =>
      match truthy_string (query !! "search") with
      | None => Some [mkOrderTerm ColDateCreated theSortOrder
                                  (default_nulls_last theSortOrder)]
      | Some _ => Some []
      end
  end.

(** A level as the endpoint returns it. [json_agg] over a level without
    charts yields the one-element array [null]. *)
Record LevelView : Type := mkLevelView {
  view_level : Level;
  view_charts : list (option Chart);
  view_rating : option Q;
  view_plays : Z;
  view_downloads : Z;
}.

(** [parseFloat(raw.rating) || null] *)
Definition rating_or_null (x : option Q) : option Q :=
  match x with
  | Some q => if decide (q == 0)%Q then None else Some q
  | None => None
  end.

(** [ORDER BY charts.difficulty] *)
Definition difficulty_le (a b : Chart) : Prop :=
  (chart_difficulty a <= chart_difficulty b)%Q.

#[global] Instance difficulty_le_dec : RelDecision difficulty_le.
Proof. intros a b. unfold difficulty_le. apply _. Defined.

Definition level_view (db : Database) (l : Level) : LevelView :=
  mkLevelView l
    (match merge_sort difficulty_le (charts_of db l) with
     | [] => [None]
     | cs => Some <$> cs
     end)
    (rating_or_null (avg_rating db l))
    (plays_of db l)
    (downloads_of db l).

(** [Number.isInteger] *)
Definition isInteger (q : Q) : bool := bool_decide (Qden (Qred q) = 1%positive).

Definition clampPageLimit (pageLimit : Q) : Q :=
  if decide (200 < pageLimit)%Q then 200%Q
  else if decide (pageLimit < 0)%Q then 0%Q
  else pageLimit.

(** Whether the request asks for the levels of the user who sends it. *)
Definition querying_self (query : gmap string string) (user : option User) : bool :=
  match user, truthy_string (query !! "owner") with
  | Some u, Some owner =>
      bool_decide (Some owner = user_uid u ∨ owner = uuid_out (user_id u))
  | _, _ => false
  end.

Section Levels.

(** The levels that satisfy the joins and WHERE clauses [getLevels] adds
    for the filter parameters of the request (type, difficulty, dates,
    featured, tags, search, owner, visibility), or the error the database
    raises on them. *)
Variable levels_where :
  gmap string string → option User → Database → outcome (list Level).

(** [query.getCount()] *)
Definition getCount (query : gmap string string) (user : option User)
    (db : Database) : outcome Z :=
  rows ← levels_where query user db;
  Return (Z.of_nat (length rows)).

(** [query.getRawAndEntities()]; a clause that is not SQL fails the query
    before it runs. *)
Definition getRawAndEntities (query : gmap string string) (user : option User)
    (ts : option (list OrderTerm)) (limit offset : Q) (db : Database)
  : outcome (list LevelView) :=
  match ts with
  | None => Throw DatabaseError
  | Some ts =>
      rows ← levels_where query user db;
      page ← limit_offset limit offset (order_by db ts rows);
      Return (map (level_view db) page)
  end.

Definition getLevels (user : option User) (pageNum pageLimit : option Q)
    (sortOrder : option string) (query : gmap string string)
  : M (option (list LevelView)) :=
  let pageNum := default 0%Q pageNum in
  let pageLimit := default 30%Q pageLimit in
  let sortOrder := default "asc" sortOrder in
  let theSortOrder :=
    if toUpperCase_is_DESC sortOrder then DESC else ASC in
  let pageLimit := clampPageLimit pageLimit in
  if decide ((pageNum < 0)%Q ∨ isInteger pageNum = false)
  then throw BadRequestError
  else
    let ts := levels_order sortOrder theSortOrder query in
    let* _ := set_header "Cache-Control"
                (HText (if querying_self query user then "private"
                        else "public, max-age=60")) in
    let* count := db_query (getCount query user) in
    let* _ := set_header "X-Total-Entries" (HNum (inject_Z count)) in
    if decide (pageLimit == 0)%Q then ret None
    else
      let* _ := set_header "X-Total-Page"
                  (HNum (inject_Z (Qceiling (inject_Z count / pageLimit)))) in
      let* _ := set_header "X-Current-Page" (HNum pageNum) in
      let* rows := db_query (getRawAndEntities query user ts pageLimit
                                               (pageLimit * pageNum)%Q) in
      ret (Some rows).

End Levels.

(** ** Player profile: rating and experience *)

(** A row of the CTE [scores]. *)
Record ScoreRow : Type := mkScoreRow {
  score_base : Q;
  score_score : Z;
  score_level : N;
}.

(** [sum]: NULL over no rows. *)
Definition sql_sum_opt (l : list Q) : option Q :=
  match l with
  | [] => None
  | _ :: _ => Some (sql_sum l)
  end.

(** A number read from a result row: null counts as 0 in an addition. *)
Definition to_number (x : option Q) : Q := default 0%Q x.

Record ExpResult : Type := mkExpResult {
  basicExp : option Q;
  levelExp : option Q;
  totalExp : Q;
  currentLevel : Q;
  nextLevelExp : Q;
}.

Section Profile.

(** The square root ([|/] in SQL, [Math.sqrt] in JavaScript) and the
    logarithm [log] of PostgreSQL (base 10), on the numbers of the model. *)
Variables (sqrt log : Q → Q).

(** The CASE expression of [personalRating]. *)
Definition performance_rating (accuracy : Q) : Q :=
  (if decide (accuracy < 0.7) then sqrt (accuracy / 0.7) * 0.5
   else if decide (accuracy < 0.97)
        then 0.7 - 0.2 * log ((1.0 - accuracy) / 0.03)
   else if decide (accuracy < 0.997)
        then 0.7 - 0.16 * log ((1.0 - accuracy) / 0.03)
   else if decide (accuracy < 0.9997)
        then 0.78 - 0.08 * log ((1.0 - accuracy) / 0.03)
   else accuracy * 200.0 - 199.0)%Q.

(** [FROM records r JOIN charts c ON r."chartId" = c.id WHERE r."ownerId" = $1] *)
Definition plays_with_chart (uuid : N) (db : Database) : list (PlayRecord * Chart) :=
  r ← filter (λ r, rec_ownerId r = uuid) (records db);
  c ← filter (λ c, rec_chartId r = chart_id c) (charts db);
  [(r, c)].

Definition personalRating_query (uuid : N) (db : Database) : option Q :=
  sql_avg ((λ v, performance_rating (rec_accuracy v.1) * chart_difficulty v.2)%Q
             <$> plays_with_chart uuid db).

Definition personalRating (uuid : N) : M (option Q) :=
  db_query (λ db, Return (personalRating_query uuid db)).

(** The column [base] of [scores]. *)
Definition exp_base (r : PlayRecord) (c : Chart) (l : Level) : Q :=
  (inject_Z (chart_notesCount c) * (chart_difficulty c / 15) +
   level_duration l / 60 * 100 * (if rec_ranked r then 1 else 0.5))%Q.

Definition scores (uuid : N) (db : Database) : list ScoreRow :=
  r ← filter (λ r, rec_ownerId r = uuid) (records db);
  c ← filter (λ c, rec_chartId r = chart_id c ∧
                   (1 <= chart_difficulty c ∧ chart_difficulty c <= 16)%Q)
             (charts db);
  l ← filter (λ l, chart_levelId c = level_id l) (levels db);
  [mkScoreRow (exp_base r c l) (rec_score r) (level_id l)].

(** [scores.score / 1000000]: the score is an integer column, so this is
    the division of integers, which drops the fraction. *)
Definition score_millionths (s : ScoreRow) : Q :=
  inject_Z (score_score s ÷ 1000000).

(** [pow(scores.score / 1000000, 2) * (scores.base * 1.5)] *)
Definition level_score (s : ScoreRow) : Q :=
  (score_millionths s ^ 2 * (score_base s * 1.5))%Q.

(** [sqrt(scores.score / 1000000) * scores.base] *)
Definition basic_score (s : ScoreRow) : Q :=
  (sqrt (score_millionths s) * score_base s)%Q.

(** The CTE [chart_scores]: one row per level, the largest [level_score]
    of the level. *)
Definition chart_scores (ss : list ScoreRow) : list Q :=
  lvl ← remove_dups (score_level <$> ss);
  match Qmax_list (level_score <$> filter (λ s, score_level s = lvl) ss) with
  | Some m => [m]
  | None => []
  end.

(** The final SELECT, over [FROM scores, chart_scores]. *)
Definition exp_query (uuid : N) (db : Database) : option Q * option Q :=
  let ss := scores uuid db in
  let rows := s ← ss; c ← chart_scores ss; [(s, c)] in
  (sql_sum_opt ((λ v, basic_score v.1) <$> rows),
   sql_sum_opt ((λ v, v.2) <$> rows)).

Definition exp_result (result : option Q * option Q) : ExpResult :=
  let basicExp := result.1 in
  let levelExp := result.2 in
  let totalExp := (to_number basicExp + to_number levelExp)%Q in
  let currentLevel := (1 / 30 * (sqrt (6 * totalExp + 400) + 20) + 1)%Q in
  let nextLevelExp :=
    (150 * (currentLevel * currentLevel) - 200 * currentLevel)%Q in
  mkExpResult basicExp levelExp totalExp currentLevel nextLevelExp.

Definition exp (uuid : N) : M ExpResult :=
  let* result := db_query (λ db, Return (exp_query uuid db)) in
  ret (exp_result result).

End Profile.

(** The headers every request that passes the page check sets first. *)
Definition first_headers (query : gmap string string) (user : option User)
    (count : Z) (h : gmap string HeaderValue) : gmap string HeaderValue :=
  <["X-Total-Entries" := HNum (inject_Z count)]>
    (<["Cache-Control" := HText (if querying_self query user then "private"
                                 else "public, max-age=60")]> h).

(** The leaderboard of the sample chart. *)
Module SampleBoard.

(** The leaderboard of the sample chart, written out: bob and alice have
    the same score and bob's record is the earlier one; carol's record 4 is
    not ranked, so her row is record 5. *)
Definition rows : list LeaderboardEntry :=
  [ mkEntry (mkPlayRecord 3 100 2 950000 0.95 40 true) (Some Sample.bob) 1;
    mkEntry (mkPlayRecord 2 100 1 950000 0.95 60 true) (Some Sample.alice) 2;
    mkEntry (mkPlayRecord 5 100 3 800000 0.8 80 true) (Some Sample.carol) 3 ].

End SampleBoard.

(** ** Submitting a record *)

(** The body of a submitted record: the properties of [NewRecord] that the
    model of the [records] table keeps, and the property [ownerId] when the
    body has one, as the body is not stripped of what the class does not
    declare. Properties for the columns that the statement or the database
    fills in (id, date, chart) are taken to be absent. *)
Record NewRecord : Type := mkNewRecord {
  new_score : Z;
  new_accuracy : Q;
  new_ranked : bool;
  new_ownerId : option N;
}.

Section Records.

(** The id and the date the database gives a new row of [records]; its
    defaults are declared in the Record entity. *)
Variable generated : Database → N * Z.

(** The owners that the constraints of the [records] table accept; they are
    declared in the Record entity too. *)
Variable owner_accepted : Database → N → bool.

(** [INSERT INTO records ... RETURNING "chartId", id] of the values
    [{ownerId: user.id, chart: ..., ...record}], the chart being the
    subquery on type and level. The body is spread last, so its [ownerId]
    replaces the id of the caller. A NULL chartId violates NOT NULL, which
    the code turns into [NotFoundError]; any other error of the database is
    thrown again. *)
Definition insert_record (id chartType : string) (ownerId : N) (record : NewRecord)
    (db : Database) : outcome ((N * N) * Database) :=
  match chart_id_of db id chartType with
  | SMany => Throw DatabaseError
  | SNull => Throw NotFoundError
  | SVal chart =>
      let row := mkPlayRecord (generated db).1 chart
                              (default ownerId (new_ownerId record))
                              (new_score record)
                              (new_accuracy record) (generated db).2
                              (new_ranked record) in
      if owner_accepted db (rec_ownerId row)
      then Return ((chart, rec_id row),
                   mkDatabase (users db) (levels db) (charts db)
                              (records db ++ [row])
                              (level_ratings db) (level_downloads db))
      else Throw DatabaseError
  end.

Definition addRecord (id chartType : string) (user : User) (record : NewRecord)
  : M (N * N) :=
  db_execute (insert_record id chartType (user_id user) record).

End Records.

(** Carol submits a ranked play of the sample's hard chart. *)
Module SampleRecord.

Definition generated (db : Database) : N * Z :=
  ((N.of_nat (length (records db)) + 1)%N, 120).

(** The owner of a record is a user. *)
Definition owner_accepted (db : Database) (owner : N) : bool :=
  bool_decide (owner ∈ user_id <$> users db).

Definition record : NewRecord := mkNewRecord 960000 0.96 true None.

Definition out : outcome (N * N) * World :=
  addRecord generated owner_accepted "io.cytoid.glow" "hard" Sample.carol record
            Sample.world.

(** The leaderboard after her play, written out: she now leads. *)
Definition rows : list LeaderboardEntry :=
  [ mkEntry (mkPlayRecord 9 100 3 960000 0.96 120 true) (Some Sample.carol) 1;
    mkEntry (mkPlayRecord 3 100 2 950000 0.95 40 true) (Some Sample.bob) 2;
    mkEntry (mkPlayRecord 2 100 1 950000 0.95 60 true) (Some Sample.alice) 3 ].



End SampleRecord.

(** The levels of the sample listed by duration, without any filter. *)
Module SampleLevels.

Definition levels_where (_ : gmap string string) (_ : option User) (db : Database)
  : outcome (list Level) := Return (levels db).


Definition by_date : outcome (option (list LevelView)) * World :=
  getLevels levels_where None None None None ∅ Sample.world.

End SampleLevels.

(** ** Player profile: grades *)

(** The CASE expression of [gradeDistribution]. *)
Definition grade_of (score : Z) : string :=
  if decide (1000000 ≤ score) then "MAX"
  else if decide (999500 ≤ score) then "SSS"
  else if decide (990000 ≤ score) then "SS"
  else if decide (950000 ≤ score) then "S"
  else if decide (900000 ≤ score) then "A"
  else if decide (800000 ≤ score) then "B"
  else if decide (700000 ≤ score) then "C"
  else if decide (600000 ≤ score) then "D"
  else "F".

(** [SELECT case ... end AS grade, count(records) AS count FROM records WHERE
    records."ownerId" = $1 GROUP BY grade]: one row per grade that occurs. *)
Definition gradeDistribution_query (uuid : N) (db : Database) : list (string * Z) :=
  let mine := filter (λ r, rec_ownerId r = uuid) (records db) in
  (λ g, (g, Z.of_nat (length (filter (λ r, grade_of (rec_score r) = g) mine))))
    <$> remove_dups ((λ r, grade_of (rec_score r)) <$> mine).

(** The loop that fills the object [grades]; a count is the number that the
    driver delivers. *)
Definition gradeDistribution (uuid : N) : M (gmap string Z) :=
  let* gradeObjs := db_query (λ db, Return (gradeDistribution_query uuid db)) in
  ret (foldl (λ grades grade, <[grade.1 := grade.2]> grades) ∅ gradeObjs).

(** ** External accounts of a user *)

Module Providers.

(** A row of [external_accounts], without its key [id]. *)
Record ExternalAccount : Type := mkExternalAccount {
  account_provider : string;
  account_uid : string;
  account_token : string;
  account_ownerId : N;
}.

(** What the session of an external provider holds for a token. *)
Record SessionData : Type := mkSessionData {
  session_id : string;
  session_token : string;
}.

Inductive Error : Type :=
  | ForbiddenError
  | NotFoundError
  | QueryFailedError.

Inductive result (A : Type) : Type :=
  | Ok (a : A)
  | Failed (e : Error).
Arguments Ok {A} a.
Arguments Failed {A} e.

(** [user.id !== id]: the id of a user is the text of its uuid. *)
Definition own_id (user : User) (id : string) : bool :=
  bool_decide (uuid_out (user_id user) = id).

Definition same_provider_owner (a x : ExternalAccount) : Prop :=
  account_provider x = account_provider a ∧ account_ownerId x = account_ownerId a.

#[global] Instance same_provider_owner_dec a x : Decision (same_provider_owner a x).
Proof. unfold same_provider_owner. apply _. Defined.

(** The constraint [Unique(['provider', 'uid'])]: the account is linked to
    another row already. *)
Definition uid_taken (a x : ExternalAccount) : Prop :=
  account_provider x = account_provider a ∧ account_uid x = account_uid a ∧
  ¬ same_provider_owner a x.

#[global] Instance uid_taken_dec a x : Decision (uid_taken a x).
Proof. unfold uid_taken. apply _. Defined.

(** [INSERT ... ON CONFLICT ("provider", "ownerId") DO UPDATE SET
    uid = excluded.uid, token = excluded.token] *)
Definition upsert_account (a : ExternalAccount) (table : list ExternalAccount)
  : result (list ExternalAccount) :=
  if decide (Exists (uid_taken a) table) then Failed QueryFailedError
  else if decide (Exists (same_provider_owner a) table)
  then Ok ((λ x, if decide (same_provider_owner a x)
                 then mkExternalAccount (account_provider x) (account_uid a)
                                        (account_token a) (account_ownerId x)
                 else x) <$> table)
  else Ok (table ++ [a]).

Section Session.

(** The session that a provider keeps for a token, from the authentication
    module. *)
Variable getExternalProviderSession : string → string → option SessionData.

Definition addProvider (user : User) (id provider token : string)
    (table : list ExternalAccount) : result unit * list ExternalAccount :=
  if negb (own_id user id) then (Failed ForbiddenError, table)
  else
    match getExternalProviderSession token provider with
    | None => (Failed NotFoundError, table)
    | Some sessionData =>
        match upsert_account
                (mkExternalAccount provider (session_id sessionData)
                                   (session_token sessionData) (user_id user))
                table with
        | Ok table' => (Ok tt, table')
        | Failed e => (Failed e, table)
        end
    end.

End Session.

Definition removeProvider (user : User) (id provider : string)
    (table : list ExternalAccount) : result unit * list ExternalAccount :=
  if negb (own_id user id) then (Failed ForbiddenError, table)
  else (Ok tt,
        filter (λ x, ¬ (account_provider x = provider ∧
                        account_ownerId x = user_id user)) table).

Definition getProviderStatus (user : User) (id : string)
    (table : list ExternalAccount) : result (list string) :=
  if negb (own_id user id) then Failed ForbiddenError
  else Ok (account_provider <$>
             filter (λ x, account_ownerId x = user_id user) table).

End Providers.

(** ** Downloads *)

(** The statement that [getResourcesURL] and [downloadPackage] send once
    they have the level: [INSERT INTO level_downloads ("levelId", "userId")
    VALUES ((SELECT id FROM levels WHERE uid = $1), $2) ON CONFLICT
    ("levelId", "userId") DO UPDATE SET "date" = NOW(), "count" =
    level_downloads."count" + 1]. The columns it updates on a conflict are
    not among those the model keeps; a NULL levelId is an error. *)
Definition record_download (levelId : string) (userId : N) (db : Database)
  : outcome (unit * Database) :=
  match level_id_of_uid db levelId with
  | SVal lvl =>
      let hit d := download_levelId d = lvl ∧ download_userId d = userId in
      Return (tt, mkDatabase (users db) (levels db) (charts db) (records db)
                    (level_ratings db)
                    (if decide (Exists hit (level_downloads db))
                     then level_downloads db
                     else level_downloads db ++ [mkDownload lvl userId]))
  | _ => Throw DatabaseError
  end.

(** * Properties *)

(** ** The two sort orders of the leaderboard *)

#[global] Instance score_date_le_total : Total score_date_le.
Proof. intros a b. unfold score_date_le. lia. Qed.

#[global] Instance score_date_le_trans : Transitive score_date_le.
Proof. intros a b c. unfold score_date_le. lia. Qed.

#[global] Instance score_date_le_refl : Reflexive score_date_le.
Proof. intros a. unfold score_date_le. lia. Qed.

#[global] Instance owner_score_date_le_total : Total owner_score_date_le.
Proof. intros a b. unfold owner_score_date_le, score_date_le. lia. Qed.

#[global] Instance owner_score_date_le_trans : Transitive owner_score_date_le.
Proof. intros a b c. unfold owner_score_date_le, score_date_le. lia. Qed.

Lemma score_date_before_spec a b :
  score_date_before a b = true ↔
  rec_score b < rec_score a ∨ (rec_score a = rec_score b ∧ rec_date a < rec_date b).
Proof. unfold score_date_before. lia. Qed.

Lemma score_date_before_le a b :
  score_date_before a b = true → score_date_le a b.
Proof. rewrite score_date_before_spec. unfold score_date_le. lia. Qed.

Lemma score_date_before_irrefl a : score_date_before a a = false.
Proof.
  destruct (score_date_before a a) eqn:E; [|done].
  apply score_date_before_spec in E. lia.
Qed.

Lemma score_date_before_trans a b c :
  score_date_before a b = true → score_date_before b c = true →
  score_date_before a c = true.
Proof. rewrite !score_date_before_spec. lia. Qed.

(** ** DISTINCT ON over sorted rows *)

Section distinct_on.
Context {A : Type} (key : A → N).

Lemma distinct_on_from_elem prev l x :
  x ∈ distinct_on_from key prev l → x ∈ l.
Proof.
  revert prev. induction l as [|a l IH]; intros prev; simpl; [done|].
  destruct (decide (prev = Some (key a))) as [_|_]; intros Hx.
  - right. by eapply IH.
  - apply elem_of_cons in Hx as [->|Hx]; [left|right; by eapply IH].
Qed.

(** Every key that differs from the previous row's key is represented. *)
Lemma distinct_on_from_complete prev l y :
  y ∈ l → prev ≠ Some (key y) →
  ∃ x, x ∈ distinct_on_from key prev l ∧ key x = key y.
Proof.
  revert prev. induction l as [|a l IH]; intros prev Hy Hprev.
  { by apply elem_of_nil in Hy. }
  apply elem_of_cons in Hy as [->|Hy]; simpl.
  - case_decide; [done|]. exists a. split; [left|done].
  - destruct (decide (key a = key y)) as [Heq|Hne].
    + case_decide as Hp; [congruence|]. exists a. split; [left|done].
    + destruct (IH (Some (key a)) Hy) as (x & Hx & Hk); [congruence|].
      exists x. split; [|done]. case_decide; [done|by right].
Qed.

(** On rows whose keys never decrease, the emitted keys strictly increase
    and lie above the previous row's key. *)
Lemma distinct_on_from_increasing prev l :
  StronglySorted (λ a b, (key a ≤ key b)%N) l →
  (∀ p x, prev = Some p → x ∈ l → (p ≤ key x)%N) →
  StronglySorted (λ a b, (key a < key b)%N) (distinct_on_from key prev l) ∧
  (∀ p x, prev = Some p → x ∈ distinct_on_from key prev l → (p < key x)%N).
Proof.
  revert prev. induction l as [|a l IH]; intros prev Hs Hp; simpl.
  { split; [constructor|]. intros p x _ Hx. by apply elem_of_nil in Hx. }
  apply StronglySorted_inv in Hs as [Hs Ha].
  rewrite Forall_forall in Ha.
  destruct (IH (Some (key a)) Hs) as [IH1 IH2].
  { intros p x [= <-] Hx. by apply Ha. }
  case_decide as Hprev.
  - split; [done|]. intros p x Hpp Hx.
    rewrite Hpp in Hprev. injection Hprev as ->. by apply IH2.
  - split.
    + constructor; [done|]. apply Forall_forall. intros x Hx. by apply IH2.
    + intros p x Hpp Hx. subst prev.
      assert (p ≤ key a)%N by (apply Hp; [done|left]).
      assert (p ≠ key a) by congruence.
      apply elem_of_cons in Hx as [->|Hx]; [lia|].
      specialize (IH2 (key a) x eq_refl Hx). lia.
Qed.

Lemma distinct_on_NoDup l :
  StronglySorted (λ a b, (key a ≤ key b)%N) l →
  NoDup (key <$> distinct_on key l).
Proof.
  intros Hs. destruct (distinct_on_from_increasing None l Hs) as [H _]; [done|].
  unfold distinct_on. induction H as [|a l' _ IH Ha]; [constructor|].
  rewrite fmap_cons. constructor; [|done].
  rewrite list_elem_of_fmap. intros (x & Heq & Hx).
  rewrite Forall_forall in Ha. specialize (Ha x Hx). lia.
Qed.

(** An emitted row comes before every row of the input that has its key. *)
Lemma distinct_on_from_first (R : relation A) `{!Reflexive R} prev l x y :
  StronglySorted R l →
  (∀ a b, R a b → (key a ≤ key b)%N) →
  x ∈ distinct_on_from key prev l → y ∈ l → key y = key x → R x y.
Proof.
  intros Hs Hmono. revert prev.
  induction Hs as [|a l Hs IH Ha]; intros prev Hx Hy Hk.
  { by apply elem_of_nil in Hy. }
  rewrite Forall_forall in Ha.
  assert (Hkeys : StronglySorted (λ a b, (key a ≤ key b)%N) l).
  { clear -Hs Hmono. induction Hs as [|b l Hs IH Hb]; constructor; [done|].
    eapply Forall_impl; [exact Hb|]. intros c Hc. by apply Hmono. }
  destruct (distinct_on_from_increasing (Some (key a)) l Hkeys) as [_ Hgt].
  { intros p z [= <-] Hz. by apply Hmono, Ha. }
  assert (Hrest : x ∈ distinct_on_from key (Some (key a)) l → R x y).
  { intros Hx'. specialize (Hgt (key a) x eq_refl Hx').
    apply elem_of_cons in Hy as [->|Hy]; [lia|]. by eapply IH. }
  simpl in Hx. case_decide; [by apply Hrest|].
  apply elem_of_cons in Hx as [->|Hx]; [|by apply Hrest].
  apply elem_of_cons in Hy as [->|Hy]; [reflexivity|by apply Ha].
Qed.

End distinct_on.

(** ** The best record of each player *)

Lemma owner_score_date_le_owner a b :
  owner_score_date_le a b → (rec_ownerId a ≤ rec_ownerId b)%N.
Proof. unfold owner_score_date_le. lia. Qed.

#[global] Instance owner_score_date_le_refl : Reflexive owner_score_date_le.
Proof. intros a. unfold owner_score_date_le, score_date_le. lia. Qed.

Lemma sorted_candidates c rs :
  StronglySorted owner_score_date_le
    (merge_sort owner_score_date_le (filter (ranked_on_chart c) rs)).
Proof. apply StronglySorted_merge_sort; apply _. Qed.

Lemma sorted_candidates_owner c rs :
  StronglySorted (λ a b, (rec_ownerId a ≤ rec_ownerId b)%N)
    (merge_sort owner_score_date_le (filter (ranked_on_chart c) rs)).
Proof.
  generalize (sorted_candidates c rs).
  induction 1 as [|a l Hs IH Ha]; constructor; [done|].
  eapply Forall_impl; [exact Ha|]. intros b. apply owner_score_date_le_owner.
Qed.

Lemma best_records_elem c rs r :
  r ∈ best_records c rs → r ∈ rs ∧ ranked_on_chart c r.
Proof.
  intros Hr. apply distinct_on_from_elem in Hr.
  rewrite merge_sort_Permutation in Hr. by apply list_elem_of_filter in Hr as [? ?].
Qed.

Lemma best_records_NoDup c rs : NoDup (rec_ownerId <$> best_records c rs).
Proof. apply distinct_on_NoDup, sorted_candidates_owner. Qed.

Lemma best_records_best c rs e r :
  e ∈ best_records c rs → r ∈ rs → ranked_on_chart c r →
  rec_ownerId r = rec_ownerId e → score_date_le e r.
Proof.
  intros He Hr Hc Ho.
  assert (owner_score_date_le e r) as [Hlt|[_ Hle]]; [|lia|done].
  eapply (distinct_on_from_first rec_ownerId owner_score_date_le);
    [apply sorted_candidates|apply owner_score_date_le_owner|exact He| |done].
  rewrite merge_sort_Permutation. by apply list_elem_of_filter.
Qed.

Lemma best_records_complete c rs r :
  r ∈ rs → ranked_on_chart c r →
  ∃ e, e ∈ best_records c rs ∧ rec_ownerId e = rec_ownerId r.
Proof.
  intros Hr Hc. apply distinct_on_from_complete; [|done].
  rewrite merge_sort_Permutation. by apply list_elem_of_filter.
Qed.

(** The rows of the leaderboard are the best records, reordered. *)
Lemma queryLeaderboard_records db levelUid chartType lb :
  queryLeaderboard db levelUid chartType = Return lb →
  chart_id_of db levelUid chartType ≠ SMany ∧
  entry_record <$> lb =
    merge_sort score_date_le
      (best_records (chart_id_of db levelUid chartType) (records db)).
Proof.
  unfold queryLeaderboard. intros H.
  destruct (chart_id_of db levelUid chartType) as [|c|] eqn:E; [| |done];
    injection H as <-; (split; [done|]);
    rewrite <- list_fmap_compose; simpl; apply list_fmap_id.
Qed.

(** The query fails only on an ambiguous chart lookup. *)
Lemma queryLeaderboard_returns db levelUid chartType :
  chart_id_of db levelUid chartType ≠ SMany →
  ∃ lb, queryLeaderboard db levelUid chartType = Return lb.
Proof.
  intros H. unfold queryLeaderboard.
  destruct (chart_id_of db levelUid chartType); [by eexists|by eexists|done].
Qed.

Lemma queryLeaderboard_entry db levelUid chartType lb e :
  queryLeaderboard db levelUid chartType = Return lb → e ∈ lb →
  entry_owner e = owner_of db (entry_record e) ∧
  entry_rank e =
    sql_rank score_date_before
      (best_records (chart_id_of db levelUid chartType) (records db))
      (entry_record e).
Proof.
  unfold queryLeaderboard. intros H He.
  destruct (chart_id_of db levelUid chartType) as [|c|] eqn:E; [| |done];
    injection H as <-; apply list_elem_of_fmap in He as (r & -> & _); done.
Qed.

(** ** Counting rows *)

Section counting.
Context {A : Type} (P Q : A → Prop) `{!∀ x, Decision (P x), !∀ x, Decision (Q x)}.

Lemma filter_length_le_impl (l : list A) :
  (∀ x, x ∈ l → P x → Q x) → (length (filter P l) ≤ length (filter Q l))%nat.
Proof.
  induction l as [|a l IH]; intros HPQ; [done|].
  assert (length (filter P l) ≤ length (filter Q l))%nat as IH'.
  { apply IH. intros x Hx. apply HPQ. by right. }
  rewrite !filter_cons.
  destruct (decide (P a)) as [HP|HP], (decide (Q a)) as [HQ|HQ]; simpl; try lia.
  exfalso. apply HQ, HPQ; [left|done].
Qed.

Lemma filter_length_lt_impl (l : list A) x0 :
  (∀ x, x ∈ l → P x → Q x) → x0 ∈ l → Q x0 → ¬ P x0 →
  (length (filter P l) < length (filter Q l))%nat.
Proof.
  induction l as [|a l IH]; intros HPQ Hx0 HQ0 HP0.
  { by apply elem_of_nil in Hx0. }
  assert (∀ x, x ∈ l → P x → Q x) as HPQ' by (intros x Hx; apply HPQ; by right).
  pose proof (filter_length_le_impl l HPQ') as Hle.
  rewrite !filter_cons.
  apply elem_of_cons in Hx0 as [<-|Hx0].
  - rewrite (decide_True (P:=Q x0)), (decide_False (P:=P x0)) by done. simpl. lia.
  - specialize (IH HPQ' Hx0 HQ0 HP0).
    destruct (decide (P a)) as [HP|HP], (decide (Q a)) as [HQ|HQ]; simpl; try lia.
    exfalso. apply HQ, HPQ; [left|done].
Qed.

End counting.

Lemma filter_length_fmap {A B} (f : A → B) (P : B → Prop) `{!∀ x, Decision (P x)}
    (l : list A) :
  length (filter (λ x, P (f x)) l) = length (filter P (f <$> l)).
Proof.
  induction l as [|a l IH]; [done|].
  rewrite fmap_cons, !filter_cons. destruct (decide (P (f a))); simpl; by rewrite IH.
Qed.

(** ** C8, C1: the leaderboard *)

(** The sample chart: bob leads on the earlier of two equal scores. *)
Example leaderboard_sample :
  (λ e, (rec_id (entry_record e), entry_rank e)) <$>
    default [] (match queryLeaderboard Sample.db "io.cytoid.glow" "hard" with
                | Return l => Some l | Throw _ => None end)
  = [(3%N, 1); (2%N, 2); (5%N, 3)].
Proof. vm_compute. reflexivity. Qed.

Example ranking_around_sample :
  match fst (getChartRanking "io.cytoid.glow" "hard" None None (Some "alice")
                             (Some 1%Q) Sample.world) with
  | Return l => (λ e, (rec_id (entry_record e), entry_rank e)) <$> l
  | Throw _ => []
  end = [(3%N, 1); (2%N, 2); (5%N, 3)].
Proof. vm_compute. reflexivity. Qed.

(** C8. In the leaderboard of a chart every player appears at most once:
    the rows are records of that chart with ranked = true, no two rows have
    the same owner, every owner with such a record has a row, and the row
    of an owner is a best record of theirs (no ranked record of the owner
    on the chart has a higher score, or the same score and an earlier
    date). *)
Theorem leaderboard_one_best_record_per_player db levelUid chartType lb :
  queryLeaderboard db levelUid chartType = Return lb →
  NoDup ((λ e, rec_ownerId (entry_record e)) <$> lb) ∧
  (∀ e, e ∈ lb →
     entry_record e ∈ records db ∧
     rec_ranked (entry_record e) = true ∧
     chart_id_of db levelUid chartType = SVal (rec_chartId (entry_record e))) ∧
  (∀ e r, e ∈ lb → r ∈ records db →
     rec_ranked r = true → rec_chartId r = rec_chartId (entry_record e) →
     rec_ownerId r = rec_ownerId (entry_record e) →
     rec_score r < rec_score (entry_record e) ∨
     (rec_score r = rec_score (entry_record e) ∧
      rec_date (entry_record e) ≤ rec_date r)) ∧
  (∀ r, r ∈ records db → rec_ranked r = true →
     chart_id_of db levelUid chartType = SVal (rec_chartId r) →
     ∃ e, e ∈ lb ∧ rec_ownerId (entry_record e) = rec_ownerId r).
Proof.
  intros Hq. destruct (queryLeaderboard_records _ _ _ _ Hq) as [_ Hrec].
  set (c := chart_id_of db levelUid chartType) in *.
  assert (Hin : ∀ r, r ∈ entry_record <$> lb ↔ r ∈ best_records c (records db)).
  { intros r. by rewrite Hrec, merge_sort_Permutation. }
  assert (Hchart : ∀ r, ranked_on_chart c r ↔
                        c = SVal (rec_chartId r) ∧ rec_ranked r = true).
  { intros r. unfold ranked_on_chart, eq_scalar.
    destruct c as [|x|]; [naive_solver| |naive_solver].
    rewrite bool_decide_eq_true. naive_solver. }
  split; [|split; [|split]].
  - rewrite (list_fmap_compose entry_record rec_ownerId), Hrec,
      merge_sort_Permutation.
    apply best_records_NoDup.
  - intros e He.
    assert (entry_record e ∈ best_records c (records db)) as Hb.
    { apply Hin, list_elem_of_fmap. eauto. }
    apply best_records_elem in Hb as [? Hc]. apply Hchart in Hc. naive_solver.
  - intros e r He Hr Hranked Hsame Howner.
    assert (entry_record e ∈ best_records c (records db)) as Hb.
    { apply Hin, list_elem_of_fmap. eauto. }
    pose proof (best_records_elem _ _ _ Hb) as [_ Hc]. apply Hchart in Hc as [Hc _].
    assert (score_date_le (entry_record e) r) as Hle.
    { eapply best_records_best; [exact Hb|done| |done].
      apply Hchart. rewrite Hsame. done. }
    unfold score_date_le in Hle. lia.
  - intros r Hr Hranked Hc.
    destruct (best_records_complete c (records db) r Hr) as (x & Hx & Ho).
    { by apply Hchart. }
    apply Hin, list_elem_of_fmap in Hx as (e & -> & He). eauto.
Qed.

Lemma leaderboard_one_best_record_per_player_witness :
  queryLeaderboard Sample.db "io.cytoid.glow" "hard" = Return SampleBoard.rows ∧
  NoDup ((λ e, rec_ownerId (entry_record e)) <$> SampleBoard.rows).
Proof.
  assert (queryLeaderboard Sample.db "io.cytoid.glow" "hard"
          = Return SampleBoard.rows) as H by (vm_compute; reflexivity).
  split; [exact H|].
  apply (leaderboard_one_best_record_per_player
           Sample.db "io.cytoid.glow" "hard" SampleBoard.rows H).
Defined.

Lemma sql_rank_lt (rows : list PlayRecord) a b :
  a ∈ rows → score_date_before a b = true →
  sql_rank score_date_before rows a < sql_rank score_date_before rows b.
Proof.
  intros Ha Hab. unfold sql_rank.
  enough (length (filter (λ y, score_date_before y a = true) rows) <
          length (filter (λ y, score_date_before y b = true) rows))%nat by lia.
  apply (filter_length_lt_impl _ _ rows a); [|done|done|].
  - intros x _ Hx. by eapply score_date_before_trans.
  - by rewrite score_date_before_irrefl.
Qed.

Lemma sql_rank_peers (rows : list PlayRecord) a b :
  rec_score a = rec_score b → rec_date a = rec_date b →
  sql_rank score_date_before rows a = sql_rank score_date_before rows b.
Proof.
  intros Hs Hd. unfold sql_rank. do 3 f_equal.
  apply list_filter_iff. intros y. rewrite !score_date_before_spec. lia.
Qed.

(** C1. The rows of a chart's leaderboard come by score descending and, at
    equal score, by date ascending; a row that precedes another in this
    order (a higher score, or the same score and an earlier date) has the
    smaller rank, rows equal in score and date share their rank, and the
    rank of a row is SQL's rank() over this order: one more than the number
    of rows of the leaderboard strictly before it. The rows are those of
    the chart's records: the record of a row is a record of the chart with
    ranked = true, and every such record has the row of its owner, whose
    record has a higher score, or the same score and a date that is not
    later. *)
Theorem leaderboard_order_and_rank db levelUid chartType lb :
  queryLeaderboard db levelUid chartType = Return lb →
  StronglySorted
    (λ a b, rec_score (entry_record b) < rec_score (entry_record a) ∨
            (rec_score (entry_record a) = rec_score (entry_record b) ∧
             rec_date (entry_record a) ≤ rec_date (entry_record b))) lb ∧
  (∀ a b, a ∈ lb → b ∈ lb →
     rec_score (entry_record b) < rec_score (entry_record a) ∨
     (rec_score (entry_record a) = rec_score (entry_record b) ∧
      rec_date (entry_record a) < rec_date (entry_record b)) →
     entry_rank a < entry_rank b) ∧
  (∀ a b, a ∈ lb → b ∈ lb →
     rec_score (entry_record a) = rec_score (entry_record b) →
     rec_date (entry_record a) = rec_date (entry_record b) →
     entry_rank a = entry_rank b) ∧
  (∀ a, a ∈ lb →
     entry_rank a =
       1 + Z.of_nat (length (filter
             (λ b, rec_score (entry_record a) < rec_score (entry_record b) ∨
                   (rec_score (entry_record b) = rec_score (entry_record a) ∧
                    rec_date (entry_record b) < rec_date (entry_record a)))
             lb))) ∧
  (∀ a, a ∈ lb →
     entry_record a ∈ records db ∧
     rec_ranked (entry_record a) = true ∧
     chart_id_of db levelUid chartType = SVal (rec_chartId (entry_record a))) ∧
  (∀ r, r ∈ records db → rec_ranked r = true →
     chart_id_of db levelUid chartType = SVal (rec_chartId r) →
     ∃ a, a ∈ lb ∧ rec_ownerId (entry_record a) = rec_ownerId r ∧
          (rec_score r < rec_score (entry_record a) ∨
           (rec_score r = rec_score (entry_record a) ∧
            rec_date (entry_record a) ≤ rec_date r))).
Proof.
  intros Hq. destruct (queryLeaderboard_records _ _ _ _ Hq) as [_ Hrec].
  set (c := chart_id_of db levelUid chartType) in *.
  set (best := best_records c (records db)) in *.
  assert (Hrank : ∀ a, a ∈ lb →
            entry_rank a = sql_rank score_date_before best (entry_record a)).
  { intros a Ha. by destruct (queryLeaderboard_entry _ _ _ _ a Hq Ha). }
  assert (Hin : ∀ a, a ∈ lb → entry_record a ∈ best).
  { intros a Ha. rewrite <- (merge_sort_Permutation score_date_le best), <- Hrec.
    apply list_elem_of_fmap. eauto. }
  assert (Hchart : ∀ r, ranked_on_chart c r ↔
                        c = SVal (rec_chartId r) ∧ rec_ranked r = true).
  { intros r. unfold ranked_on_chart, eq_scalar.
    destruct c as [|x|]; [naive_solver| |naive_solver].
    rewrite bool_decide_eq_true. naive_solver. }
  split; [|split; [|split; [|split; [|split]]]]; cycle 4.
  - intros a Ha. apply Hin, best_records_elem in Ha as [? Hc].
    apply Hchart in Hc. naive_solver.
  - intros r Hr Hranked Hc.
    destruct (best_records_complete c (records db) r Hr) as (x & Hx & Ho).
    { by apply Hchart. }
    assert (x ∈ entry_record <$> lb) as Hx'.
    { by rewrite Hrec, merge_sort_Permutation. }
    apply list_elem_of_fmap in Hx' as (a & -> & Ha).
    exists a. split; [done|]. split; [done|].
    assert (score_date_le (entry_record a) r) as Hle.
    { eapply best_records_best; [exact Hx|done| |done]. by apply Hchart. }
    unfold score_date_le in Hle. lia.
  - assert (StronglySorted score_date_le (entry_record <$> lb)) as Hs.
    { rewrite Hrec. apply StronglySorted_merge_sort; apply _. }
    clear -Hs. induction lb as [|a l IH]; [constructor|].
    rewrite fmap_cons in Hs. apply StronglySorted_inv in Hs as [Hs Ha].
    constructor; [by apply IH|].
    rewrite Forall_fmap in Ha. exact Ha.
  - intros a b Ha Hb Hab. rewrite (Hrank a Ha), (Hrank b Hb).
    apply sql_rank_lt; [by apply Hin|]. by apply score_date_before_spec.
  - intros a b Ha Hb Hs Hd. rewrite (Hrank a Ha), (Hrank b Hb).
    by apply sql_rank_peers.
  - intros a Ha. rewrite (Hrank a Ha). unfold sql_rank. do 2 f_equal.
    rewrite <- (merge_sort_Permutation score_date_le best), <- Hrec.
    rewrite <- (filter_length_fmap entry_record
                  (λ y, score_date_before y (entry_record a) = true)).
    f_equal. apply list_filter_iff. intros b.
    rewrite score_date_before_spec. lia.
Qed.

Lemma leaderboard_order_and_rank_witness :
  let lb :=
    [ mkEntry (mkPlayRecord 3 100 2 950000 0.95 40 true) (Some Sample.bob) 1;
      mkEntry (mkPlayRecord 2 100 1 950000 0.95 60 true) (Some Sample.alice) 2;
      mkEntry (mkPlayRecord 5 100 3 800000 0.8 80 true) (Some Sample.carol) 3 ] in
  queryLeaderboard Sample.db "io.cytoid.glow" "hard" = Return lb ∧
  StronglySorted
    (λ a b, rec_score (entry_record b) < rec_score (entry_record a) ∨
            (rec_score (entry_record a) = rec_score (entry_record b) ∧
             rec_date (entry_record a) ≤ rec_date (entry_record b)))
    lb.
Proof.
  intros lb.
  assert (queryLeaderboard Sample.db "io.cytoid.glow" "hard" = Return lb)
    as H by (vm_compute; reflexivity).
  split; [exact H|].
  apply (leaderboard_order_and_rank Sample.db "io.cytoid.glow" "hard" lb H).
Defined.

(** ** C2: the ranks around a user *)







Lemma chart_id_of_level db id chartType :
  chart_id_of db id chartType ≠ SMany → level_id_of_uid db id ≠ SMany.
Proof. unfold chart_id_of. by destruct (level_id_of_uid db id). Qed.

Lemma queryLeaderboard_chart db id chartType lb :
  queryLeaderboard db id chartType = Return lb →
  chart_id_of db id chartType ≠ SMany.
Proof. unfold queryLeaderboard. by destruct (chart_id_of db id chartType). Qed.

Lemma integer_text_spec q : integer_text q = true ↔ ∃ z, (q == inject_Z z)%Q.
Proof.
  unfold integer_text. rewrite bool_decide_eq_true. split.
  - intros H. exists (Qnum (Qred q)).
    rewrite <- (Qred_correct q) at 1.
    destruct (Qred q) as [n d]; simpl in *. by subst d.
  - intros [z Hz]. apply Qred_complete in Hz. rewrite Hz.
    rewrite Qcanon.Qred_identity; [done|]. simpl. apply Z.gcd_1_r.
Qed.




(** ** ORDER BY is a total preorder *)

Lemma term_compare_antisym t a b :
  term_compare t b a = CompOpp (term_compare t a b).
Proof.
  unfold term_compare.
  destruct a as [x|], b as [y|]; try (by destruct (term_nulls_last t)).
  destruct (term_order t); by rewrite <- Qcompare_antisym.
Qed.

Lemma term_compare_eq_l t a b c :
  term_compare t a b = Eq → term_compare t b c = term_compare t a c.
Proof.
  unfold term_compare.
  destruct a as [x|], b as [y|]; try (by destruct (term_nulls_last t)).
  destruct c as [z|]; [|done].
  destruct (term_order t); intros H; apply Qeq_alt in H.
  - by rewrite H.
  - by rewrite H.
Qed.

Lemma term_compare_lt_trans t a b c :
  term_compare t a b = Lt → term_compare t b c = Lt → term_compare t a c = Lt.
Proof.
  unfold term_compare.
  destruct a as [x|], b as [y|], c as [z|];
    try (by destruct (term_nulls_last t)).
  destruct (term_order t); rewrite <- !Qlt_alt; intros H1 H2;
    eapply Qlt_trans; eassumption.
Qed.

Lemma term_compare_lt_eq t a b c :
  term_compare t a b = Lt → term_compare t b c = Eq → term_compare t a c = Lt.
Proof.
  intros Hab Hbc.
  assert (term_compare t c b = Eq) as Hcb by (by rewrite term_compare_antisym, Hbc).
  apply (term_compare_eq_l t c b a) in Hcb.
  rewrite (term_compare_antisym t a c), (term_compare_antisym t a b), Hab in Hcb.
  destruct (term_compare t a c); simpl in Hcb; congruence.
Qed.

Section order_compare.
Context (db : Database).

Lemma order_compare_antisym ts a b :
  order_compare db ts b a = CompOpp (order_compare db ts a b).
Proof.
  induction ts as [|t ts IH]; [done|]. simpl.
  rewrite (term_compare_antisym t (column_value db (term_column t) a)).
  by destruct (term_compare t _ _).
Qed.

Lemma order_compare_trans ts a b c :
  (order_compare db ts a b = Eq →
     order_compare db ts b c = order_compare db ts a c) ∧
  (order_compare db ts a b = Lt → order_compare db ts b c = Eq →
     order_compare db ts a c = Lt) ∧
  (order_compare db ts a b = Lt → order_compare db ts b c = Lt →
     order_compare db ts a c = Lt).
Proof.
  induction ts as [|t ts (IHe & IHle & IHll)]; [done|]. simpl.
  set (va := column_value db (term_column t) a).
  set (vb := column_value db (term_column t) b).
  set (vc := column_value db (term_column t) c).
  pose proof (term_compare_eq_l t va vb vc) as He.
  pose proof (term_compare_lt_eq t va vb vc) as Hle.
  pose proof (term_compare_lt_trans t va vb vc) as Hll.
  destruct (term_compare t va vb) eqn:Eab.
  - rewrite <- (He eq_refl).
    destruct (term_compare t vb vc); [by auto| |]; by auto.
  - destruct (term_compare t vb vc) eqn:Ebc.
    + rewrite (Hle eq_refl eq_refl). by auto.
    + rewrite (Hll eq_refl eq_refl). by auto.
    + repeat split; intros; congruence.
  - repeat split; intros; congruence.
Qed.

#[global] Instance order_le_total ts : Total (order_le db ts).
Proof.
  intros a b. unfold order_le. rewrite (order_compare_antisym ts a b).
  destruct (order_compare db ts a b); simpl; [left|left|right]; done.
Qed.

#[global] Instance order_le_trans ts : Transitive (order_le db ts).
Proof.
  intros a b c. unfold order_le.
  destruct (order_compare_trans ts a b c) as (He & Hle & Hll).
  destruct (order_compare db ts a b) eqn:Eab; [| |done].
  - intros _. by rewrite (He eq_refl).
  - intros _. destruct (order_compare db ts b c) eqn:Ebc; [| |done]; intros _.
    + by rewrite (Hle eq_refl eq_refl).
    + by rewrite (Hll eq_refl eq_refl).
Qed.

End order_compare.

(** ** getLevels *)

Lemma isInteger_spec q : isInteger q = true ↔ ∃ z, (q == inject_Z z)%Q.
Proof.
  unfold isInteger. rewrite bool_decide_eq_true. split.
  - intros H. exists (Qnum (Qred q)).
    rewrite <- (Qred_correct q) at 1.
    destruct (Qred q) as [n d]; simpl in *. by subst d.
  - intros [z Hz]. apply Qred_complete in Hz. rewrite Hz.
    rewrite Qcanon.Qred_identity; [done|]. simpl. apply Z.gcd_1_r.
Qed.

Lemma clampPageLimit_range pageLimit :
  (0 <= clampPageLimit pageLimit ∧ clampPageLimit pageLimit <= 200)%Q.
Proof.
  unfold clampPageLimit.
  destruct (decide (200 < pageLimit)%Q) as [H1|H1]; [split; lra|].
  apply Qnot_lt_le in H1.
  destruct (decide (pageLimit < 0)%Q) as [H2|H2]; [split; lra|].
  apply Qnot_lt_le in H2. by split.
Qed.

Lemma clampPageLimit_id pageLimit :
  (0 <= pageLimit)%Q → (pageLimit <= 200)%Q → clampPageLimit pageLimit = pageLimit.
Proof.
  intros H0 H200. unfold clampPageLimit.
  rewrite (decide_False (P := (200 < pageLimit)%Q)) by lra.
  rewrite decide_False by lra. done.
Qed.

Lemma clampPageLimit_low pageLimit :
  (pageLimit < 0)%Q → clampPageLimit pageLimit = 0%Q.
Proof.
  intros H. unfold clampPageLimit.
  rewrite (decide_False (P := (200 < pageLimit)%Q)) by lra.
  rewrite decide_True by done. done.
Qed.

Lemma clampPageLimit_high pageLimit :
  (200 < pageLimit)%Q → clampPageLimit pageLimit = 200%Q.
Proof. intros H. unfold clampPageLimit. by rewrite decide_True. Qed.

Lemma clampPageLimit_idemp pageLimit :
  clampPageLimit (clampPageLimit pageLimit) = clampPageLimit pageLimit.
Proof.
  destruct (clampPageLimit_range pageLimit). by apply clampPageLimit_id.
Qed.

Lemma sql_round_nonneg q : (0 <= q)%Q → 0 ≤ sql_round q.
Proof.
  intros H. unfold sql_round. rewrite decide_True by done.
  assert (Qfloor 0 ≤ Qfloor (q + 0.5))%Z as Hle.
  { apply Qfloor_resp_le. lra. }
  exact Hle.
Qed.

Section getLevels_props.
Context (levels_where :
           gmap string string → option User → Database → outcome (list Level)).

Lemma getLevels_rejects user pageNum pageLimit sortOrder query w :
  (default 0 pageNum < 0)%Q ∨ isInteger (default 0%Q pageNum) = false →
  getLevels levels_where user pageNum pageLimit sortOrder query w
    = (Throw BadRequestError, w).
Proof. intros H. unfold getLevels. by rewrite decide_True. Qed.

Lemma sql_round_le_200 q : (q <= 200)%Q → sql_round q ≤ 200.
Proof.
  intros H. unfold sql_round. case_decide as Hq.
  - assert (Qfloor (q + 0.5) ≤ Qfloor (200 + 0.5))%Z as Hle.
    { apply Qfloor_resp_le. lra. }
    exact Hle.
  - apply Qnot_le_lt in Hq.
    assert (Qfloor 0 ≤ Qfloor (- q + 0.5))%Z as Hle.
    { apply Qfloor_resp_le. lra. }
    change (Qfloor 0) with 0%Z in Hle. lia.
Qed.

(** The run of getLevels once the page number is accepted and the levels
    are found. *)
Lemma getLevels_ok user pageNum pageLimit sortOrder query w rows :
  let P := default 0%Q pageNum in
  let L := clampPageLimit (default 30%Q pageLimit) in
  let so := default "asc" sortOrder in
  let count := Z.of_nat (length rows) in
  let h := first_headers query user count (world_headers w) in
  let w2 :=
    mkWorld (world_db w) (world_redis w) (world_now w)
            (<["X-Current-Page" := HNum P]>
               (<["X-Total-Page" :=
                    HNum (inject_Z (Qceiling (inject_Z count / L)))]> h))
            (S (S (world_statements w))) in
  (0 <= P)%Q → isInteger P = true →
  levels_where query user (world_db w) = Return rows →
  getLevels levels_where user pageNum pageLimit sortOrder query w =
    if decide (L == 0)%Q
    then (Return None,
          mkWorld (world_db w) (world_redis w) (world_now w) h
                  (S (world_statements w)))
    else
      match levels_order so (if toUpperCase_is_DESC so then DESC else ASC)
                         query with
      | Some ts =>
          if decide (sql_round (L * P) ≤ int8_max)
          then (Return (Some (level_view (world_db w) <$>
                                take (row_count L)
                                     (drop (row_count (L * P))
                                           (order_by (world_db w) ts rows)))),
                w2)
          else (Throw DatabaseError, w2)
      | None => (Throw DatabaseError, w2)
      end.
Proof.
  intros P L so count h w2 HP Hint Hrows. unfold getLevels.
  fold P L so. rewrite decide_False.
  2:{ intros [H|H]; [lra|congruence]. }
  unfold bind, db_query, set_header, getCount, getRawAndEntities, ret. simpl.
  rewrite Hrows. simpl. fold count.
  destruct (decide (L == 0)%Q) as [H0|H0]; [done|]. simpl.
  destruct (levels_order so _ query) as [ts|]; [|done].
  rewrite Hrows. simpl. unfold limit_offset.
  destruct (clampPageLimit_range (default 30%Q pageLimit)) as [HL HL']. fold L in HL, HL'.
  pose proof (sql_round_nonneg L HL) as H1.
  pose proof (sql_round_le_200 L HL') as H2.
  assert (0 ≤ sql_round (L * P)) as H3 by (apply sql_round_nonneg; nra).
  destruct (decide (sql_round (L * P) ≤ int8_max)) as [H4|H4].
  - rewrite decide_True by (unfold int8_max in *; lia).
    by rewrite (decide_False (P := (L == 0)%Q)).
  - rewrite decide_False by lia. done.
Qed.

End getLevels_props.

Lemma getLevels_inv levels_where user pageNum pageLimit sortOrder query w views w' :
  getLevels levels_where user pageNum pageLimit sortOrder query w
    = (Return (Some views), w') →
  let P := default 0%Q pageNum in
  let L := clampPageLimit (default 30%Q pageLimit) in
  let so := default "asc" sortOrder in
  ∃ rows ts,
    levels_where query user (world_db w) = Return rows ∧
    levels_order so (if toUpperCase_is_DESC so then DESC else ASC) query
    = Some ts ∧
    views = level_view (world_db w) <$>
              take (row_count L)
                   (drop (row_count (L * P)) (order_by (world_db w) ts rows)).
Proof.
  intros H P L so.
  destruct (decide ((P < 0)%Q ∨ isInteger P = false)) as [Hrej|Hok].
  { rewrite getLevels_rejects in H by done. discriminate. }
  assert (0 <= P)%Q as HP by (apply Qnot_lt_le; tauto).
  assert (isInteger P = true) as Hint by (destruct (isInteger P); tauto).
  destruct (levels_where query user (world_db w)) as [rows|e] eqn:Hrows.
  - rewrite (getLevels_ok _ _ _ _ _ _ _ rows HP Hint Hrows) in H.
    fold L P so in H. exists rows.
    destruct (decide (L == 0)%Q); [discriminate|].
    destruct (levels_order so _ query) as [ts|]; [|discriminate].
    destruct (decide (sql_round (L * P) ≤ int8_max)); [|discriminate].
    exists ts. split; [done|]. split; [done|]. by injection H as <- _.
  - unfold getLevels in H. fold P in H. rewrite decide_False in H by done.
    unfold bind, db_query, set_header, getCount in H. simpl in H.
    rewrite Hrows in H. discriminate.
Qed.


Lemma order_by_Permutation db ts rows : order_by db ts rows ≡ₚ rows.
Proof. destruct ts; [done|]. simpl. apply merge_sort_Permutation. Qed.

Lemma order_by_sorted db ts rows :
  ts ≠ [] → StronglySorted (order_le db ts) (order_by db ts rows).
Proof.
  destruct ts; [done|]. intros _. simpl.
  apply StronglySorted_merge_sort; apply _.
Qed.

Lemma StronglySorted_before {A} (R : relation A) l l1 x l2 y :
  StronglySorted R l → l = l1 ++ x :: l2 → y ∈ l2 → R x y.
Proof.
  intros Hs -> Hy. apply StronglySorted_app_1_r in Hs.
  apply StronglySorted_inv in Hs as [_ Hx]. rewrite Forall_forall in Hx. auto.
Qed.

Lemma StronglySorted_take_drop {A} (R : relation A) n m l :
  StronglySorted R l → StronglySorted R (take n (drop m l)).
Proof.
  intros H. rewrite <- (take_drop m l) in H.
  apply StronglySorted_app_1_r in H.
  rewrite <- (take_drop n (drop m l)) in H.
  by apply StronglySorted_app_1_l in H.
Qed.





Lemma row_count_le_200 q : (q <= 200)%Q → (row_count q ≤ 200)%nat.
Proof.
  intros H. unfold row_count, sql_round. case_decide as Hq.
  - assert (Qfloor (q + 0.5) ≤ Qfloor (200 + 0.5))%Z as Hle.
    { apply Qfloor_resp_le. lra. }
    change (Qfloor (200 + 0.5)) with 200%Z in Hle. lia.
  - apply Qnot_le_lt in Hq.
    assert (Qfloor 0 ≤ Qfloor (- q + 0.5))%Z as Hle.
    { apply Qfloor_resp_le. lra. }
    change (Qfloor 0) with 0%Z in Hle. lia.
Qed.

Lemma getLevels_limit_eq levels_where user pageNum l1 l2 sortOrder query w :
  clampPageLimit (default 30%Q l1) = clampPageLimit (default 30%Q l2) →
  getLevels levels_where user pageNum l1 sortOrder query w
    = getLevels levels_where user pageNum l2 sortOrder query w.
Proof. intros H. unfold getLevels. cbv zeta. by rewrite H. Qed.

(** The levels of the sample by rating: the rated level comes first in both
    directions, with aux_rating (60 + 9 * 2) / (10 + 2) = 6.5. *)
Example getLevels_by_rating :
  let run order :=
    getLevels (λ _ _ db, Return (levels db)) None None None (Some order)
              {["sort" := "rating"]} Sample.world in
  let ids r := match r.1 with
               | Return (Some views) => (λ v, level_id (view_level v)) <$> views
               | _ => []
               end in
  ids (run "asc") = [10%N; 11%N] ∧ ids (run "desc") = [10%N; 11%N] ∧
  (default 0 (aux_rating Sample.db Sample.lvl) == 6.5)%Q ∧
  aux_rating Sample.db Sample.lvl2 = None.
Proof. vm_compute. done. Qed.

(** C10. getLevels clamps the page limit (30 when absent) into [0, 200]:
    it behaves as with the clamped limit and a page has at most 200 levels.
    A negative or non-integer page number is rejected with BadRequestError
    and leaves the world as it was: no statement has run and no header is
    set. When the page number is accepted and the clamped limit is 0, the
    endpoint returns null after one statement, the count, and the header
    X-Total-Entries holds the number of matching levels. *)
Theorem getLevels_page_guards levels_where user pageNum pageLimit sortOrder query w :
  let P := default 0%Q pageNum in
  let given := default 30%Q pageLimit in
  let L := clampPageLimit given in
  let run := getLevels levels_where user pageNum pageLimit sortOrder query w in
  ((0 <= L ∧ L <= 200)%Q ∧
   ((given < 0)%Q → L = 0%Q) ∧
   ((200 < given)%Q → L = 200%Q) ∧
   ((0 <= given)%Q → (given <= 200)%Q → L = given) ∧
   run = getLevels levels_where user pageNum (Some L) sortOrder query w ∧
   (∀ views w', run = (Return (Some views), w') → (length views ≤ 200)%nat)) ∧
  ((P < 0)%Q ∨ (¬ ∃ z, (P == inject_Z z)%Q) → run = (Throw BadRequestError, w)) ∧
  (∀ rows,
     (0 <= P)%Q → (∃ z, (P == inject_Z z)%Q) → (L == 0)%Q →
     levels_where query user (world_db w) = Return rows →
     ∃ w', run = (Return None, w') ∧
           world_headers w' !! "X-Total-Entries"
             = Some (HNum (inject_Z (Z.of_nat (length rows)))) ∧
           world_db w' = world_db w ∧
           world_statements w' = S (world_statements w)).
Proof.
  intros P given L run.
  pose proof (clampPageLimit_range given) as Hrange. fold L in Hrange.
  split; [|split].
  - split; [exact Hrange|].
    split; [apply clampPageLimit_low|].
    split; [apply clampPageLimit_high|].
    split; [apply clampPageLimit_id|].
    split.
    + apply getLevels_limit_eq. symmetry. apply clampPageLimit_idemp.
    + intros views w' Hrun. apply getLevels_inv in Hrun as (rows & ts & _ & _ & ->).
      rewrite length_fmap, length_take. fold given. fold L.
      pose proof (row_count_le_200 L (proj2 Hrange)). lia.
  - intros Hrej. apply getLevels_rejects. fold P.
    destruct Hrej as [Hneg|Hfrac]; [by left|right].
    destruct (isInteger P) eqn:E; [|done].
    apply isInteger_spec in E. contradiction.
  - intros rows HP Hint HL Hrows. apply isInteger_spec in Hint.
    unfold run. rewrite (getLevels_ok _ _ _ _ _ _ _ rows HP Hint Hrows).
    fold given. fold L. rewrite decide_True by done.
    eexists. split; [done|]. simpl. split; [|done].
    unfold first_headers. by rewrite lookup_insert_eq.
Qed.

(** Two runs of getLevels over the sample database, every level matching. *)
Example getLevels_bad_page :
  getLevels (λ _ _ db, Return (levels db)) None (Some (3 # 2)) None None ∅
            Sample.world
  = (Throw BadRequestError, Sample.world).
Proof. reflexivity. Qed.

Example getLevels_limit_zero :
  let run := getLevels (λ _ _ db, Return (levels db)) None None (Some (-5)%Q)
                       None ∅ Sample.world in
  run.1 = Return None ∧
  world_headers run.2 !! "X-Total-Entries" = Some (HNum 2) ∧
  world_statements run.2 = 1%nat.
Proof. vm_compute. done. Qed.

(** ** Ratings: getRatings and updateRatings *)

(** A miss: the key is absent or its expiry time is reached. *)
Lemma getRatings_miss id user w :
  (∀ e, world_redis w !! (levelRatingCacheKey +:+ id) = Some e →
        cache_expiry e ≤ world_now w) →
  getRatings id user w =
    match query_ratings id user (world_db w) with
    | Return a =>
        (Return (RatingsObject a.1
                   (if decide (own_rating a.2 = 0) then RatingAbsent
                    else RatingValue (inject_Z (own_rating a.2)))),
         mkWorld (world_db w)
                 (<[levelRatingCacheKey +:+ id :=
                      mkCacheEntry a.1 (world_now w + 3600)]> (world_redis w))
                 (world_now w) (world_headers w) (S (world_statements w)))
    | Throw e =>
        (Throw e,
         mkWorld (world_db w) (world_redis w) (world_now w) (world_headers w)
                 (S (world_statements w)))
    end.
Proof.
  intros Hmiss. unfold getRatings, bind, redis_get. simpl.
  destruct (world_redis w !! (levelRatingCacheKey +:+ id)) as [e|] eqn:E.
  - specialize (Hmiss e eq_refl). rewrite decide_False by lia.
    unfold db_query. by destruct (query_ratings id user (world_db w)).
  - unfold db_query. by destruct (query_ratings id user (world_db w)).
Qed.

(** A hit: the key is there and its expiry time is not reached. *)
Lemma getRatings_hit id user w e :
  world_redis w !! (levelRatingCacheKey +:+ id) = Some e →
  world_now w < cache_expiry e →
  getRatings id user w =
    match user with
    | None => (Return (CachedText (cache_value e)), w)
    | Some u =>
        let w' := mkWorld (world_db w) (world_redis w) (world_now w)
                          (world_headers w) (S (world_statements w)) in
        match query_own_rating id u (world_db w) with
        | Return rating =>
            (Return (RatingsObject (cache_value e)
                       (match rating with
                        | Some r => RatingValue r
                        | None => RatingNull
                        end)), w')
        | Throw err => (Throw err, w')
        end
    end.
Proof.
  intros Hk Hlive. unfold getRatings, bind, redis_get. simpl.
  rewrite Hk. rewrite decide_True by done.
  destruct user as [u|]; [|done].
  unfold db_query. by destruct (query_own_rating id u (world_db w)).
Qed.

Lemma updateRatings_out_of_range {col : RatingColumn} id user r w :
  ¬ (r == 0)%Q → (10 < r ∨ r <= 0)%Q →
  updateRatings id user (Some r) w = (Throw BadRequestError, w).
Proof.
  intros Hnz Hout. unfold updateRatings, falsy_number.
  rewrite bool_decide_eq_false_2 by done. simpl.
  unfold bind. by rewrite decide_True.
Qed.

(** The world in which [getRatings] runs at the end of [updateRatings]. *)
Lemma updateRatings_upsert {col : RatingColumn} id user r w :
  (0 < r)%Q → (r <= 10)%Q →
  updateRatings id user (Some r) w =
    match upsert_rating id (user_id user) r (world_db w) with
    | Return (_, db') =>
        getRatings id (Some user)
          (mkWorld db' (delete (levelRatingCacheKey +:+ id) (world_redis w))
                   (world_now w) (world_headers w) (S (world_statements w)))
    | Throw e =>
        (Throw e,
         mkWorld (world_db w) (world_redis w) (world_now w) (world_headers w)
                 (S (world_statements w)))
    end.
Proof.
  intros Hpos Hle. unfold updateRatings, falsy_number.
  rewrite bool_decide_eq_false_2 by lra. simpl.
  unfold bind at 1. unfold bind at 1.
  rewrite decide_False by (intros [?|?]; lra).
  unfold db_execute.
  destruct (upsert_rating id (user_id user) r (world_db w)) as [[[] db']|e]; done.
Qed.

Lemma updateRatings_delete {col : RatingColumn} id user rating w :
  falsy_number rating = true →
  updateRatings id user rating w =
    match delete_rating id (user_id user) (world_db w) with
    | Return (affected, db') =>
        if decide (affected = 0)
        then (Throw NotFoundError,
              mkWorld db' (world_redis w) (world_now w) (world_headers w)
                      (S (world_statements w)))
        else getRatings id (Some user)
               (mkWorld db' (delete (levelRatingCacheKey +:+ id) (world_redis w))
                        (world_now w) (world_headers w) (S (world_statements w)))
    | Throw e =>
        (Throw e,
         mkWorld (world_db w) (world_redis w) (world_now w) (world_headers w)
                 (S (world_statements w)))
    end.
Proof.
  intros Hf. unfold updateRatings. rewrite Hf.
  unfold bind at 1. unfold bind at 1. unfold bind at 1. unfold db_execute.
  destruct (delete_rating id (user_id user) (world_db w)) as [[affected db']|e];
    [|done].
  by destruct (decide (affected = 0)).
Qed.

Lemma filter_neg_id {A} (P : A → Prop) `{!∀ x, Decision (P x)} (l : list A) :
  filter P l = [] → filter (λ x, ¬ P x) l = l.
Proof.
  induction l as [|a l IH]; [done|]. rewrite !filter_cons.
  destruct (decide (P a)) as [HP|HP]; [done|]. intros Hnil.
  rewrite decide_True by done. by rewrite IH.
Qed.

Lemma filter_none {A} (P : A → Prop) `{!∀ x, Decision (P x)} (l : list A) :
  (∀ x, x ∈ l → ¬ P x) → filter P l = [].
Proof.
  induction l as [|a l IH]; intros Hl; [done|].
  rewrite filter_cons_False by (apply Hl; left).
  apply IH. intros x Hx. apply Hl. by right.
Qed.

Lemma query_ratings_throw id user db e :
  query_ratings id user db = Throw e → e = DatabaseError.
Proof.
  unfold query_ratings.
  destruct (level_id_of_uid db id); destruct user as [u|];
    repeat case_match; congruence.
Qed.

Lemma query_own_rating_throw id u db e :
  query_own_rating id u db = Throw e → e = DatabaseError.
Proof. unfold query_own_rating. case_match; congruence. Qed.

Lemma getRatings_throw id user w e :
  (getRatings id user w).1 = Throw e → e = DatabaseError.
Proof.
  unfold getRatings, bind, redis_get, db_query. simpl.
  repeat case_match; simpl; try congruence; intros [= <-];
    eauto using query_ratings_throw, query_own_rating_throw.
Qed.

(** *** What the upsert leaves in the table *)

Lemma upsert_rating_rows {col : RatingColumn} id userId r db lvl db' :
  level_id_of_uid db id = SVal lvl →
  upsert_rating id userId r db = Return (tt, db') →
  mkRating lvl userId r ∈ level_ratings db' ∧
  (∀ x, x ∈ level_ratings db' →
        rating_levelId x = lvl → rating_userId x = userId → rating_value x = r) ∧
  (∀ x, ¬ (rating_levelId x = lvl ∧ rating_userId x = userId) →
        (x ∈ level_ratings db' ↔ x ∈ level_ratings db)).
Proof.
  intros Hlvl. unfold upsert_rating.
  destruct (negb _); [done|]. rewrite Hlvl. intros [= <-]. simpl.
  set (hit := λ x, rating_levelId x = lvl ∧ rating_userId x = userId).
  destruct (decide (Exists hit (level_ratings db))) as [Hex|Hnex].
  - split; [|split].
    + apply Exists_exists in Hex as (x & Hx & Hhit).
      apply list_elem_of_fmap. exists x. split; [|done].
      destruct (decide _) as [_|Hn]; [done|by destruct Hn].
    + intros x Hx Hl Hu. apply list_elem_of_fmap in Hx as (y & -> & Hy).
      destruct (decide _) as [_|Hn]; [done|]. by destruct Hn.
    + intros x Hx. rewrite list_elem_of_fmap. split.
      * intros (y & -> & Hy). destruct (decide _) as [Hh|Hh]; [|done].
        exfalso. by apply Hx.
      * intros Hin. exists x. split; [|done].
        destruct (decide _) as [Hh|_]; [|done]. by destruct Hx.
  - split; [|split].
    + apply elem_of_app. right. by left.
    + intros x Hx Hl Hu. apply elem_of_app in Hx as [Hx|Hx].
      * exfalso. apply Hnex, Exists_exists. by exists x.
      * apply list_elem_of_singleton in Hx. by subst x.
    + intros x Hx. rewrite elem_of_app, list_elem_of_singleton. split; [|by left].
      intros [?| ->]; [done|]. exfalso. by apply Hx.
Qed.

Lemma upsert_rating_null {col : RatingColumn} id userId r db :
  (∀ lvl, level_id_of_uid db id ≠ SVal lvl) →
  ∃ e, upsert_rating id userId r db = Throw e ∧ e ≠ BadRequestError.
Proof.
  intros H. unfold upsert_rating.
  destruct (negb _); [by eexists|].
  destruct (level_id_of_uid db id) as [|lvl|]; [by eexists| |by eexists].
  by destruct (H lvl).
Qed.

Lemma upsert_rating_throw {col : RatingColumn} id userId r db e :
  upsert_rating id userId r db = Throw e → e ≠ BadRequestError.
Proof. unfold upsert_rating. repeat case_match; congruence. Qed.

Lemma getRatings_db id user w : world_db (getRatings id user w).2 = world_db w.
Proof.
  unfold getRatings, bind, redis_get, db_query, redis_setex, ret. simpl.
  repeat case_match; simplify_eq; done.
Qed.

(** A whole rating from 1 to 10 passes the range check and is valid input
    for either kind of column. *)
Lemma upsert_rating_whole {col : RatingColumn} id userId z db :
  upsert_rating id userId (inject_Z z) db =
    match level_id_of_uid db id with
    | SMany => Throw DatabaseError
    | SNull => Throw NotFoundError
    | SVal lvl =>
        let hit r := rating_levelId r = lvl ∧ rating_userId r = userId in
        Return (tt, mkDatabase (users db) (levels db) (charts db) (records db)
          (if decide (Exists hit (level_ratings db))
           then (λ r, if decide (hit r) then mkRating lvl userId (inject_Z z) else r)
                  <$> level_ratings db
           else level_ratings db ++ [mkRating lvl userId (inject_Z z)])
          (level_downloads db))
    end.
Proof.
  unfold upsert_rating.
  assert (integer_text (inject_Z z) = true) as ->
    by (apply integer_text_spec; by exists z).
  by rewrite orb_true_r.
Qed.

(** C4 (amended). A nonzero rating submitted to updateRatings that is
    greater than 10 or not greater than 0 is rejected with BadRequestError,
    the world left as it was (no row inserted or updated), and a rating is
    stored only if it is greater than 0 and at most 10, which for a whole
    number is the range 1 to 10: a row that the call adds to the table is
    the row of the caller for the level and holds such a rating.
    Besides, BadRequestError is the answer to no other nonzero rating, and a
    whole rating from 1 to 10 is stored when the level exists, as the one
    rating of the user for the level, inserted or updated in place, all
    other rows kept. This holds whether the column of the ratings holds
    fractions or whole numbers only. *)
Theorem updateRatings_range_check {col : RatingColumn} id user r w :
  ¬ (r == 0)%Q →
  let run := updateRatings id user (Some r) w in
  ((10 < r ∨ r <= 0)%Q → run = (Throw BadRequestError, w)) ∧
  (run.1 = Throw BadRequestError → (10 < r ∨ r <= 0)%Q) ∧
  (∀ x, x ∈ level_ratings (world_db run.2) → x ∉ level_ratings (world_db w) →
     (0 < r ∧ r <= 10)%Q ∧
     level_id_of_uid (world_db w) id = SVal (rating_levelId x) ∧
     rating_userId x = user_id user ∧ rating_value x = r) ∧
  (∀ z lvl, r = inject_Z z → 1 ≤ z ≤ 10 →
     level_id_of_uid (world_db w) id = SVal lvl →
     mkRating lvl (user_id user) r ∈ level_ratings (world_db run.2) ∧
     (∀ x, x ∈ level_ratings (world_db run.2) →
           rating_levelId x = lvl → rating_userId x = user_id user →
           rating_value x = r) ∧
     (∀ x, ¬ (rating_levelId x = lvl ∧ rating_userId x = user_id user) →
           (x ∈ level_ratings (world_db run.2) ↔
            x ∈ level_ratings (world_db w)))).
Proof.
  intros Hnz run.
  assert ((10 < r ∨ r <= 0)%Q ∨ (0 < r ∧ r <= 10)%Q) as [Hout|[Hpos Hle]].
  { destruct (decide (10 < r ∨ r <= 0)%Q) as [?|Hin]; [by left|right].
    split; [apply Qnot_le_lt|apply Qnot_lt_le]; tauto. }
  { (* rejected: nothing has run *)
    pose proof (updateRatings_out_of_range id user r w Hnz Hout) as Hrun.
    fold run in Hrun. rewrite Hrun. simpl. split_and!; [done|done| |].
    - intros x Hx Hx'. done.
    - intros z lvl -> Hz _. exfalso.
      destruct Hout as [H|H]; [unfold Qlt in H|unfold Qle in H];
        simpl in H; lia. }
  pose proof (updateRatings_upsert id user r w Hpos Hle) as Hrun. fold run in Hrun.
  split; [intros [H|H]; lra|].
  destruct (upsert_rating id (user_id user) r (world_db w)) as [[[] db']|e] eqn:E.
  - assert (world_db run.2 = db') as Hdb by (rewrite Hrun; apply getRatings_db).
    assert (∃ lvl, level_id_of_uid (world_db w) id = SVal lvl) as [lvl0 Hlvl0].
    { unfold upsert_rating in E. destruct (negb _); [done|].
      destruct (level_id_of_uid (world_db w) id); [done|by eexists|done]. }
    pose proof (upsert_rating_rows id _ _ (world_db w) lvl0 db' Hlvl0 E)
      as (Hin & Hval & Hrest).
    split_and!.
    + rewrite Hrun. intros Hbad. apply getRatings_throw in Hbad. discriminate.
    + rewrite Hdb. intros x Hx Hnew.
      destruct (decide (rating_levelId x = lvl0 ∧ rating_userId x = user_id user))
        as [[Hl Hu]|Hother].
      * split; [done|]. rewrite Hl. split; [done|]. split; [done|]. by apply Hval.
      * exfalso. apply Hnew. by apply Hrest.
    + intros z lvl _ _ Hlvl. rewrite Hdb.
      assert (lvl = lvl0) as -> by congruence. done.
  - assert (world_db run.2 = world_db w) as Hdb by (by rewrite Hrun).
    split_and!.
    + rewrite Hrun. simpl. intros [= ->]. by apply upsert_rating_throw in E.
    + rewrite Hdb. intros x Hx Hnew. done.
    + intros z lvl -> _ Hlvl. rewrite upsert_rating_whole, Hlvl in E. discriminate.
Qed.

Lemma updateRatings_range_check_witness :
  @updateRatings integer_column "io.cytoid.glow" Sample.carol (Some 11%Q)
                 Sample.world
  = (Throw BadRequestError, Sample.world).
Proof.
  apply (updateRatings_range_check (col := integer_column)
           "io.cytoid.glow" Sample.carol 11%Q Sample.world).
  - vm_compute. discriminate.
  - left. vm_compute. reflexivity.
Defined.

(** C4 as stated fails: the rating 1/2 is nonzero and outside the range 1
    to 10, yet updateRatings does not reject it with BadRequestError, with
    either kind of column: the statement is sent. A column that holds
    fractions stores the row and the ratings of the level are returned; an
    integer column refuses the text of the number. *)
Lemma updateRatings_accepts_half :
  let run (col : RatingColumn) :=
    @updateRatings col "io.cytoid.glow" Sample.carol (Some (1 # 2)%Q)
                   Sample.world in
  (¬ (1 # 2 == 0)%Q ∧ ¬ (1 <= 1 # 2)%Q) ∧
  (run numeric_column).1 ≠ Throw BadRequestError ∧
  (run integer_column).1 ≠ Throw BadRequestError ∧
  (∃ resp, (run numeric_column).1 = Return resp) ∧
  level_ratings (world_db (run numeric_column).2)
  = Sample.ratings ++ [mkRating 10 3 (1 # 2)] ∧
  (run integer_column).1 = Throw DatabaseError.
Proof.
  intros run. split; [split; lra|].
  split; [vm_compute; discriminate|].
  split; [vm_compute; discriminate|].
  split; [vm_compute; eauto|].
  split; vm_compute; reflexivity.
Qed.

(** *** What the delete leaves in the table *)

Lemma delete_rating_ok id userId db :
  level_id_of_uid db id ≠ SMany →
  delete_rating id userId db =
    Return (Z.of_nat (length (filter
              (λ r, eq_scalar (rating_levelId r) (level_id_of_uid db id) = true ∧
                    rating_userId r = userId) (level_ratings db))),
            mkDatabase (users db) (levels db) (charts db) (records db)
              (filter (λ r, ¬ (eq_scalar (rating_levelId r) (level_id_of_uid db id) = true ∧
                               rating_userId r = userId)) (level_ratings db))
              (level_downloads db)).
Proof. intros H. unfold delete_rating. by destruct (level_id_of_uid db id). Qed.

Lemma query_ratings_after_delete id user db rows' :
  level_id_of_uid db id ≠ SMany →
  (∀ x, x ∈ rows' →
        ¬ (eq_scalar (rating_levelId x) (level_id_of_uid db id) = true ∧
           rating_userId x = user_id user)) →
  ∃ a, query_ratings id (Some user)
         (mkDatabase (users db) (levels db) (charts db) (records db) rows'
                     (level_downloads db)) = Return a.
Proof.
  intros Hlvl Hrows. unfold query_ratings.
  change (level_id_of_uid (mkDatabase _ _ _ _ _ _) id) with (level_id_of_uid db id).
  assert (∀ lvl, lvl = level_id_of_uid db id →
            ratings_by (user_id user)
              (ratings_of_level
                 (mkDatabase (users db) (levels db) (charts db) (records db)
                             rows' (level_downloads db)) lvl) = []) as Hnone.
  { intros lvl ->. apply filter_none. intros x Hx Hu.
    apply list_elem_of_filter in Hx as [Hl Hx]. by apply (Hrows x Hx). }
  destruct (level_id_of_uid db id) as [|lvl|]; [| |done];
    rewrite Hnone by done; by eexists.
Qed.

(** C9. Called with a missing or zero rating, updateRatings removes the
    rows of the calling user for the level and stores nothing: the table is
    left with exactly the other rows. When no row was removed, which
    includes the case of an existing level that the user never rated, it
    throws NotFoundError after that one statement, the tables and the cache
    as they were. *)
Theorem updateRatings_falsy_deletes {col : RatingColumn} id user rating w :
  rating = None ∨ (∃ r, rating = Some r ∧ (r == 0)%Q) →
  level_id_of_uid (world_db w) id ≠ SMany →
  let db := world_db w in
  let run := updateRatings id user rating w in
  let mine :=
    filter (λ x, eq_scalar (rating_levelId x) (level_id_of_uid db id) = true ∧
                 rating_userId x = user_id user) (level_ratings db) in
  (mine = [] →
     run = (Throw NotFoundError,
            mkWorld db (world_redis w) (world_now w) (world_headers w)
                    (S (world_statements w)))) ∧
  (mine ≠ [] →
     (∃ resp, run.1 = Return resp) ∧
     world_db run.2 =
       mkDatabase (users db) (levels db) (charts db) (records db)
         (filter (λ x, ¬ (eq_scalar (rating_levelId x) (level_id_of_uid db id) = true ∧
                          rating_userId x = user_id user)) (level_ratings db))
         (level_downloads db)) ∧
  (∀ x, x ∈ level_ratings (world_db run.2) ↔
        x ∈ level_ratings db ∧
        ¬ (eq_scalar (rating_levelId x) (level_id_of_uid db id) = true ∧
           rating_userId x = user_id user)).
Proof.
  intros Hfalsy Hlvl db run mine.
  assert (falsy_number rating = true) as Hf.
  { destruct Hfalsy as [->|(r & -> & Hr)]; [done|].
    simpl. by apply bool_decide_eq_true. }
  unfold run. rewrite (updateRatings_delete _ _ _ _ Hf).
  rewrite (delete_rating_ok _ _ _ Hlvl). fold db. fold mine.
  set (rest := filter _ (level_ratings db)).
  assert (Hrest : ∀ x, x ∈ rest ↔
            x ∈ level_ratings db ∧
            ¬ (eq_scalar (rating_levelId x) (level_id_of_uid db id) = true ∧
               rating_userId x = user_id user)).
  { intros x. unfold rest. rewrite list_elem_of_filter. tauto. }
  destruct (decide (Z.of_nat (length mine) = 0)) as [H0|H0].
  - assert (mine = []) as Hnil by (apply length_zero_iff_nil; lia).
    assert (rest = level_ratings db) as Hsame by (by apply filter_neg_id).
    split; [|split].
    + intros _. rewrite Hsame. by destruct db.
    + intros Hne. by destruct Hne.
    + simpl. exact Hrest.
  - assert (mine ≠ []) as Hne by (intros E; rewrite E in H0; done).
    split; [|split].
    + intros Hnil. by destruct Hne.
    + intros _. rewrite getRatings_db. split; [|done].
      destruct (query_ratings_after_delete id user db rest Hlvl) as [a Ha].
      { intros x Hx. by apply Hrest in Hx as [_ ?]. }
      rewrite getRatings_miss.
      2:{ simpl. intros e He. by rewrite lookup_delete_eq in He. }
      simpl. rewrite Ha. simpl. by eexists.
    + rewrite getRatings_db. simpl. exact Hrest.
Qed.

Lemma updateRatings_falsy_deletes_witness :
  ∃ resp, (@updateRatings integer_column "io.cytoid.glow" Sample.alice None
                          Sample.world).1
          = Return resp.
Proof.
  apply (updateRatings_falsy_deletes (col := integer_column)
           "io.cytoid.glow" Sample.alice None Sample.world).
  - by left.
  - vm_compute. discriminate.
  - vm_compute. discriminate.
Defined.

(** *** The cache of rating aggregates *)

Lemma updateRatings_success {col : RatingColumn} id user rating w resp w' :
  updateRatings id user rating w = (Return resp, w') →
  ∃ db', getRatings id (Some user)
           (mkWorld db' (delete (levelRatingCacheKey +:+ id) (world_redis w))
                    (world_now w) (world_headers w) (S (world_statements w)))
         = (Return resp, w').
Proof.
  destruct (falsy_number rating) eqn:Hf.
  - rewrite (updateRatings_delete _ _ _ _ Hf).
    destruct (delete_rating id (user_id user) (world_db w)) as [[n db']|e];
      [|discriminate].
    destruct (decide (n = 0)); [discriminate|]. eauto.
  - destruct rating as [r|]; [|done]. simpl in Hf.
    apply bool_decide_eq_false in Hf.
    destruct (decide (10 < r ∨ r <= 0)%Q) as [Hout|Hin].
    { rewrite (updateRatings_out_of_range _ _ _ _ Hf Hout). discriminate. }
    assert (0 < r)%Q as Hpos by (apply Qnot_le_lt; tauto).
    assert (r <= 10)%Q as Hle by (apply Qnot_lt_le; tauto).
    rewrite (updateRatings_upsert _ _ _ _ Hpos Hle).
    destruct (upsert_rating id (user_id user) r (world_db w)) as [[[] db']|e];
      [|discriminate]. eauto.
Qed.

(** C7. The cache of level ratings is a TTL cache. On a miss getRatings
    computes the aggregate and stores it under the level's key, to expire
    3600 seconds later. While the entry is there and that time is not
    reached, a request is served the stored aggregate, whatever the tables
    hold by then; once the time is reached the aggregate is computed again.
    A successful updateRatings deletes the key before it reads the ratings
    back: what it returns is computed from the tables it leaves, and the
    entry it leaves holds that aggregate. *)
Theorem ratings_cache_ttl {col : RatingColumn} id w :
  let key := levelRatingCacheKey +:+ id in
  (∀ user a,
     (∀ e, world_redis w !! key = Some e → cache_expiry e ≤ world_now w) →
     query_ratings id user (world_db w) = Return a →
     let run := getRatings id user w in
     (∃ rating, run.1 = Return (RatingsObject a.1 rating)) ∧
     world_redis run.2
       = <[key := mkCacheEntry a.1 (world_now w + 3600)]> (world_redis w) ∧
     (∀ w2, world_redis w2 = world_redis run.2 →
            world_now w2 < world_now w + 3600 →
            getRatings id None w2 = (Return (CachedText a.1), w2) ∧
            ∀ u, world_redis (getRatings id (Some u) w2).2 = world_redis w2 ∧
                 ((getRatings id (Some u) w2).1 = Throw DatabaseError ∨
                  ∃ r, (getRatings id (Some u) w2).1
                       = Return (RatingsObject a.1 r))) ∧
     (∀ w2 a2, world_redis w2 = world_redis run.2 →
               world_now w + 3600 ≤ world_now w2 →
               query_ratings id None (world_db w2) = Return a2 →
               (getRatings id None w2).1
                 = Return (RatingsObject a2.1 RatingAbsent))) ∧
  (∀ user rating resp w',
     updateRatings id user rating w = (Return resp, w') →
     ∃ a r, query_ratings id (Some user) (world_db w') = Return a ∧
            resp = RatingsObject a.1 r ∧
            world_redis w'
              = <[key := mkCacheEntry a.1 (world_now w + 3600)]>
                  (delete key (world_redis w))).
Proof.
  intros key. split.
  - intros user a Hmiss Ha run.
    assert (run = (Return (RatingsObject a.1
                     (if decide (own_rating a.2 = 0) then RatingAbsent
                      else RatingValue (inject_Z (own_rating a.2)))),
                   mkWorld (world_db w)
                     (<[key := mkCacheEntry a.1 (world_now w + 3600)]> (world_redis w))
                     (world_now w) (world_headers w) (S (world_statements w))))
      as Hrun.
    { unfold run. rewrite (getRatings_miss id user w Hmiss). by rewrite Ha. }
    rewrite Hrun. simpl.
    split; [by eexists|]. split; [done|]. split.
    + intros w2 Hredis Hnow.
      assert (world_redis w2 !! key
              = Some (mkCacheEntry a.1 (world_now w + 3600))) as Hk.
      { rewrite Hredis. apply lookup_insert_eq. }
      split.
      * by rewrite (getRatings_hit id None w2 _ Hk Hnow).
      * intros u. rewrite (getRatings_hit id (Some u) w2 _ Hk Hnow). simpl.
        destruct (query_own_rating id u (world_db w2)) as [r|e] eqn:E; simpl.
        -- split; [done|]. right. by eexists.
        -- split; [done|]. left. by rewrite (query_own_rating_throw _ _ _ _ E).
    + intros w2 a2 Hredis Hnow Ha2.
      rewrite getRatings_miss.
      2:{ rewrite Hredis. fold key. intros e He.
          rewrite lookup_insert_eq in He. injection He as <-. simpl. lia. }
      rewrite Ha2. simpl.
      assert (own_rating a2.2 = 0) as ->; [|done].
      unfold query_ratings in Ha2.
      destruct (level_id_of_uid (world_db w2) id); by simplify_eq.
  - intros user rating resp w' Hrun.
    apply updateRatings_success in Hrun as [db' Hget].
    rewrite getRatings_miss in Hget.
    2:{ simpl. intros e He. by rewrite lookup_delete_eq in He. }
    simpl in Hget.
    destruct (query_ratings id (Some user) db') as [a|e] eqn:Ha; [|discriminate].
    injection Hget as <- <-. simpl. rewrite Ha. by eexists _, _.
Qed.

(** The sample level: a first request fills the cache, a request ten
    minutes later is served from it although a rating was added behind its
    back, and updateRatings returns the new aggregate. *)
Example ratings_cache_sample :
  let w1 := (getRatings "io.cytoid.glow" None Sample.world).2 in
  let changed :=
    mkDatabase (users Sample.db) (levels Sample.db) (charts Sample.db)
               (records Sample.db) (Sample.ratings ++ [mkRating 10 3 3])
               (level_downloads Sample.db) in
  let w2 := mkWorld changed (world_redis w1) 600 ∅ 0 in
  (getRatings "io.cytoid.glow" None Sample.world).1
    = Return (RatingsObject (aggregate_of Sample.ratings) RatingAbsent) ∧
  (getRatings "io.cytoid.glow" None w2).1
    = Return (CachedText (aggregate_of Sample.ratings)) ∧
  (@updateRatings integer_column "io.cytoid.glow" Sample.bob (Some 4%Q) w2).1
    = Return (RatingsObject
                (aggregate_of [mkRating 10 1 8; mkRating 10 2 4; mkRating 10 3 3])
                (RatingValue 4)).
Proof. vm_compute. done. Qed.

(** ** The player's rating *)

Section personalRating_props.
Context (sqrt log : Q → Q).

Lemma performance_rating_cases a :
  ((a < 0.7)%Q →
     performance_rating sqrt log a = (sqrt (a / 0.7) * 0.5)%Q) ∧
  ((0.7 <= a)%Q → (a < 0.97)%Q →
     performance_rating sqrt log a = (0.7 - 0.2 * log ((1.0 - a) / 0.03))%Q) ∧
  ((0.97 <= a)%Q → (a < 0.997)%Q →
     performance_rating sqrt log a = (0.7 - 0.16 * log ((1.0 - a) / 0.03))%Q) ∧
  ((0.997 <= a)%Q → (a < 0.9997)%Q →
     performance_rating sqrt log a = (0.78 - 0.08 * log ((1.0 - a) / 0.03))%Q) ∧
  ((0.9997 <= a)%Q →
     performance_rating sqrt log a = (a * 200.0 - 199.0)%Q).
Proof.
  unfold performance_rating. repeat split; intros;
    repeat (case_decide; [try done; exfalso; lra|]); try done; exfalso; lra.
Qed.

(** With every record pointing at its one chart, the join has one row per
    record of the user. *)
Lemma plays_with_chart_records (chart_of : PlayRecord → Chart) uuid db :
  (∀ r, r ∈ records db → rec_ownerId r = uuid →
        filter (λ c, rec_chartId r = chart_id c) (charts db) = [chart_of r]) →
  plays_with_chart uuid db =
    (λ r, (r, chart_of r)) <$> filter (λ r, rec_ownerId r = uuid) (records db).
Proof.
  unfold plays_with_chart. induction (records db) as [|r rs IH]; intros H; [done|].
  rewrite filter_cons. destruct (decide (rec_ownerId r = uuid)) as [Ho|Ho].
  - simpl. rewrite (H r) by (done || left). simpl. f_equal.
    apply IH. intros x Hx. apply H. by right.
  - apply IH. intros x Hx. apply H. by right.
Qed.

End personalRating_props.

(** C5. With every record of the user pointing at its one chart,
    personalRating returns the average, over all records of the user, of
    performance_rating * chart difficulty (null when the user has no
    record), and performance_rating is the piecewise function of the
    accuracy a that the query spells out: sqrt(a / 0.7) * 0.5 below 0.7, then
    the three logarithmic pieces on [0.7, 0.97), [0.97, 0.997) and
    [0.997, 0.9997), and a * 200 - 199 from 0.9997 on. *)
Theorem personalRating_is_average (sqrt log : Q → Q)
    (chart_of : PlayRecord → Chart) uuid w :
  let db := world_db w in
  (∀ r, r ∈ records db → rec_ownerId r = uuid →
        filter (λ c, rec_chartId r = chart_id c) (charts db) = [chart_of r]) →
  let mine := filter (λ r, rec_ownerId r = uuid) (records db) in
  let value r :=
    (performance_rating sqrt log (rec_accuracy r)
     * chart_difficulty (chart_of r))%Q in
  (personalRating sqrt log uuid w).1 =
    Return (match mine with
            | [] => None
            | _ :: _ => Some (sql_sum (value <$> mine)
                              / inject_Z (Z.of_nat (length mine)))%Q
            end) ∧
  ∀ a,
    ((a < 0.7)%Q →
       performance_rating sqrt log a = (sqrt (a / 0.7) * 0.5)%Q) ∧
    ((0.7 <= a)%Q → (a < 0.97)%Q →
       performance_rating sqrt log a = (0.7 - 0.2 * log ((1.0 - a) / 0.03))%Q) ∧
    ((0.97 <= a)%Q → (a < 0.997)%Q →
       performance_rating sqrt log a = (0.7 - 0.16 * log ((1.0 - a) / 0.03))%Q) ∧
    ((0.997 <= a)%Q → (a < 0.9997)%Q →
       performance_rating sqrt log a = (0.78 - 0.08 * log ((1.0 - a) / 0.03))%Q) ∧
    ((0.9997 <= a)%Q →
       performance_rating sqrt log a = (a * 200.0 - 199.0)%Q).
Proof.
  intros db Hchart mine value. split; [|apply performance_rating_cases].
  unfold personalRating, db_query, personalRating_query. simpl. f_equal.
  fold db. rewrite (plays_with_chart_records chart_of uuid db Hchart).
  fold mine. rewrite <- list_fmap_compose.
  change (sql_avg (value <$> mine) = match mine with
            | [] => None
            | _ :: _ => Some (sql_sum (value <$> mine)
                              / inject_Z (Z.of_nat (length mine)))%Q
            end).
  destruct mine as [|r rs]; [done|].
  simpl. by rewrite length_fmap.
Qed.

Lemma personalRating_is_average_witness :
  match (personalRating (λ x, x) (λ x, x) 1 Sample.world).1 with
  | Return (Some _) => True
  | _ => False
  end.
Proof.
  destruct (personalRating_is_average (λ x, x) (λ x, x) Sample.chart_of 1
                                      Sample.world) as [H _].
  - intros r Hr _. simpl in Hr. unfold Sample.plays in Hr.
    repeat (apply elem_of_cons in Hr as [->|Hr]; [vm_compute; reflexivity|]).
    by apply elem_of_nil in Hr.
  - rewrite H. vm_compute. exact I.
Defined.

(** ** The player's experience *)

Lemma sql_sum_app l1 l2 : (sql_sum (l1 ++ l2) == sql_sum l1 + sql_sum l2)%Q.
Proof.
  induction l1 as [|x l1 IH]; simpl; [ring|]. rewrite IH. ring.
Qed.

Lemma to_number_sum l : (to_number (sql_sum_opt l) == sql_sum l)%Q.
Proof. destruct l; reflexivity. Qed.

Lemma sql_sum_cons x l : sql_sum (x :: l) = (x + sql_sum l)%Q.
Proof. reflexivity. Qed.

Lemma sum_pairs_left {A B} (f : A → Q) (s : A) (cs : list B) :
  (sql_sum ((λ v, f v.1) <$> (c ← cs; [(s, c)]))
   == inject_Z (Z.of_nat (length cs)) * f s)%Q.
Proof.
  induction cs as [|c cs IH]; [simpl; ring|].
  change (c0 ← c :: cs; [(s, c0)]) with ((s, c) :: (c0 ← cs; [(s, c0)])).
  rewrite fmap_cons, sql_sum_cons, IH. simpl fst.
  rewrite length_cons, Nat2Z.inj_succ, <- Z.add_1_r, inject_Z_plus. ring.
Qed.

Lemma sum_pairs_right {A} (s : A) (cs : list Q) :
  (sql_sum ((λ v, v.2) <$> (c ← cs; [(s, c)])) == sql_sum cs)%Q.
Proof.
  induction cs as [|c cs IH]; [reflexivity|].
  change (c0 ← c :: cs; [(s, c0)]) with ((s, c) :: (c0 ← cs; [(s, c0)])).
  rewrite fmap_cons, !sql_sum_cons, IH. reflexivity.
Qed.

(** Sums over [FROM scores, chart_scores]: each side is counted once per
    row of the other. *)
Lemma sum_cross_left {A B} (f : A → Q) (ss : list A) (cs : list B) :
  (sql_sum ((λ v, f v.1) <$> (s ← ss; c ← cs; [(s, c)]))
   == inject_Z (Z.of_nat (length cs)) * sql_sum (f <$> ss))%Q.
Proof.
  induction ss as [|s ss IH]; [simpl; ring|].
  change (s0 ← s :: ss; c ← cs; [(s0, c)])
    with ((c ← cs; [(s, c)]) ++ (s0 ← ss; c ← cs; [(s0, c)])).
  rewrite fmap_app, sql_sum_app, IH, sum_pairs_left, fmap_cons, sql_sum_cons.
  ring.
Qed.

Lemma sum_cross_right {A} (ss : list A) (cs : list Q) :
  (sql_sum ((λ v, v.2) <$> (s ← ss; c ← cs; [(s, c)]))
   == inject_Z (Z.of_nat (length ss)) * sql_sum cs)%Q.
Proof.
  induction ss as [|s ss IH]; [simpl; ring|].
  change (s0 ← s :: ss; c ← cs; [(s0, c)])
    with ((c ← cs; [(s, c)]) ++ (s0 ← ss; c ← cs; [(s0, c)])).
  rewrite fmap_app, sql_sum_app, IH, sum_pairs_right.
  rewrite length_cons, Nat2Z.inj_succ, <- Z.add_1_r, inject_Z_plus. ring.
Qed.

(** What the query of [exp] sums: the basic sum once per level played, the
    per-level maxima once per record. *)
Lemma exp_query_cross_join (sqrt : Q → Q) uuid db :
  let ss := scores uuid db in
  let cs := chart_scores ss in
  (to_number (exp_query sqrt uuid db).1
   == inject_Z (Z.of_nat (length cs)) * sql_sum (basic_score sqrt <$> ss))%Q ∧
  (to_number (exp_query sqrt uuid db).2
   == inject_Z (Z.of_nat (length ss)) * sql_sum cs)%Q.
Proof.
  intros ss cs. unfold exp_query. fold ss. fold cs. simpl.
  rewrite !to_number_sum. split.
  - apply (sum_cross_left (basic_score sqrt)).
  - apply sum_cross_right.
Qed.

(** C6 (the code departs from it). The player with id 4 of the sample has
    two records with the full score, one on each of two levels, whose level
    scores are 1500 and 525. exp does compute totalExp, currentLevel and
    nextLevelExp by the formulas, but its two sums run over the product of
    [scores] and [chart_scores]: basicExp is twice the sum over the records,
    and levelExp twice the sum of the per-level maxima, 4050 instead of
    2025. *)
Theorem exp_sample_cross_join (sqrt : Q → Q) :
  let ss := scores 4 Sample.db in
  let e := exp_result sqrt (exp_query sqrt 4 Sample.db) in
  (exp sqrt 4 Sample.world).1 = Return e ∧
  length ss = 2%nat ∧
  Forall2 Qeq (chart_scores ss) [1500%Q; 525%Q] ∧
  (to_number (basicExp e) == 2 * sql_sum (basic_score sqrt <$> ss))%Q ∧
  (to_number (levelExp e) == 2 * (1500 + 525))%Q ∧
  ¬ (to_number (levelExp e) == 1500 + 525)%Q ∧
  totalExp e = (to_number (basicExp e) + to_number (levelExp e))%Q ∧
  currentLevel e = (1 / 30 * (sqrt (6 * totalExp e + 400) + 20) + 1)%Q ∧
  nextLevelExp e
    = (150 * (currentLevel e * currentLevel e) - 200 * currentLevel e)%Q.
Proof.
  intros ss e.
  assert (length ss = 2%nat) as Hlen by (vm_compute; reflexivity).
  assert (Forall2 Qeq (chart_scores ss) [1500%Q; 525%Q]) as Hcs.
  { vm_compute. repeat constructor. }
  assert (sql_sum (chart_scores ss) == 1500 + 525)%Q as Hsum.
  { vm_compute. reflexivity. }
  assert (length (chart_scores ss) = 2%nat) as Hlev by (vm_compute; reflexivity).
  destruct (exp_query_cross_join sqrt 4 Sample.db) as [Hb Hl].
  fold ss in Hb, Hl. rewrite Hlev in Hb. rewrite Hlen, Hsum in Hl.
  change (to_number (exp_query sqrt 4 Sample.db).1)
    with (to_number (basicExp e)) in Hb.
  change (to_number (exp_query sqrt 4 Sample.db).2)
    with (to_number (levelExp e)) in Hl.
  split; [reflexivity|]. split; [exact Hlen|]. split; [exact Hcs|].
  split; [exact Hb|]. split; [exact Hl|].
  split; [|repeat split].
  intros H. rewrite Hl in H. revert H. vm_compute. discriminate.
Qed.

(** * Further properties of the controllers *)

(** ** Ranks and pages of the leaderboard *)

Lemma leaderboard_sorted db levelUid chartType lb :
  queryLeaderboard db levelUid chartType = Return lb →
  StronglySorted (λ a b, score_date_le (entry_record a) (entry_record b)) lb.
Proof.
  intros Hq. destruct (queryLeaderboard_records _ _ _ _ Hq) as [_ Hrec].
  assert (StronglySorted score_date_le (entry_record <$> lb)) as Hs.
  { rewrite Hrec. apply StronglySorted_merge_sort; apply _. }
  clear -Hs. induction lb as [|a l IH]; [constructor|].
  rewrite fmap_cons in Hs. apply StronglySorted_inv in Hs as [Hs Ha].
  constructor; [by apply IH|]. by rewrite Forall_fmap in Ha.
Qed.

Lemma leaderboard_rank_count db levelUid chartType lb a :
  queryLeaderboard db levelUid chartType = Return lb → a ∈ lb →
  entry_rank a =
    1 + Z.of_nat (length (filter
          (λ b, score_date_before (entry_record b) (entry_record a) = true) lb)).
Proof.
  intros Hq Ha. destruct (queryLeaderboard_records _ _ _ _ Hq) as [_ Hrec].
  destruct (queryLeaderboard_entry _ _ _ _ a Hq Ha) as [_ ->].
  unfold sql_rank.
  rewrite <- (merge_sort_Permutation score_date_le (best_records _ _)), <- Hrec.
  rewrite <- (filter_length_fmap entry_record
                (λ y, score_date_before y (entry_record a) = true)).
  done.
Qed.

Lemma score_date_le_not_before a b :
  score_date_le a b → score_date_before b a = false.
Proof.
  intros H. destruct (score_date_before b a) eqn:E; [|done].
  apply score_date_before_spec in E. unfold score_date_le in H. lia.
Qed.

(** X1. Ranks start at 1 and never run ahead of the rows: the row at
    position [i] (from 0) of a leaderboard has a rank between 1 and [i + 1],
    so the first row has rank 1 and no rank exceeds the number of rows. *)
Theorem leaderboard_rank_bounds db levelUid chartType lb i a :
  queryLeaderboard db levelUid chartType = Return lb →
  lb !! i = Some a →
  1 ≤ entry_rank a ∧ entry_rank a ≤ Z.of_nat i + 1 ∧
  entry_rank a ≤ Z.of_nat (length lb).
Proof.
  intros Hq Hi.
  assert (a ∈ lb) as Ha by (apply list_elem_of_lookup; eauto).
  rewrite (leaderboard_rank_count _ _ _ _ _ Hq Ha).
  pose proof (leaderboard_sorted _ _ _ _ Hq) as Hs.
  pose proof (lookup_lt_Some _ _ _ Hi) as Hlen.
  set (P := λ b, score_date_before (entry_record b) (entry_record a) = true).
  assert (length (filter P lb) ≤ i)%nat as Hcount; [|lia].
  rewrite <- (take_drop_middle lb i a Hi) in Hs |- *.
  apply StronglySorted_app_1_r in Hs.
  apply StronglySorted_inv in Hs as [_ Hafter]. rewrite Forall_forall in Hafter.
  rewrite filter_app, length_app.
  rewrite (filter_none P (a :: drop (S i) lb)).
  2:{ intros x Hx. unfold P. apply elem_of_cons in Hx as [->|Hx].
      - by rewrite score_date_before_irrefl.
      - rewrite (score_date_le_not_before _ _ (Hafter x Hx)). done. }
  pose proof (length_filter P (take i lb)) as Hf.
  rewrite length_take in Hf. simpl. lia.
Qed.

Lemma leaderboard_rank_bounds_witness :
  queryLeaderboard Sample.db "io.cytoid.glow" "hard" = Return SampleBoard.rows ∧
  1 ≤ 2 ∧ 2 ≤ Z.of_nat 1 + 1 ∧ 2 ≤ Z.of_nat (length SampleBoard.rows).
Proof.
  assert (queryLeaderboard Sample.db "io.cytoid.glow" "hard"
          = Return SampleBoard.rows) as H by (vm_compute; reflexivity).
  split; [exact H|].
  apply (leaderboard_rank_bounds Sample.db "io.cytoid.glow" "hard"
           SampleBoard.rows 1
           (mkEntry (mkPlayRecord 2 100 1 950000 0.95 60 true)
                    (Some Sample.alice) 2) H).
  vm_compute. reflexivity.
Defined.

Lemma leaderboard_length db levelUid chartType lb :
  queryLeaderboard db levelUid chartType = Return lb →
  length lb =
    length (best_records (chart_id_of db levelUid chartType) (records db)).
Proof.
  intros Hq. destruct (queryLeaderboard_records _ _ _ _ Hq) as [_ Hrec].
  rewrite <- (length_fmap entry_record lb), Hrec.
  by rewrite merge_sort_Permutation.
Qed.

Lemma best_records_owners c rs :
  rec_ownerId <$> best_records c rs ≡ₚ
  remove_dups (rec_ownerId <$> filter (ranked_on_chart c) rs).
Proof.
  apply NoDup_Permutation.
  - apply best_records_NoDup.
  - apply NoDup_remove_dups.
  - intros o. rewrite elem_of_remove_dups, !list_elem_of_fmap. split.
    + intros (r & -> & Hr). exists r. split; [done|].
      apply best_records_elem in Hr as [??]. by apply list_elem_of_filter.
    + intros (r & -> & Hr). apply list_elem_of_filter in Hr as [Hc Hr].
      destruct (best_records_complete c rs r Hr Hc) as (e & He & Hk). eauto.
Qed.


(** X2. The number that the paged branch of getChartRanking counts for the
    X-Total-Entries header, the distinct owners of ranked records of the
    chart, is the number of rows of the chart's leaderboard. *)
Theorem leaderboard_total_entries db levelUid chartType lb :
  queryLeaderboard db levelUid chartType = Return lb →
  count_ranked_owners db levelUid chartType = Return (Z.of_nat (length lb)).
Proof.
  intros Hq. rewrite (leaderboard_length _ _ _ _ Hq).
  pose proof (queryLeaderboard_chart _ _ _ _ Hq) as Hc.
  unfold count_ranked_owners.
  destruct (chart_id_of db levelUid chartType) as [|c|]; [| |done];
    by rewrite <- best_records_owners, length_fmap.
Qed.

Lemma leaderboard_total_entries_witness :
  queryLeaderboard Sample.db "io.cytoid.glow" "hard" = Return SampleBoard.rows ∧
  count_ranked_owners Sample.db "io.cytoid.glow" "hard"
  = Return (Z.of_nat (length SampleBoard.rows)).
Proof.
  assert (queryLeaderboard Sample.db "io.cytoid.glow" "hard"
          = Return SampleBoard.rows) as H by (vm_compute; reflexivity).
  split; [exact H|].
  exact (leaderboard_total_entries Sample.db "io.cytoid.glow" "hard"
           SampleBoard.rows H).
Defined.

Lemma count_charts_filter db id chartType :
  level_id_of_uid db id ≠ SMany →
  count_charts db id chartType =
    Return (Z.of_nat (length
      (filter (λ c, eq_scalar (chart_levelId c) (level_id_of_uid db id) = true
                    ∧ chart_type c = chartType) (charts db)))) ∧
  chart_id_of db id chartType =
    scalar_subquery (chart_id <$>
      filter (λ c, eq_scalar (chart_levelId c) (level_id_of_uid db id) = true
                   ∧ chart_type c = chartType) (charts db)).
Proof.
  intros Hl. unfold count_charts, chart_id_of.
  assert (filter (λ c, chart_type c = chartType ∧
                       eq_scalar (chart_levelId c) (level_id_of_uid db id) = true)
                 (charts db)
          = filter (λ c, eq_scalar (chart_levelId c) (level_id_of_uid db id) = true
                         ∧ chart_type c = chartType) (charts db)) as E.
  { apply list_filter_iff. intros c. tauto. }
  destruct (level_id_of_uid db id) eqn:El; [| |done]; by rewrite E.
Qed.


Lemma count_charts_null db id chartType :
  chart_id_of db id chartType = SNull → count_charts db id chartType = Return 0.
Proof.
  intros Hc.
  assert (level_id_of_uid db id ≠ SMany) as Hl
    by (apply (chart_id_of_level db id chartType); congruence).
  destruct (count_charts_filter db id chartType Hl) as [-> E].
  rewrite Hc in E.
  destruct (filter _ (charts db)) as [|x [|y l]]; [done|done|done].
Qed.

Lemma count_charts_zero db id chartType :
  count_charts db id chartType = Return 0 → chart_id_of db id chartType = SNull.
Proof.
  intros Hc.
  assert (level_id_of_uid db id ≠ SMany) as Hl.
  { intros E. unfold count_charts in Hc. by rewrite E in Hc. }
  destruct (count_charts_filter db id chartType Hl) as [E ->].
  rewrite E in Hc. injection Hc as Hc.
  destruct (filter _ (charts db)) as [|x l]; [done|simpl in Hc; lia].
Qed.

Lemma count_charts_nonzero db id chartType n :
  count_charts db id chartType = Return n → n ≠ 0 →
  chart_id_of db id chartType ≠ SNull.
Proof.
  intros Hc Hn E. rewrite (count_charts_null _ _ _ E) in Hc. congruence.
Qed.

Lemma leaderboard_nonempty_chart db id chartType lb :
  queryLeaderboard db id chartType = Return lb → lb ≠ [] →
  ∃ c, chart_id_of db id chartType = SVal c.
Proof.
  intros Hq Hne. pose proof (leaderboard_length _ _ _ _ Hq) as Hlen.
  destruct (chart_id_of db id chartType) as [|c|] eqn:E.
  - destruct (best_records SNull (records db)) as [|r l] eqn:Eb.
    + destruct lb; [done|simpl in Hlen; lia].
    + assert (r ∈ best_records SNull (records db)) as Hr by (rewrite Eb; left).
      apply best_records_elem in Hr as [_ [Hr _]]. done.
  - eauto.
  - by apply queryLeaderboard_chart in Hq.
Qed.









(** ** When getChartRanking answers NotFoundError *)

Lemma queryLeaderboard_throw db id chartType e :
  queryLeaderboard db id chartType = Throw e → e = DatabaseError.
Proof.
  unfold queryLeaderboard. destruct (chart_id_of db id chartType); congruence.
Qed.

Lemma ranking_around_inv db id chartType user userLimit es :
  ranking_around db id chartType user userLimit = Return es →
  ∃ lb, queryLeaderboard db id chartType = Return lb ∧ ∀ e, e ∈ es → e ∈ lb.
Proof.
  unfold ranking_around. destruct (integer_text userLimit); [|done].
  destruct (queryLeaderboard db id chartType) as [lb|e] eqn:Hq; [|done].
  intros H. exists lb. split; [done|]. simpl in H.
  destruct (rank_user_id db user) as [|u|]; [| |done];
    (destruct (rankQuery lb _) as [|rk|]; [| |done]); injection H as <-;
    intros e He; try (by apply elem_of_nil in He);
    by apply list_elem_of_filter in He as [_ ?].
Qed.

Lemma ranking_around_throw db id chartType user userLimit e :
  ranking_around db id chartType user userLimit = Throw e → e = DatabaseError.
Proof.
  unfold ranking_around. destruct (integer_text userLimit); [|congruence].
  destruct (queryLeaderboard db id chartType) as [lb|e'] eqn:Hq; simpl.
  - destruct (rank_user_id db user) as [|u|]; [| |congruence];
      (destruct (rankQuery lb _) as [|rk|]; congruence).
  - apply queryLeaderboard_throw in Hq. congruence.
Qed.

Lemma limit_offset_inv {A} limit offset (l es : list A) :
  limit_offset limit offset l = Return es → ∀ e, e ∈ es → e ∈ l.
Proof.
  unfold limit_offset. destruct (decide (_ ∧ _)); [|done]. intros [= <-] e He.
  apply (subseteq_drop (row_count offset) l).
  destruct (decide (limit == 0)%Q); [done|].
  by apply (subseteq_take (row_count limit)).
Qed.

Lemma limit_offset_throw {A} limit offset (l : list A) e :
  limit_offset limit offset l = Throw e → e = DatabaseError.
Proof. unfold limit_offset. destruct (decide (_ ∧ _)); congruence. Qed.

(** The existence check that ends getChartRanking, after a query [m] that
    reads the leaderboard. *)
Lemma getChartRanking_check (m : M (list LeaderboardEntry)) id chartType w :
  (∀ es w', m w = (Return es, w') →
     world_db w' = world_db w ∧
     ∃ lb, queryLeaderboard (world_db w) id chartType = Return lb ∧
           ∀ e, e ∈ es → e ∈ lb) →
  (∀ e w', m w = (Throw e, w') → e = DatabaseError) →
  let out :=
    bind m (λ entities,
      match entities with
      | [] =>
          bind (db_query (λ db, count_charts db id chartType))
               (λ count, if decide (count = 0) then throw NotFoundError
                         else ret entities)
      | _ :: _ => ret entities
      end) w in
  (out.1 = Throw NotFoundError → chart_id_of (world_db w) id chartType = SNull) ∧
  (∀ entries, out.1 = Return entries →
     ∃ c, chart_id_of (world_db w) id chartType = SVal c).
Proof.
  intros Hret Hthrow out. unfold out, bind.
  destruct (m w) as [[es|e] w'] eqn:Hm.
  - destruct (Hret es w' eq_refl) as (Hdb & lb & Hlb & Hsub).
    destruct es as [|x es].
    + unfold db_query. rewrite Hdb.
      destruct (count_charts (world_db w) id chartType) as [n|e] eqn:Hn.
      * destruct (decide (n = 0)) as [->|Hn0]; simpl.
        -- split; [|done]. intros _. by apply count_charts_zero.
        -- split; [done|]. intros _ _.
           pose proof (count_charts_nonzero _ _ _ _ Hn Hn0).
           pose proof (queryLeaderboard_chart _ _ _ _ Hlb).
           destruct (chart_id_of (world_db w) id chartType); [done|eauto|done].
      * simpl. split; [|done]. intros [= ->].
        unfold count_charts in Hn.
        destruct (level_id_of_uid (world_db w) id); done.
    + simpl. split; [done|]. intros _ _.
      apply (leaderboard_nonempty_chart _ _ _ lb Hlb).
      intros ->. specialize (Hsub x ltac:(left)). by apply elem_of_nil in Hsub.
  - simpl. split; [|done]. intros [= ->]. by specialize (Hthrow _ _ eq_refl).
Qed.

(** X5. getChartRanking answers NotFoundError only when the level has no
    chart of that type (the level itself may be missing), and it returns
    entries, an empty list included, only for a chart that exists: a request
    for a missing chart always ends in an error. This holds with and without
    a user. *)
Theorem getChartRanking_not_found w id chartType limit page user userLimit :
  let out := getChartRanking id chartType limit page user userLimit w in
  (out.1 = Throw NotFoundError → chart_id_of (world_db w) id chartType = SNull) ∧
  (∀ entries, out.1 = Return entries →
     ∃ c, chart_id_of (world_db w) id chartType = SVal c).
Proof.
  unfold getChartRanking. cbv zeta.
  apply getChartRanking_check.
  - intros es w'. destruct (truthy_string user) as [u|].
    + unfold db_query. intros [= Hra <-]. split; [done|].
      by apply ranking_around_inv in Hra.
    + unfold bind, db_query, set_header.
      destruct (count_ranked_owners (world_db w) id chartType) as [n|e]; [|done].
      cbn [world_db].
      destruct (queryLeaderboard (world_db w) id chartType) as [lb|e] eqn:Hq;
        [|done].
      intros [= Hlo <-]. split; [done|]. exists lb. split; [done|].
      exact (limit_offset_inv _ _ _ _ Hlo).
  - intros e w'. destruct (truthy_string user) as [u|].
    + unfold db_query. intros [= Hra _]. by apply ranking_around_throw in Hra.
    + unfold bind, db_query, set_header.
      destruct (count_ranked_owners (world_db w) id chartType) as [n|e'] eqn:Hn.
      * cbn [world_db].
        destruct (queryLeaderboard (world_db w) id chartType) as [lb|e'] eqn:Hq.
        -- intros [= Hlo _]. by apply limit_offset_throw in Hlo.
        -- intros [= -> _]. by apply queryLeaderboard_throw in Hq.
      * intros [= -> _]. unfold count_ranked_owners in Hn.
        destruct (chart_id_of (world_db w) id chartType); congruence.
Qed.

(** ** addRecord and the leaderboard *)

Lemma chart_id_of_tables db db' id chartType :
  levels db' = levels db → charts db' = charts db →
  chart_id_of db' id chartType = chart_id_of db id chartType.
Proof. unfold chart_id_of, level_id_of_uid. by intros -> ->. Qed.

Section addRecord_props.
Variable generated : Database → N * Z.
Variable owner_accepted : Database → N → bool.

Lemma addRecord_inv id chartType user record w c rid w' :
  addRecord generated owner_accepted id chartType user record w
  = (Return (c, rid), w') →
  chart_id_of (world_db w) id chartType = SVal c ∧
  ∃ row,
    row = mkPlayRecord rid c (default (user_id user) (new_ownerId record))
            (new_score record) (new_accuracy record)
            (generated (world_db w)).2 (new_ranked record) ∧
    records (world_db w') = records (world_db w) ++ [row] ∧
    users (world_db w') = users (world_db w) ∧
    levels (world_db w') = levels (world_db w) ∧
    charts (world_db w') = charts (world_db w).
Proof.
  unfold addRecord, db_execute, insert_record.
  destruct (chart_id_of (world_db w) id chartType) as [|c'|]; [done| |done].
  cbn [rec_ownerId]. destruct (owner_accepted _ _); [|done].
  intros [= <- <- <-]. split; [done|]. eexists. split; [reflexivity|]. done.
Qed.

Lemma queryLeaderboard_tables db db' id chartType :
  users db' = users db → levels db' = levels db → charts db' = charts db →
  filter (ranked_on_chart (chart_id_of db id chartType)) (records db')
  = filter (ranked_on_chart (chart_id_of db id chartType)) (records db) →
  queryLeaderboard db' id chartType = queryLeaderboard db id chartType.
Proof.
  intros Hu Hl Hc Hr. unfold queryLeaderboard, best_records, owner_of.
  rewrite (chart_id_of_tables db db' id chartType Hl Hc), Hu.
  destruct (chart_id_of db id chartType); [| |done]; by rewrite Hr.
Qed.

(** X6. A record that was added changes no leaderboard but that of its own
    chart, and none at all when it is not ranked: every other query of a
    leaderboard gives what it gave before. *)
Theorem addRecord_other_leaderboards id chartType user record w c rid w'
    id' chartType' :
  addRecord generated owner_accepted id chartType user record w
  = (Return (c, rid), w') →
  chart_id_of (world_db w) id' chartType' ≠ SVal c ∨ new_ranked record = false →
  queryLeaderboard (world_db w') id' chartType'
  = queryLeaderboard (world_db w) id' chartType'.
Proof.
  intros Hadd Hother.
  destruct (addRecord_inv _ _ _ _ _ _ _ _ Hadd)
    as (Hc & row & -> & Hrecs & Hu & Hl & Hch).
  apply queryLeaderboard_tables; [done..|].
  rewrite Hrecs, filter_app.
  rewrite (filter_none _ [_]); [by rewrite app_nil_r|].
  intros x ->%list_elem_of_singleton [He Hr]. cbn in He, Hr.
  destruct Hother as [Hne|Hunranked]; [|congruence].
  destruct (chart_id_of (world_db w) id' chartType') as [|c'|]; [done| |done].
  apply bool_decide_eq_true in He. congruence.
Qed.



Lemma best_records_same_owner c rs a b :
  a ∈ best_records c rs → b ∈ best_records c rs →
  rec_ownerId a = rec_ownerId b → a = b.
Proof.
  intros Ha Hb Hab. pose proof (best_records_NoDup c rs) as Hnd.
  apply list_elem_of_lookup in Ha as [i Hi]. apply list_elem_of_lookup in Hb as [j Hj].
  assert (i = j) as ->; [|congruence].
  eapply NoDup_lookup; [exact Hnd| |];
    rewrite list_lookup_fmap; [by rewrite Hi|by rewrite Hj, Hab].
Qed.

(** The owners of the best records that sort strictly before [x]. *)
Lemma rank_owners_length c rs x :
  length (filter (λ y, score_date_before y x = true) (best_records c rs))
  = length (rec_ownerId <$>
              filter (λ y, score_date_before y x = true) (best_records c rs)).
Proof. by rewrite length_fmap. Qed.

Lemma rank_owners_NoDup c rs x :
  NoDup (rec_ownerId <$>
           filter (λ y, score_date_before y x = true) (best_records c rs)).
Proof.
  assert (rec_ownerId <$>
            filter (λ y, score_date_before y x = true) (best_records c rs)
          `sublist_of` rec_ownerId <$> best_records c rs) as Hsub
    by apply fmap_sublist, sublist_filter.
  eapply sublist_NoDup in Hsub; [done|]. apply best_records_NoDup.
Qed.

(** A row of another player after the insertion comes from a row of that
    player before it. *)
Lemma addRecord_row_before id chartType user record w c rid w' lb lb' e' :
  addRecord generated owner_accepted id chartType user record w
  = (Return (c, rid), w') →
  queryLeaderboard (world_db w) id chartType = Return lb →
  queryLeaderboard (world_db w') id chartType = Return lb' →
  e' ∈ lb' →
  rec_ownerId (entry_record e') ≠ default (user_id user) (new_ownerId record) →
  ∃ e, e ∈ lb ∧
    rec_ownerId (entry_record e) = rec_ownerId (entry_record e') ∧
    rec_score (entry_record e) = rec_score (entry_record e') ∧
    rec_date (entry_record e) = rec_date (entry_record e') ∧
    entry_rank e ≤ entry_rank e' ∧ entry_rank e' ≤ entry_rank e + 1.
Proof.
  intros Hadd Hlb Hlb' He' Hother.
  set (o := default (user_id user) (new_ownerId record)) in *.
  destruct (addRecord_inv _ _ _ _ _ _ _ _ Hadd)
    as (Hc & row & Hrow & Hrecs & Hu & Hl & Hch).
  pose proof (chart_id_of_tables _ _ id chartType Hl Hch) as Hc'.
  rewrite Hc in Hc'.
  destruct (queryLeaderboard_records _ _ _ _ Hlb) as [_ Hrec].
  destruct (queryLeaderboard_records _ _ _ _ Hlb') as [_ Hrec'].
  destruct (queryLeaderboard_entry _ _ _ _ e' Hlb' He') as [_ Hrk'].
  rewrite Hc in Hrec. rewrite Hc' in Hrec', Hrk'.
  set (rs := records (world_db w)) in *.
  set (rs' := records (world_db w')) in *.
  assert (∀ r, r ∈ rs → r ∈ rs') as Hsub
    by (intros r Hr; rewrite Hrecs; apply elem_of_app; by left).
  assert (∀ r, r ∈ rs' → rec_ownerId r ≠ o → r ∈ rs) as Hsup.
  { intros r Hr Hne. rewrite Hrecs in Hr.
    apply elem_of_app in Hr as [Hr|Hr]; [done|].
    apply list_elem_of_singleton in Hr as ->. by rewrite Hrow in Hne. }
  (* the row of the same player before the insertion *)
  assert (entry_record e' ∈ best_records (SVal c) rs') as Hb'.
  { rewrite <- (merge_sort_Permutation score_date_le), <- Hrec'.
    apply list_elem_of_fmap. eauto. }
  destruct (best_records_elem _ _ _ Hb') as [Hin' Hon'].
  pose proof (Hsup _ Hin' Hother) as Hin.
  destruct (best_records_complete _ _ _ Hin Hon') as (b & Hb & Hbo).
  destruct (best_records_elem _ _ _ Hb) as [Hbin Hbon].
  pose proof (best_records_best _ _ _ _ Hb Hin Hon' (eq_sym Hbo)) as Hle1.
  pose proof (best_records_best _ _ _ _ Hb' (Hsub _ Hbin) Hbon Hbo) as Hle2.
  assert (rec_score b = rec_score (entry_record e') ∧
          rec_date b = rec_date (entry_record e')) as [Hs Hd]
    by (unfold score_date_le in Hle1, Hle2; lia).
  assert (b ∈ entry_record <$> lb) as Hbl
    by (rewrite Hrec, merge_sort_Permutation; done).
  apply list_elem_of_fmap in Hbl as (e & -> & He).
  exists e. split_and!; [done..| |].
  - (* no rank improves: every player ahead before is still ahead *)
    destruct (queryLeaderboard_entry _ _ _ _ e Hlb He) as [_ ->].
    rewrite Hc, Hrk'.
    rewrite (sql_rank_peers _ _ _ Hs Hd). unfold sql_rank. fold rs rs'.
    rewrite !rank_owners_length.
    enough (length (rec_ownerId <$> filter
                      (λ y, score_date_before y (entry_record e') = true)
                      (best_records (SVal c) rs))
            ≤ length (rec_ownerId <$> filter
                      (λ y, score_date_before y (entry_record e') = true)
                      (best_records (SVal c) rs')))%nat by lia.
    apply submseteq_length, NoDup_submseteq; [apply rank_owners_NoDup|].
    intros o' (a & -> & Ha)%list_elem_of_fmap.
    apply list_elem_of_filter in Ha as [Hbefore Ha].
    destruct (best_records_elem _ _ _ Ha) as [Hain Haon].
    destruct (best_records_complete _ _ _ (Hsub _ Hain) Haon) as (a' & Ha' & Hao).
    apply list_elem_of_fmap. exists a'. split; [done|].
    apply list_elem_of_filter. split; [|done].
    pose proof (best_records_best _ _ _ _ Ha' (Hsub _ Hain) Haon (eq_sym Hao)) as Hle.
    apply score_date_before_spec. apply score_date_before_spec in Hbefore.
    unfold score_date_le in Hle. lia.
  - (* at most the player of the new record gets ahead *)
    destruct (queryLeaderboard_entry _ _ _ _ e Hlb He) as [_ ->].
    rewrite Hc, Hrk'.
    rewrite (sql_rank_peers _ _ _ Hs Hd). unfold sql_rank. fold rs rs'.
    rewrite !rank_owners_length.
    enough (length (rec_ownerId <$> filter
                      (λ y, score_date_before y (entry_record e') = true)
                      (best_records (SVal c) rs'))
            ≤ length (o :: (rec_ownerId <$> filter
                      (λ y, score_date_before y (entry_record e') = true)
                      (best_records (SVal c) rs))))%nat by (simpl in *; lia).
    apply submseteq_length, NoDup_submseteq; [apply rank_owners_NoDup|].
    intros o' (a' & -> & Ha')%list_elem_of_fmap.
    apply list_elem_of_filter in Ha' as [Hbefore Ha'].
    destruct (decide (rec_ownerId a' = o)) as [->|Hne]; [left|right].
    destruct (best_records_elem _ _ _ Ha') as [Hain' Haon].
    pose proof (Hsup _ Hain' Hne) as Hain.
    destruct (best_records_complete _ _ _ Hain Haon) as (a & Ha & Hao).
    apply list_elem_of_fmap. exists a. split; [done|].
    apply list_elem_of_filter. split; [|done].
    pose proof (best_records_best _ _ _ _ Ha Hain Haon (eq_sym Hao)) as Hle.
    apply score_date_before_spec. apply score_date_before_spec in Hbefore.
    unfold score_date_le in Hle. lia.
Qed.

(** X8. What a new record does to the other players of its chart, the
    players other than the one the record is stored under (the submitting
    user, or the player named by an ownerId in the body): the leaderboard
    can be queried before and after; each of these players with a row
    before keeps a row with the same score and date, whose rank stays or
    grows by one, it never improves; and every row of such a player after
    comes from a row of that player before. *)
Theorem addRecord_other_players id chartType user record w c rid w' :
  addRecord generated owner_accepted id chartType user record w
  = (Return (c, rid), w') →
  ∃ lb lb',
    queryLeaderboard (world_db w) id chartType = Return lb ∧
    queryLeaderboard (world_db w') id chartType = Return lb' ∧
    (∀ e, e ∈ lb →
       rec_ownerId (entry_record e) ≠ default (user_id user) (new_ownerId record) →
       ∃ e', e' ∈ lb' ∧
         rec_ownerId (entry_record e') = rec_ownerId (entry_record e) ∧
         rec_score (entry_record e') = rec_score (entry_record e) ∧
         rec_date (entry_record e') = rec_date (entry_record e) ∧
         entry_rank e ≤ entry_rank e' ∧ entry_rank e' ≤ entry_rank e + 1) ∧
    (∀ e', e' ∈ lb' →
       rec_ownerId (entry_record e') ≠ default (user_id user) (new_ownerId record) →
       ∃ e, e ∈ lb ∧
         rec_ownerId (entry_record e) = rec_ownerId (entry_record e') ∧
         rec_score (entry_record e) = rec_score (entry_record e') ∧
         rec_date (entry_record e) = rec_date (entry_record e') ∧
         entry_rank e ≤ entry_rank e' ∧ entry_rank e' ≤ entry_rank e + 1).
Proof.
  intros Hadd.
  destruct (addRecord_inv _ _ _ _ _ _ _ _ Hadd)
    as (Hc & row & Hrow & Hrecs & Hu & Hl & Hch).
  pose proof (chart_id_of_tables _ _ id chartType Hl Hch) as Hc'.
  rewrite Hc in Hc'.
  destruct (queryLeaderboard_returns (world_db w) id chartType) as [lb Hlb];
    [by rewrite Hc|].
  destruct (queryLeaderboard_returns (world_db w') id chartType) as [lb' Hlb'];
    [by rewrite Hc'|].
  exists lb, lb'. split; [done|]. split; [done|]. split.
  - intros e He Hother.
    destruct (queryLeaderboard_records _ _ _ _ Hlb) as [_ Hrec].
    destruct (queryLeaderboard_records _ _ _ _ Hlb') as [_ Hrec'].
    rewrite Hc in Hrec. rewrite Hc' in Hrec'.
    assert (entry_record e ∈ best_records (SVal c) (records (world_db w))) as Hb.
    { rewrite <- (merge_sort_Permutation score_date_le), <- Hrec.
      apply list_elem_of_fmap. eauto. }
    destruct (best_records_elem _ _ _ Hb) as [Hin Hon].
    assert (entry_record e ∈ records (world_db w')) as Hin'
      by (rewrite Hrecs; apply elem_of_app; by left).
    destruct (best_records_complete _ _ _ Hin' Hon) as (b' & Hb' & Hbo).
    assert (b' ∈ entry_record <$> lb') as Hbl
      by (rewrite Hrec', merge_sort_Permutation; done).
    apply list_elem_of_fmap in Hbl as (e' & -> & He').
    destruct (addRecord_row_before _ _ _ _ _ _ _ _ lb lb' e' Hadd Hlb Hlb' He')
      as (e0 & He0 & Ho0 & Hs0 & Hd0 & Hr1 & Hr2); [by rewrite Hbo|].
    assert (entry_record e0 = entry_record e) as Hsame.
    { apply (best_records_same_owner (SVal c) (records (world_db w)));
        [|done|congruence].
      rewrite <- (merge_sort_Permutation score_date_le), <- Hrec.
      apply list_elem_of_fmap. eauto. }
    assert (entry_rank e0 = entry_rank e) as Hrk.
    { destruct (queryLeaderboard_entry _ _ _ _ e Hlb He) as [_ ->].
      destruct (queryLeaderboard_entry _ _ _ _ e0 Hlb He0) as [_ ->].
      by rewrite Hsame. }
    exists e'. rewrite <- Hsame, <- Hrk. split_and!; done.
  - intros e' He' Hother.
    exact (addRecord_row_before _ _ _ _ _ _ _ _ lb lb' e' Hadd Hlb Hlb' He' Hother).
Qed.
End addRecord_props.

Lemma addRecord_other_leaderboards_witness :
  SampleRecord.out = (Return (100%N, 9%N), SampleRecord.out.2) ∧
  queryLeaderboard (world_db SampleRecord.out.2) "io.cytoid.dusk" "extreme"
  = queryLeaderboard (world_db Sample.world) "io.cytoid.dusk" "extreme".
Proof.
  assert (SampleRecord.out = (Return (100%N, 9%N), SampleRecord.out.2)) as H
    by (vm_compute; reflexivity).
  split; [exact H|].
  apply (addRecord_other_leaderboards SampleRecord.generated
           SampleRecord.owner_accepted
           "io.cytoid.glow" "hard" Sample.carol SampleRecord.record
           Sample.world 100%N 9%N SampleRecord.out.2
           "io.cytoid.dusk" "extreme" H).
  left. vm_compute. discriminate.
Defined.


Lemma addRecord_other_players_witness :
  SampleRecord.out = (Return (100%N, 9%N), SampleRecord.out.2) ∧
  queryLeaderboard (world_db Sample.world) "io.cytoid.glow" "hard"
  = Return SampleBoard.rows ∧
  queryLeaderboard (world_db SampleRecord.out.2) "io.cytoid.glow" "hard"
  = Return SampleRecord.rows ∧
  ∃ e', e' ∈ SampleRecord.rows ∧
    rec_ownerId (entry_record e') = user_id Sample.bob ∧
    rec_score (entry_record e') = 950000 ∧
    rec_date (entry_record e') = 40 ∧
    1 ≤ entry_rank e' ∧ entry_rank e' ≤ 1 + 1.
Proof.
  assert (SampleRecord.out = (Return (100%N, 9%N), SampleRecord.out.2)) as H
    by (vm_compute; reflexivity).
  assert (queryLeaderboard (world_db Sample.world) "io.cytoid.glow" "hard"
          = Return SampleBoard.rows) as HB by (vm_compute; reflexivity).
  assert (queryLeaderboard (world_db SampleRecord.out.2) "io.cytoid.glow" "hard"
          = Return SampleRecord.rows) as HR by (vm_compute; reflexivity).
  split; [exact H|]. split; [exact HB|]. split; [exact HR|].
  destruct (addRecord_other_players SampleRecord.generated
              SampleRecord.owner_accepted
              "io.cytoid.glow" "hard" Sample.carol SampleRecord.record
              Sample.world 100%N 9%N SampleRecord.out.2 H)
    as (lb & lb' & Hlb & Hlb' & Hkeep & _).
  rewrite HB in Hlb. injection Hlb as <-.
  rewrite HR in Hlb'. injection Hlb' as <-.
  apply (Hkeep (mkEntry (mkPlayRecord 3 100 2 950000 0.95 40 true)
                        (Some Sample.bob) 1)).
  - left.
  - vm_compute. discriminate.
Defined.

(** ** updateRatings: what it leaves in the table *)

Lemma database_eta db :
  mkDatabase (users db) (levels db) (charts db) (records db) (level_ratings db)
             (level_downloads db) = db.
Proof. by destruct db. Qed.

Lemma filter_all {A} (P : A → Prop) `{!∀ x, Decision (P x)} (l : list A) :
  (∀ x, x ∈ l → P x) → filter P l = l.
Proof.
  induction l as [|a l IH]; intros Hl; [done|].
  rewrite filter_cons_True by (apply Hl; left).
  f_equal. apply IH. intros x Hx. apply Hl. by right.
Qed.

Lemma filter_neg_none {A} (P : A → Prop) `{!∀ x, Decision (P x)} (l : list A) :
  filter P l = [] → filter (λ x, ¬ P x) l = l.
Proof.
  intros Hnone. apply filter_all. intros x Hx HP.
  assert (x ∈ filter P l) as Hin by (by apply list_elem_of_filter).
  rewrite Hnone in Hin. by apply elem_of_nil in Hin.
Qed.

(** The tables that updateRatings leaves: those it found, or those of its
    one writing statement. *)
Lemma updateRatings_db {col : RatingColumn} id user rating w :
  let db' := world_db (updateRatings id user rating w).2 in
  db' = world_db w ∨
  (∃ r, rating = Some r ∧ (0 < r)%Q ∧ (r <= 10)%Q ∧
        upsert_rating id (user_id user) r (world_db w) = Return (tt, db')) ∨
  (∃ n, falsy_number rating = true ∧
        delete_rating id (user_id user) (world_db w) = Return (n, db')).
Proof.
  intros db'. unfold db'. clear db'.
  destruct (falsy_number rating) eqn:Hf.
  - rewrite (updateRatings_delete _ _ _ _ Hf).
    destruct (delete_rating id (user_id user) (world_db w)) as [[n d]|e] eqn:Hd;
      [|by left].
    right; right. exists n. split; [done|].
    destruct (decide (n = 0)); [done|]. by rewrite getRatings_db.
  - destruct rating as [r|]; [|done]. simpl in Hf.
    apply bool_decide_eq_false in Hf.
    destruct (decide (10 < r ∨ r <= 0)%Q) as [Hout|Hin].
    + rewrite (updateRatings_out_of_range _ _ _ _ Hf Hout). by left.
    + assert (0 < r)%Q as H0 by (apply Qnot_le_lt; tauto).
      assert (r <= 10)%Q as H10 by (apply Qnot_lt_le; tauto).
      rewrite (updateRatings_upsert _ _ _ _ H0 H10).
      destruct (upsert_rating id (user_id user) r (world_db w)) as [[[] d]|e] eqn:Hu;
        [|by left].
      right; left. exists r. rewrite getRatings_db. done.
Qed.

Lemma upsert_rating_inv {col : RatingColumn} id userId r db db' :
  upsert_rating id userId r db = Return (tt, db') →
  ∃ lvl, level_id_of_uid db id = SVal lvl ∧
    users db' = users db ∧ levels db' = levels db ∧ charts db' = charts db ∧
    records db' = records db ∧ level_downloads db' = level_downloads db ∧
    level_ratings db' =
      if decide (Exists (λ x, rating_levelId x = lvl ∧ rating_userId x = userId)
                        (level_ratings db))
      then (λ x, if decide (rating_levelId x = lvl ∧ rating_userId x = userId)
                 then mkRating lvl userId r else x) <$> level_ratings db
      else level_ratings db ++ [mkRating lvl userId r].
Proof.
  unfold upsert_rating. destruct (negb _); [done|].
  destruct (level_id_of_uid db id) as [|lvl|]; [done| |done].
  intros [= <-]. exists lvl. done.
Qed.

Lemma delete_rating_inv id userId db n db' :
  delete_rating id userId db = Return (n, db') →
  users db' = users db ∧ levels db' = levels db ∧ charts db' = charts db ∧
  records db' = records db ∧ level_downloads db' = level_downloads db ∧
  level_ratings db' =
    filter (λ x, ¬ (eq_scalar (rating_levelId x) (level_id_of_uid db id) = true ∧
                    rating_userId x = userId)) (level_ratings db).
Proof.
  unfold delete_rating.
  destruct (level_id_of_uid db id) as [|lvl|]; [| |done]; intros [= <- <-]; done.
Qed.

Lemma upsert_keys lvl userId r (rows : list Rating) :
  (λ x, (rating_levelId x, rating_userId x)) <$>
    ((λ x, if decide (rating_levelId x = lvl ∧ rating_userId x = userId)
           then mkRating lvl userId r else x) <$> rows)
  = (λ x, (rating_levelId x, rating_userId x)) <$> rows.
Proof.
  rewrite <- list_fmap_compose. apply list_fmap_ext. intros _ x _. simpl.
  destruct (decide _) as [[<- <-]|_]; done.
Qed.

Lemma upsert_rows_NoDup lvl userId r (rows : list Rating) :
  NoDup ((λ x, (rating_levelId x, rating_userId x)) <$> rows) →
  NoDup ((λ x, (rating_levelId x, rating_userId x)) <$>
    (if decide (Exists (λ x, rating_levelId x = lvl ∧ rating_userId x = userId) rows)
     then (λ x, if decide (rating_levelId x = lvl ∧ rating_userId x = userId)
                then mkRating lvl userId r else x) <$> rows
     else rows ++ [mkRating lvl userId r])).
Proof.
  intros Hnd. destruct (decide (Exists _ rows)) as [_|Hnone].
  - by rewrite upsert_keys.
  - rewrite fmap_app. apply NoDup_app. split; [done|]. split.
    + intros k Hk Hk'. apply list_elem_of_singleton in Hk'. subst k.
      apply list_elem_of_fmap in Hk as (x & [= Hl Hu] & Hx).
      apply Hnone, Exists_exists. eauto.
    + apply NoDup_singleton.
Qed.

Lemma upsert_rows_elem lvl userId r (rows : list Rating) :
  mkRating lvl userId r ∈
    (if decide (Exists (λ x, rating_levelId x = lvl ∧ rating_userId x = userId) rows)
     then (λ x, if decide (rating_levelId x = lvl ∧ rating_userId x = userId)
                then mkRating lvl userId r else x) <$> rows
     else rows ++ [mkRating lvl userId r]).
Proof.
  destruct (decide (Exists _ rows)) as [Hsome|_].
  - apply Exists_exists in Hsome as (x & Hx & Hhit).
    apply list_elem_of_fmap. exists x. split; [|done]. by rewrite decide_True.
  - apply elem_of_app. right. left.
Qed.

Lemma upsert_rows_level_count lvl userId r (rows : list Rating) :
  length (filter (λ x, eq_scalar (rating_levelId x) (SVal lvl) = true)
    (if decide (Exists (λ x, rating_levelId x = lvl ∧ rating_userId x = userId) rows)
     then (λ x, if decide (rating_levelId x = lvl ∧ rating_userId x = userId)
                then mkRating lvl userId r else x) <$> rows
     else rows ++ [mkRating lvl userId r]))
  = (length (filter (λ x, eq_scalar (rating_levelId x) (SVal lvl) = true) rows)
     + if decide (Exists (λ x, rating_levelId x = lvl ∧ rating_userId x = userId) rows)
       then 0 else 1)%nat.
Proof.
  destruct (decide (Exists _ rows)) as [_|_].
  - rewrite Nat.add_0_r.
    rewrite <- (filter_length_fmap
                  (λ x, if decide (rating_levelId x = lvl ∧ rating_userId x = userId)
                        then mkRating lvl userId r else x)
                  (λ x, eq_scalar (rating_levelId x) (SVal lvl) = true)).
    f_equal. apply list_filter_iff. intros x.
    destruct (decide (rating_levelId x = lvl ∧ rating_userId x = userId))
      as [[Hl _]|_]; [|done].
    simpl. rewrite !bool_decide_eq_true. by rewrite Hl.
  - rewrite filter_app, length_app. f_equal.
    rewrite filter_cons_True; [done|]. simpl. by apply bool_decide_eq_true.
Qed.

Lemma filter_unique_key {A K} (f : A → K) (P : A → Prop) `{!∀ x, Decision (P x)}
    (l : list A) x :
  NoDup (f <$> l) → x ∈ l → (∀ y, y ∈ l → (P y ↔ f y = f x)) → filter P l = [x].
Proof.
  induction l as [|a l IH]; intros Hnd Hx HP; [by apply elem_of_nil in Hx|].
  rewrite fmap_cons in Hnd. apply NoDup_cons in Hnd as [Ha Hnd].
  apply elem_of_cons in Hx as [->|Hx].
  - rewrite filter_cons_True by (apply HP; [left|done]). f_equal.
    apply filter_none. intros y Hy HPy.
    apply Ha, list_elem_of_fmap. exists y. split; [|done].
    symmetry. apply HP; [by right|done].
  - rewrite filter_cons_False.
    + apply IH; [done|done|]. intros y Hy. apply HP. by right.
    + intros HPa. apply Ha, list_elem_of_fmap. exists x. split; [|done].
      apply HP; [left|done].
Qed.

(** X9. updateRatings keeps the rating table sound, whatever it is called
    with and however it ends: when no two rows had the same level and user
    before (the constraint level_ratings_levelId_userId_key), none have
    after; when every stored rating was above 0 and at most 10, every one
    still is; and the other tables are not touched. *)
Theorem updateRatings_table_sound {col : RatingColumn} id user rating w :
  let db := world_db w in
  let db' := world_db (updateRatings id user rating w).2 in
  (NoDup ((λ x, (rating_levelId x, rating_userId x)) <$> level_ratings db) →
   NoDup ((λ x, (rating_levelId x, rating_userId x)) <$> level_ratings db')) ∧
  ((∀ x, x ∈ level_ratings db → (0 < rating_value x ∧ rating_value x <= 10)%Q) →
   ∀ x, x ∈ level_ratings db' → (0 < rating_value x ∧ rating_value x <= 10)%Q) ∧
  users db' = users db ∧ levels db' = levels db ∧ charts db' = charts db ∧
  records db' = records db ∧ level_downloads db' = level_downloads db.
Proof.
  intros db db'.
  pose proof (updateRatings_db id user rating w) as H.
  cbv zeta in H. fold db db' in H.
  destruct H as [Hsame|[(r & _ & H0 & H10 & Hu)|(n & _ & Hd)]].
  - rewrite Hsame. done.
  - apply upsert_rating_inv in Hu
      as (lvl & _ & Husers & Hlevels & Hcharts & Hrecs & Hdl & Hrows).
    split_and!; [| |done..].
    + intros Hnd. rewrite Hrows. by apply upsert_rows_NoDup.
    + intros Hrange x. rewrite Hrows.
      destruct (decide (Exists _ (level_ratings db))) as [_|_].
      * intros (y & -> & Hy)%list_elem_of_fmap.
        destruct (decide _); [done|by apply Hrange].
      * intros [Hx|Hx%list_elem_of_singleton]%elem_of_app;
          [by apply Hrange|by subst x].
  - apply delete_rating_inv in Hd
      as (Husers & Hlevels & Hcharts & Hrecs & Hdl & Hrows).
    split_and!; [| |done..].
    + intros Hnd. rewrite Hrows.
      eapply sublist_NoDup; [exact Hnd|]. apply fmap_sublist, sublist_filter.
    + intros Hrange x. rewrite Hrows.
      intros [_ Hx]%list_elem_of_filter. by apply Hrange.
Qed.

(** X10. A request that updateRatings rejects, with NotFoundError (the
    level is missing, or there was no rating to remove) or BadRequestError,
    changes nothing: the tables and the cache are as they were. *)
Theorem updateRatings_rejected_unchanged {col : RatingColumn} id user rating w e :
  (updateRatings id user rating w).1 = Throw e → e ≠ DatabaseError →
  world_db (updateRatings id user rating w).2 = world_db w ∧
  world_redis (updateRatings id user rating w).2 = world_redis w.
Proof.
  destruct (falsy_number rating) eqn:Hf.
  - rewrite (updateRatings_delete _ _ _ _ Hf).
    destruct (delete_rating id (user_id user) (world_db w)) as [[n d]|e'] eqn:Hd.
    + destruct (decide (n = 0)) as [->|Hn].
      * intros _ _. cbn [snd world_db world_redis]. split; [|done].
        assert (level_id_of_uid (world_db w) id ≠ SMany) as Hl.
        { intros E. unfold delete_rating in Hd. by rewrite E in Hd. }
        rewrite (delete_rating_ok _ _ _ Hl) in Hd. injection Hd as Hn <-.
        rewrite filter_neg_none; [apply database_eta|].
        apply length_zero_iff_nil. lia.
      * intros He Hne. by apply getRatings_throw in He.
    + intros [= <-] Hne. exfalso. apply Hne.
      unfold delete_rating in Hd.
      destruct (level_id_of_uid (world_db w) id); congruence.
  - destruct rating as [r|]; [|done]. simpl in Hf.
    apply bool_decide_eq_false in Hf.
    destruct (decide (10 < r ∨ r <= 0)%Q) as [Hout|Hin].
    + by rewrite (updateRatings_out_of_range _ _ _ _ Hf Hout).
    + assert (0 < r)%Q as H0 by (apply Qnot_le_lt; tauto).
      assert (r <= 10)%Q as H10 by (apply Qnot_lt_le; tauto).
      rewrite (updateRatings_upsert _ _ _ _ H0 H10).
      destruct (upsert_rating id (user_id user) r (world_db w)) as [[[] d]|e'];
        [|done].
      intros He Hne. by apply getRatings_throw in He.
Qed.

Lemma updateRatings_rejected_unchanged_witness :
  let run := @updateRatings integer_column "io.cytoid.none" Sample.alice
               (Some 5%Q) Sample.world in
  run.1 = Throw NotFoundError ∧
  world_db run.2 = world_db Sample.world ∧
  world_redis run.2 = world_redis Sample.world.
Proof.
  intros run.
  assert (run.1 = Throw NotFoundError) as H by (vm_compute; reflexivity).
  split; [exact H|].
  apply (updateRatings_rejected_unchanged (col := integer_column)
           "io.cytoid.none" Sample.alice (Some 5%Q) Sample.world
           NotFoundError H).
  discriminate.
Defined.

(** ** updateRatings: a rating reads back *)

Lemma query_ratings_own id user db lvl r :
  level_id_of_uid db id = SVal lvl →
  NoDup ((λ x, (rating_levelId x, rating_userId x)) <$> level_ratings db) →
  mkRating lvl (user_id user) r ∈ level_ratings db →
  query_ratings id (Some user) db
  = Return (aggregate_of (ratings_of_level db (SVal lvl)), SVal r) ∧
  query_own_rating id user db = Return (Some r).
Proof.
  intros Hlvl Hnd Hin. unfold query_ratings, query_own_rating. rewrite Hlvl.
  assert (filter (λ x, rating_userId x = user_id user ∧
                       eq_scalar (rating_levelId x) (SVal lvl) = true)
                 (level_ratings db) = [mkRating lvl (user_id user) r]) as E.
  { apply (filter_unique_key (λ x, (rating_levelId x, rating_userId x)));
      [done|done|].
    intros y _. simpl. rewrite bool_decide_eq_true. split; [by intros [-> ->]|].
    by intros [= -> ->]. }
  unfold ratings_by, ratings_of_level. rewrite list_filter_filter.
  by rewrite E.
Qed.

(** X11. A rating reads back. When the level exists, no two rows of the
    table share level and user, and the rating is a whole number from 1 to
    10, updateRatings succeeds; its answer carries that rating as the
    caller's own; the total it reports is the number of ratings the level
    had, plus one if the caller had not rated it; and the row it stored is
    what a later lookup of the caller's rating finds. *)
Theorem updateRatings_round_trip {col : RatingColumn} id user n w lvl :
  level_id_of_uid (world_db w) id = SVal lvl →
  NoDup ((λ x, (rating_levelId x, rating_userId x)) <$>
           level_ratings (world_db w)) →
  1 ≤ n ≤ 10 →
  ∃ a w',
    updateRatings id user (Some (inject_Z n)) w
    = (Return (RatingsObject a (RatingValue (inject_Z n))), w') ∧
    total a =
      Z.of_nat (length (ratings_of_level (world_db w) (SVal lvl))) +
      (if decide (Exists (λ x, rating_levelId x = lvl ∧
                               rating_userId x = user_id user)
                         (level_ratings (world_db w)))
       then 0 else 1) ∧
    query_own_rating id user (world_db w') = Return (Some (inject_Z n)).
Proof.
  intros Hlvl Hnd Hn.
  assert (0 < inject_Z n)%Q as H0 by (unfold Qlt; simpl; lia).
  assert (inject_Z n <= 10)%Q as H10 by (unfold Qle; simpl; lia).
  rewrite (updateRatings_upsert _ _ _ _ H0 H10).
  destruct (upsert_rating id (user_id user) (inject_Z n) (world_db w))
    as [[[] db']|e] eqn:Hu.
  2:{ rewrite upsert_rating_whole in Hu. by rewrite Hlvl in Hu. }
  apply upsert_rating_inv in Hu
    as (lvl' & Hlvl' & Husers & Hlevels & Hcharts & Hrecs & Hdl & Hrows).
  assert (lvl' = lvl) as -> by congruence.
  assert (level_id_of_uid db' id = SVal lvl) as Hlvl2
    by (unfold level_id_of_uid in *; by rewrite Hlevels).
  assert (NoDup ((λ x, (rating_levelId x, rating_userId x)) <$> level_ratings db'))
    as Hnd' by (rewrite Hrows; by apply upsert_rows_NoDup).
  assert (mkRating lvl (user_id user) (inject_Z n) ∈ level_ratings db') as Hin
    by (rewrite Hrows; apply upsert_rows_elem).
  destruct (query_ratings_own id user db' lvl (inject_Z n) Hlvl2 Hnd' Hin)
    as [Hq Hown].
  rewrite getRatings_miss.
  2:{ intros e. cbn [world_redis]. by rewrite lookup_delete_eq. }
  cbn [world_db]. rewrite Hq. cbn [fst snd own_rating].
  assert (parseInt10 (inject_Z n) = n) as ->
    by (unfold parseInt10; simpl; apply Z.quot_1_r).
  rewrite decide_False by lia.
  eexists _, _. split; [reflexivity|]. split; [|exact Hown].
  cbn [aggregate_of total]. unfold ratings_of_level. rewrite Hrows.
  rewrite upsert_rows_level_count.
  destruct (decide (Exists _ (level_ratings (world_db w)))); lia.
Qed.

Lemma updateRatings_round_trip_witness :
  level_id_of_uid (world_db Sample.world) "io.cytoid.glow" = SVal 10%N ∧
  ∃ a w',
    @updateRatings integer_column "io.cytoid.glow" Sample.carol
      (Some (inject_Z 7)) Sample.world
    = (Return (RatingsObject a (RatingValue (inject_Z 7))), w') ∧
    total a =
      Z.of_nat (length (ratings_of_level (world_db Sample.world) (SVal 10%N))) +
      (if decide (Exists (λ x, rating_levelId x = 10%N ∧
                               rating_userId x = user_id Sample.carol)
                         (level_ratings (world_db Sample.world)))
       then 0 else 1) ∧
    query_own_rating "io.cytoid.glow" Sample.carol (world_db w')
    = Return (Some (inject_Z 7)).
Proof.
  assert (level_id_of_uid (world_db Sample.world) "io.cytoid.glow" = SVal 10%N)
    as H by (vm_compute; reflexivity).
  split; [exact H|].
  apply (updateRatings_round_trip (col := integer_column)
           "io.cytoid.glow" Sample.carol 7 Sample.world 10%N H).
  - vm_compute. repeat constructor; set_solver.
  - lia.
Defined.

(** ** The aggregate of getRatings *)

Section distribution.
Variable ks : list Z.

Lemma distribution_cons r rs :
  foldr Z.add 0
    ((λ i, Z.of_nat (length (filter (λ x, rating_value x == inject_Z i)%Q (r :: rs))))
       <$> ks)
  = foldr Z.add 0
      ((λ i, if decide (rating_value r == inject_Z i)%Q then 1 else 0) <$> ks)
    + foldr Z.add 0
        ((λ i, Z.of_nat (length (filter (λ x, rating_value x == inject_Z i)%Q rs)))
           <$> ks).
Proof.
  induction ks as [|k l IH]; [done|].
  rewrite !fmap_cons. cbn [foldr]. rewrite IH, filter_cons.
  destruct (decide (rating_value r == inject_Z k)%Q); simpl length; lia.
Qed.

Lemma indicator_zero q :
  (∀ k, k ∈ ks → ¬ (q == inject_Z k)%Q) →
  foldr Z.add 0 ((λ i, if decide (q == inject_Z i)%Q then 1 else 0) <$> ks) = 0.
Proof.
  induction ks as [|k l IH]; intros Hno; [done|].
  rewrite fmap_cons. cbn [foldr].
  rewrite decide_False by (apply Hno; left).
  rewrite IH; [done|]. intros k' Hk'. apply Hno. by right.
Qed.

Lemma indicator_le_one q :
  NoDup ks →
  0 ≤ foldr Z.add 0 ((λ i, if decide (q == inject_Z i)%Q then 1 else 0) <$> ks) ≤ 1
  ∧ ((∃ k, k ∈ ks ∧ (q == inject_Z k)%Q) →
     foldr Z.add 0 ((λ i, if decide (q == inject_Z i)%Q then 1 else 0) <$> ks) = 1).
Proof.
  induction ks as [|k l IH]; intros Hnd.
  - split; [simpl; lia|]. intros (k & Hk & _). by apply elem_of_nil in Hk.
  - apply NoDup_cons in Hnd as [Hk Hnd]. specialize (IH Hnd) as [IH1 IH2].
    rewrite fmap_cons. cbn [foldr].
    destruct (decide (q == inject_Z k)%Q) as [Hq|Hq].
    + assert (foldr Z.add 0
                ((λ i, if decide (q == inject_Z i)%Q then 1 else 0) <$> l) = 0)
        as ->; [|split; [lia|done]].
      clear IH1 IH2. induction l as [|k' l' IHl]; [done|].
      rewrite fmap_cons. cbn [foldr]. rewrite decide_False.
      * rewrite IHl; [done| |by apply NoDup_cons in Hnd as [_ ?]].
        intros Hin. apply Hk. by right.
      * intros Hq'. apply Hk. rewrite Hq in Hq'.
        apply inject_Z_injective in Hq' as ->. left.
    + split; [lia|]. intros (k' & Hk' & Hq').
      apply elem_of_cons in Hk' as [->|Hk']; [done|].
      rewrite IH2 by eauto. done.
Qed.

Lemma distribution_sum rs :
  NoDup ks →
  foldr Z.add 0
    ((λ i, Z.of_nat (length (filter (λ x, rating_value x == inject_Z i)%Q rs)))
       <$> ks) ≤ Z.of_nat (length rs)
  ∧ ((∀ x, x ∈ rs → ∃ k, k ∈ ks ∧ (rating_value x == inject_Z k)%Q) →
     foldr Z.add 0
       ((λ i, Z.of_nat (length (filter (λ x, rating_value x == inject_Z i)%Q rs)))
          <$> ks) = Z.of_nat (length rs)).
Proof.
  intros Hnd. induction rs as [|r rs IH].
  - assert (foldr Z.add 0 ((λ _ : Z, 0) <$> ks) = 0) as E
      by (clear Hnd; induction ks as [|k l IHl]; [done|];
          rewrite fmap_cons; cbn [foldr]; by rewrite IHl).
    split; [|intros _]; change (filter _ []) with (@nil Rating);
      change (Z.of_nat (length (@nil Rating))) with 0; rewrite E; done.
  - rewrite distribution_cons. destruct IH as [IH1 IH2].
    destruct (indicator_le_one (rating_value r) Hnd) as [Hi1 Hi2].
    split; [simpl length; lia|]. intros Hall.
    rewrite Hi2 by (apply Hall; left).
    rewrite IH2 by (intros x Hx; apply Hall; by right).
    simpl length. lia.
Qed.
End distribution.

Lemma sql_sum_bounds (l : list Q) lo hi :
  (∀ x, x ∈ l → (lo <= x ∧ x <= hi)%Q) →
  (lo * inject_Z (Z.of_nat (length l)) <= sql_sum l ∧
   sql_sum l <= hi * inject_Z (Z.of_nat (length l)))%Q.
Proof.
  induction l as [|x l IH]; intros Hl.
  - change (sql_sum []) with 0%Q.
    change (inject_Z (Z.of_nat (length (@nil Q)))) with 0%Q. split; lra.
  - destruct IH as [IH1 IH2]; [intros y Hy; apply Hl; by right|].
    destruct (Hl x ltac:(left)) as [Hx1 Hx2].
    cbn [length]. rewrite Nat2Z.inj_succ. unfold Z.succ. rewrite inject_Z_plus.
    change (sql_sum (x :: l)) with (x + sql_sum l)%Q.
    change (inject_Z 1) with 1%Q. split; lra.
Qed.

Lemma sql_avg_bounds (l : list Q) m lo hi :
  sql_avg l = Some m →
  (∀ x, x ∈ l → (lo <= x ∧ x <= hi)%Q) → (lo <= m ∧ m <= hi)%Q.
Proof.
  intros Hm Hl. destruct (sql_sum_bounds l lo hi Hl) as [H1 H2].
  destruct l as [|x l]; [done|]. injection Hm as <-.
  assert (0 < inject_Z (Z.of_nat (length (x :: l))))%Q as Hn
    by (unfold Qlt; simpl; lia).
  split.
  - apply Qle_shift_div_l; [done|]. exact H1.
  - apply Qle_shift_div_r; [done|]. exact H2.
Qed.

Lemma query_ratings_aggregate id user db p :
  query_ratings id user db = Return p →
  p.1 = aggregate_of (ratings_of_level db (level_id_of_uid db id)).
Proof.
  unfold query_ratings.
  destruct (level_id_of_uid db id) as [|lvl|]; [| |done];
    (destruct user as [u|]; [|by intros [= <-]]);
    (destruct (scalar_subquery _); [| |done]); by intros [= <-].
Qed.

(** X12. What getRatings computes on a cache miss, for the rating rows of
    the level: the total is their number; the distribution has ten entries
    and sums to at most the total, and to the total when every rating is a
    whole number from 1 to 10; the average is null exactly when there is no
    rating, and lies between any two bounds that all the ratings respect. *)
Theorem getRatings_aggregate id user w a rating :
  (∀ e, world_redis w !! (levelRatingCacheKey +:+ id) = Some e →
        cache_expiry e ≤ world_now w) →
  (getRatings id user w).1 = Return (RatingsObject a rating) →
  let rs := ratings_of_level (world_db w) (level_id_of_uid (world_db w) id) in
  total a = Z.of_nat (length rs) ∧
  length (distribution a) = 10%nat ∧
  foldr Z.add 0 (distribution a) ≤ total a ∧
  ((∀ x, x ∈ rs → ∃ k, 1 ≤ k ≤ 10 ∧ (rating_value x == inject_Z k)%Q) →
   foldr Z.add 0 (distribution a) = total a) ∧
  (average a = None ↔ total a = 0) ∧
  (∀ m lo hi, average a = Some m →
     (∀ x, x ∈ rs → (lo <= rating_value x ∧ rating_value x <= hi)%Q) →
     (lo <= m ∧ m <= hi)%Q).
Proof.
  intros Hmiss Hrun rs. rewrite (getRatings_miss id user w Hmiss) in Hrun.
  destruct (query_ratings id user (world_db w)) as [p|e] eqn:Hq; [|done].
  apply query_ratings_aggregate in Hq. fold rs in Hq.
  injection Hrun as Ha _. rewrite Hq in Ha. subst a.
  cbn [aggregate_of total distribution average]. unfold rating_distribution.
  destruct (distribution_sum (seqZ 1 10) rs (NoDup_seqZ 1 10)) as [Hle Heq].
  split_and!; [done|by rewrite length_fmap, length_seqZ|exact Hle| | |].
  - intros Hall. apply Heq. intros x Hx.
    destruct (Hall x Hx) as (k & Hk & Hv). exists k. split; [|done].
    apply elem_of_seqZ. lia.
  - destruct rs as [|r rs']; [done|]. split; [done|]. simpl length. lia.
  - intros m lo hi Hm Hb. apply (sql_avg_bounds _ m lo hi Hm).
    intros q (x & -> & Hx)%list_elem_of_fmap. by apply Hb.
Qed.

Lemma getRatings_aggregate_witness :
  let a := mkAggregate (Some (18 # 2)%Q) 2 [0; 0; 0; 0; 0; 0; 0; 1; 0; 1] in
  let rs := ratings_of_level Sample.db (level_id_of_uid Sample.db "io.cytoid.glow") in
  (getRatings "io.cytoid.glow" None Sample.world).1
  = Return (RatingsObject a RatingAbsent) ∧
  total a = Z.of_nat (length rs) ∧
  length (distribution a) = 10%nat ∧
  foldr Z.add 0 (distribution a) ≤ total a ∧
  ((∀ x, x ∈ rs → ∃ k, 1 ≤ k ≤ 10 ∧ (rating_value x == inject_Z k)%Q) →
   foldr Z.add 0 (distribution a) = total a) ∧
  (average a = None ↔ total a = 0) ∧
  (∀ m lo hi, average a = Some m →
     (∀ x, x ∈ rs → (lo <= rating_value x ∧ rating_value x <= hi)%Q) →
     (lo <= m ∧ m <= hi)%Q).
Proof.
  intros a rs.
  assert ((getRatings "io.cytoid.glow" None Sample.world).1
          = Return (RatingsObject a RatingAbsent)) as H
    by (vm_compute; reflexivity).
  split; [exact H|].
  apply (getRatings_aggregate "io.cytoid.glow" None Sample.world a RatingAbsent);
    [|exact H].
  intros e He. vm_compute in He. discriminate.
Defined.

(** X13. For getRatings a level that does not exist is no error: on a cache
    miss it answers the empty aggregate (no average, total 0, ten zeros, no
    rating of the caller) and stores it under the key for 3600 seconds like
    any other. *)
Theorem getRatings_unknown_level id user w :
  level_id_of_uid (world_db w) id = SNull →
  (∀ e, world_redis w !! (levelRatingCacheKey +:+ id) = Some e →
        cache_expiry e ≤ world_now w) →
  let empty := mkAggregate None 0 (replicate 10 0) in
  getRatings id user w =
    (Return (RatingsObject empty RatingAbsent),
     mkWorld (world_db w)
       (<[levelRatingCacheKey +:+ id := mkCacheEntry empty (world_now w + 3600)]>
          (world_redis w))
       (world_now w) (world_headers w) (S (world_statements w))).
Proof.
  intros Hlvl Hmiss empty. rewrite (getRatings_miss id user w Hmiss).
  assert (ratings_of_level (world_db w) SNull = []) as Hnone
    by (apply filter_none; intros x _; done).
  unfold query_ratings. rewrite Hlvl, Hnone.
  destruct user as [u|]; done.
Qed.

Lemma getRatings_unknown_level_witness :
  level_id_of_uid (world_db Sample.world) "io.cytoid.none" = SNull ∧
  let empty := mkAggregate None 0 (replicate 10 0) in
  getRatings "io.cytoid.none" (Some Sample.alice) Sample.world =
    (Return (RatingsObject empty RatingAbsent),
     mkWorld (world_db Sample.world)
       (<[levelRatingCacheKey +:+ "io.cytoid.none" :=
            mkCacheEntry empty (world_now Sample.world + 3600)]>
          (world_redis Sample.world))
       (world_now Sample.world) (world_headers Sample.world)
       (S (world_statements Sample.world))).
Proof.
  assert (level_id_of_uid (world_db Sample.world) "io.cytoid.none" = SNull) as H
    by (vm_compute; reflexivity).
  split; [exact H|].
  apply (getRatings_unknown_level "io.cytoid.none" (Some Sample.alice)
           Sample.world H).
  intros e He. vm_compute in He. discriminate.
Defined.

(** ** getLevels: the order of a page and the pages of a result *)

Lemma StronglySorted_lookup_le {A} (R : relation A) l i j x y :
  StronglySorted R l → l !! i = Some x → l !! j = Some y → (i < j)%nat → R x y.
Proof.
  intros Hs Hi Hj Hij. rewrite <- (take_drop (S i) l) in Hs.
  apply (StronglySorted_app_1_elem_of _ _ _ x y Hs).
  - apply elem_of_take. exists i. split; [done|lia].
  - apply list_elem_of_lookup. exists (j - S i)%nat.
    rewrite lookup_drop. by replace (S i + (j - S i))%nat with j by lia.
Qed.



(** The order parameter, the sort keys and the page on sample requests. *)
Example toUpperCase_is_DESC_samples :
  toUpperCase_is_DESC "desc" = true ∧ toUpperCase_is_DESC "DeSc" = true ∧
  toUpperCase_is_DESC "deſc" = true ∧ toUpperCase_is_DESC "DEſC" = true ∧
  toUpperCase_is_DESC "asc" = false ∧ toUpperCase_is_DESC "descending" = false ∧
  toUpperCase_is_DESC "" = false.
Proof. repeat split; vm_compute; reflexivity. Qed.

Example levels_order_samples :
  let sort_by (key : string) : gmap string string := {["sort" := key]} in
  levels_order "asc" ASC (sort_by "duration")
  = Some [mkOrderTerm ColDuration ASC true; mkOrderTerm ColDateCreated DESC false] ∧
  levels_order "asc" ASC (sort_by "creation_date")
  = Some [mkOrderTerm ColDateCreated ASC true] ∧
  levels_order "asc" ASC (sort_by "toString")
  = Some [mkOrderTerm ColDateCreated DESC false] ∧
  levels_order "asc" ASC (sort_by "__proto__") = None ∧
  levels_order "asc" ASC (sort_by "length")
  = Some [mkOrderTerm ColDateCreated ASC true] ∧
  levels_order "asc" ASC (<["search" := "glow"]> (sort_by "length")) = Some [].
Proof. repeat split; vm_compute; reflexivity. Qed.

Example limit_offset_samples :
  limit_offset 2 1 [1; 2; 3; 4] = Return [2; 3] ∧
  limit_offset 2.5 0 [1; 2; 3; 4] = Return [1; 2; 3] ∧
  limit_offset 0 0 [1; 2; 3; 4] = Return [1; 2; 3; 4] ∧
  limit_offset 2 (-1) [1; 2; 3; 4] = Throw DatabaseError ∧
  limit_offset 2 (inject_Z (int8_max + 1)) [1; 2; 3; 4] = Throw DatabaseError.
Proof. repeat split; vm_compute; reflexivity. Qed.

Example getLevels_samples :
  let run sortOrder query :=
    (getLevels SampleLevels.levels_where None None None sortOrder query
               Sample.world).1 in
  let older := level_view Sample.db Sample.lvl in
  let newer := level_view Sample.db Sample.lvl2 in
  run None {["sort" := "toString"]} = Return (Some [newer; older]) ∧
  run (Some "deſc") ∅ = Return (Some [newer; older]) ∧
  run (Some "descending") ∅ = Return (Some [older; newer]) ∧
  run None {["sort" := "__proto__"]} = Throw DatabaseError.
Proof. repeat split; vm_compute; reflexivity. Qed.


Lemma order_le_date db dir a b :
  order_le db [mkOrderTerm ColDateCreated dir (default_nulls_last dir)] a b →
  match dir with
  | DESC => level_date_created b ≤ level_date_created a
  | ASC => level_date_created a ≤ level_date_created b
  end.
Proof.
  unfold order_le.
  cbn [order_compare term_column column_value term_compare term_order].
  assert (∀ d d' : Z, (inject_Z d ?= inject_Z d')%Q ≠ Gt → d ≤ d') as Hdate.
  { intros d d' H. unfold Qcompare in H. simpl in H.
    rewrite !Z.mul_1_r in H. by apply Z.compare_le_iff. }
  intros Hle. destruct dir; apply Hdate; by destruct (_ ?= _)%Q.
Qed.

(** The rows of a page in a sorted result are related as the rows of the
    result are. *)
Lemma page_sorted db (R : relation Level) n m (ordered : list Level) i j v v' :
  StronglySorted R ordered →
  (level_view db <$> take n (drop m ordered)) !! i = Some v →
  (level_view db <$> take n (drop m ordered)) !! j = Some v' →
  (i < j)%nat → R (view_level v) (view_level v').
Proof.
  intros Hs Hi Hj Hij. rewrite list_lookup_fmap in Hi, Hj.
  destruct (_ !! i) as [x|] eqn:Hx; [|done].
  destruct (_ !! j) as [y|] eqn:Hy; [|done].
  injection Hi as <-. injection Hj as <-. simpl.
  eapply StronglySorted_lookup_le; [|exact Hx|exact Hy|exact Hij].
  by apply StronglySorted_take_drop.
Qed.

Section getLevels_pages.
Context (levels_where :
  gmap string string → option User → Database → outcome (list Level)).


(** X15. Without a sort parameter, and with one that keyMap has no value
    for, what getLevels returns is a page of the matching levels: by
    creation date, oldest first, or newest first when the order parameter
    upper-cases to DESC; with a search text the result is not ordered at
    all, a page is a slice of the rows as the joins deliver them. *)
Theorem getLevels_default_order user pageNum pageLimit sortOrder query w views w' :
  truthy_string (query !! "sort") ≫= keyMap_get (default "asc" sortOrder) = None →
  getLevels levels_where user pageNum pageLimit sortOrder query w
    = (Return (Some views), w') →
  let db := world_db w in
  let L := clampPageLimit (default 30%Q pageLimit) in
  let P := default 0%Q pageNum in
  let date_order (l l' : Level) :=
    if toUpperCase_is_DESC (default "asc" sortOrder)
    then level_date_created l' ≤ level_date_created l
    else level_date_created l ≤ level_date_created l' in
  ∃ rows ordered,
    levels_where query user db = Return rows ∧
    ordered ≡ₚ rows ∧
    views = level_view db <$> take (row_count L) (drop (row_count (L * P)) ordered) ∧
    (truthy_string (query !! "search") = None →
     (∀ before l after l',
        ordered = before ++ l :: after → l' ∈ after → date_order l l') ∧
     (∀ i j v v', views !! i = Some v → views !! j = Some v' → (i < j)%nat →
        date_order (view_level v) (view_level v'))) ∧
    (truthy_string (query !! "search") ≠ None → ordered = rows).
Proof.
  intros Hsort Hrun db L P date_order.
  apply getLevels_inv in Hrun as (rows & ts & Hrows & Hts & Hviews).
  set (dir := if toUpperCase_is_DESC (default "asc" sortOrder)
              then DESC else ASC) in *.
  assert (ts = match truthy_string (query !! "search") with
               | None => [mkOrderTerm ColDateCreated dir (default_nulls_last dir)]
               | Some _ => []
               end) as Ets.
  { unfold levels_order in Hts.
    destruct (truthy_string (query !! "sort")) as [sort|]; simpl in Hsort, Hts.
    - rewrite Hsort in Hts. simpl in Hts.
      destruct (truthy_string (query !! "search")); congruence.
    - destruct (truthy_string (query !! "search")); congruence. }
  exists rows, (order_by db ts rows).
  split; [done|]. split; [apply order_by_Permutation|]. split; [done|]. split.
  - intros Hsearch. rewrite Hsearch in Ets.
    assert (StronglySorted (order_le db ts) (order_by db ts rows)) as Hs
      by (apply order_by_sorted; by rewrite Ets).
    assert (∀ l l', order_le db ts l l' → date_order l l') as Hdate.
    { intros l l'. rewrite Ets. intros Hle. apply order_le_date in Hle.
      unfold date_order, dir in *.
      by destruct (toUpperCase_is_DESC (default "asc" sortOrder)). }
    split.
    + intros before l after l' Hord Hl'. apply Hdate.
      exact (StronglySorted_before _ _ _ _ _ _ Hs Hord Hl').
    + intros i j v v' Hi Hj Hij. apply Hdate. rewrite Hviews in Hi, Hj.
      exact (page_sorted _ _ _ _ _ _ _ _ _ Hs Hi Hj Hij).
  - intros Hsearch. rewrite Ets.
    by destruct (truthy_string (query !! "search")).
Qed.

End getLevels_pages.


Lemma getLevels_default_order_witness :
  let v := level_view Sample.db Sample.lvl in
  let v' := level_view Sample.db Sample.lvl2 in
  SampleLevels.by_date = (Return (Some [v; v']), SampleLevels.by_date.2) ∧
  level_date_created Sample.lvl ≤ level_date_created Sample.lvl2.
Proof.
  intros v v'.
  assert (SampleLevels.by_date = (Return (Some [v; v']), SampleLevels.by_date.2))
    as H by (vm_compute; reflexivity).
  split; [exact H|].
  destruct (getLevels_default_order SampleLevels.levels_where None None None None
              ∅ Sample.world [v; v'] SampleLevels.by_date.2)
    as (rows & ordered & _ & _ & _ & Hdate & _);
    [vm_compute; reflexivity|exact H|].
  destruct Hdate as [_ Hpage]; [vm_compute; reflexivity|].
  exact (Hpage 0%nat 1%nat v v' eq_refl eq_refl ltac:(lia)).
Defined.


(** ** gradeDistribution *)

Lemma foldl_insert_notin {V} (rows : list (string * V)) (m : gmap string V) k :
  k ∉ rows.*1 →
  foldl (λ grades grade, <[grade.1 := grade.2]> grades) m rows !! k = m !! k.
Proof.
  revert m. induction rows as [|[k' v'] rows IH]; intros m Hk; [done|].
  simpl. rewrite IH by (intros H; apply Hk; by right).
  apply lookup_insert_ne. intros ->. apply Hk. left.
Qed.

Lemma foldl_insert_in {V} (rows : list (string * V)) (m : gmap string V) k v :
  NoDup rows.*1 → (k, v) ∈ rows →
  foldl (λ grades grade, <[grade.1 := grade.2]> grades) m rows !! k = Some v.
Proof.
  revert m. induction rows as [|[k' v'] rows IH]; intros m Hnd Hin;
    [by apply elem_of_nil in Hin|].
  rewrite fmap_cons in Hnd. apply NoDup_cons in Hnd as [Hk' Hnd]. simpl.
  apply elem_of_cons in Hin as [[= <- <-]|Hin].
  - rewrite foldl_insert_notin by done. apply lookup_insert_eq.
  - by apply IH.
Qed.

Lemma classes_sum {A} (f : A → string) (ks : list string) (l : list A) :
  NoDup ks → (∀ x, x ∈ l → f x ∈ ks) →
  foldr Z.add 0 ((λ k, Z.of_nat (length (filter (λ x, f x = k) l))) <$> ks)
  = Z.of_nat (length l).
Proof.
  intros Hnd. induction l as [|a l IH]; intros Hall.
  - clear. induction ks as [|k ks' IHk]; [done|].
    rewrite fmap_cons. cbn [foldr]. by rewrite IHk.
  - specialize (IH ltac:(intros x Hx; apply Hall; by right)).
    specialize (Hall a ltac:(left)).
    assert (∀ ks', NoDup ks' →
      foldr Z.add 0 ((λ k, Z.of_nat (length (filter (λ x, f x = k) (a :: l)))) <$> ks')
      = (if decide (f a ∈ ks') then 1 else 0)
        + foldr Z.add 0 ((λ k, Z.of_nat (length (filter (λ x, f x = k) l))) <$> ks'))
      as Hstep.
    { clear. intros ks' Hnd. induction ks' as [|k ks' IHk].
      - rewrite decide_False by apply not_elem_of_nil. done.
      - apply NoDup_cons in Hnd as [Hk Hnd]. specialize (IHk Hnd).
        rewrite !fmap_cons. cbn [foldr]. rewrite IHk, filter_cons.
        destruct (decide (f a = k)) as [E|E].
        + rewrite decide_False by (by rewrite E).
          rewrite decide_True by (rewrite E; left). simpl length. lia.
        + destruct (decide (f a ∈ ks')) as [Hin|Hin].
          * rewrite decide_True by (by right). lia.
          * rewrite decide_False; [lia|].
            intros [?|?]%elem_of_cons; done. }
    rewrite (Hstep ks Hnd), IH, decide_True by done. simpl length. lia.
Qed.

Lemma grade_of_names score :
  grade_of score ∈ ["MAX"; "SSS"; "SS"; "S"; "A"; "B"; "C"; "D"; "F"].
Proof. unfold grade_of. repeat case_decide; set_solver. Qed.

(** X17. The object that gradeDistribution builds: a grade is a key of it
    exactly when the player has a record of that grade, and the value is
    then the number of those records, so a grade without records is absent
    rather than 0; the counts of the nine grades add up to the number of
    the player's records. A score has grade MAX from 1000000, SSS from
    999500, SS from 990000, S from 950000, A from 900000, B from 800000,
    C from 700000, D from 600000, and F below. *)
Theorem gradeDistribution_counts uuid w :
  let mine := filter (λ r, rec_ownerId r = uuid) (records (world_db w)) in
  let count g :=
    Z.of_nat (length (filter (λ r, grade_of (rec_score r) = g) mine)) in
  ∃ grades,
    (gradeDistribution uuid w).1 = Return grades ∧
    (∀ g, grades !! g = if decide (count g = 0) then None else Some (count g)) ∧
    foldr Z.add 0
      ((λ g, default 0 (grades !! g)) <$>
         ["MAX"; "SSS"; "SS"; "S"; "A"; "B"; "C"; "D"; "F"])
    = Z.of_nat (length mine) ∧
    (∀ r, r ∈ mine →
       let s := rec_score r in
       grade_of s =
         if decide (1000000 ≤ s) then "MAX" else if decide (999500 ≤ s) then "SSS"
         else if decide (990000 ≤ s) then "SS" else if decide (950000 ≤ s) then "S"
         else if decide (900000 ≤ s) then "A" else if decide (800000 ≤ s) then "B"
         else if decide (700000 ≤ s) then "C" else if decide (600000 ≤ s) then "D"
         else "F").
Proof.
  intros mine count. eexists. split; [reflexivity|].
  cbn [world_db]. unfold gradeDistribution_query. fold mine.
  set (rows := (λ g, (g, count g)) <$>
                 remove_dups ((λ r, grade_of (rec_score r)) <$> mine)).
  assert (rows.*1 = remove_dups ((λ r, grade_of (rec_score r)) <$> mine)) as Hkeys.
  { unfold rows. rewrite <- list_fmap_compose. apply list_fmap_id. }
  assert (∀ g, foldl (λ (grades : gmap string Z) (grade : string * Z),
                        <[grade.1 := grade.2]> grades) ∅ rows !! g
               = if decide (count g = 0) then None else Some (count g)) as Hlook.
  { intros g. destruct (decide (count g = 0)) as [Hz|Hnz].
    - rewrite foldl_insert_notin; [done|]. rewrite Hkeys, elem_of_remove_dups.
      intros (r & Hg & Hr)%list_elem_of_fmap.
      assert (r ∈ filter (λ r, grade_of (rec_score r) = g) mine) as Hin
        by (by apply list_elem_of_filter).
      unfold count in Hz.
      destruct (filter _ mine); [by apply elem_of_nil in Hin|simpl in Hz; lia].
    - apply foldl_insert_in; [rewrite Hkeys; apply NoDup_remove_dups|].
      unfold rows. apply list_elem_of_fmap. exists g. split; [done|].
      apply elem_of_remove_dups, list_elem_of_fmap.
      unfold count in Hnz.
      destruct (filter (λ r, grade_of (rec_score r) = g) mine) as [|r l] eqn:E;
        [done|].
      assert (r ∈ filter (λ r, grade_of (rec_score r) = g) mine) as Hin
        by (rewrite E; left).
      apply list_elem_of_filter in Hin as [? ?]. eauto. }
  split; [exact Hlook|]. split; [|done].
  rewrite <- (classes_sum (λ r, grade_of (rec_score r))
                ["MAX"; "SSS"; "SS"; "S"; "A"; "B"; "C"; "D"; "F"] mine).
  - f_equal. apply list_fmap_ext. intros _ g _. rewrite Hlook.
    fold (count g). by destruct (decide (count g = 0)) as [->|].
  - repeat (apply NoDup_cons; split; [set_solver|]). apply NoDup_nil_2.
  - intros r _. apply grade_of_names.
Qed.

(** ** exp: what the cross join sums *)




(** Alice has three records, two of them below the full score: only her
    full score on the second level counts, three times. *)
Example exp_sample_whole_scores (sqrt : Q → Q) :
  (to_number (levelExp (exp_result sqrt (exp_query sqrt 1 Sample.db))) == 1800)%Q.
Proof.
  destruct (exp_query_cross_join sqrt 1 Sample.db) as [_ Hl].
  cbv zeta in Hl. cbn [exp_result levelExp]. rewrite Hl.
  vm_compute. reflexivity.
Qed.

(** ** The rating that getLevels sorts by *)


(** ** The external accounts of a user *)

Lemma filter_fmap_fixed {A} (P : A → Prop) `{!∀ x, Decision (P x)} (f : A → A)
    (l : list A) :
  (∀ x, x ∈ l → (P x → f x = x) ∧ (¬ P x → ¬ P (f x))) →
  filter P (f <$> l) = filter P l.
Proof.
  induction l as [|a l IH]; intros Hf; [done|].
  rewrite fmap_cons, !filter_cons.
  destruct (Hf a ltac:(left)) as [H1 H2].
  rewrite IH by (intros x Hx; apply Hf; by right).
  destruct (decide (P a)) as [Ha|Ha].
  - rewrite (H1 Ha). by rewrite decide_True.
  - by rewrite decide_False by (by apply H2).
Qed.

Section providers_props.
Variable session : string → string → option Providers.SessionData.

Lemma addProvider_inv user id provider token table table' :
  Providers.addProvider session user id provider token table
  = (Providers.Ok tt, table') →
  Providers.own_id user id = true ∧
  ∃ s, session token provider = Some s ∧
    Providers.upsert_account
      (Providers.mkExternalAccount provider (Providers.session_id s)
         (Providers.session_token s) (user_id user)) table
    = Providers.Ok table'.
Proof.
  unfold Providers.addProvider.
  destruct (Providers.own_id user id); [|done]. simpl.
  destruct (session token provider) as [s|]; [|done].
  destruct (Providers.upsert_account _ table) as [t|e] eqn:E; [|done].
  intros [= <-]. eauto.
Qed.

(** X20. Linking and unlinking a provider read back: after addProvider
    succeeded, getProviderStatus of the same user lists the provider; after
    removeProvider, which then succeeds too, it no longer lists it. *)
Theorem providers_round_trip user id provider token table table' :
  Providers.addProvider session user id provider token table
  = (Providers.Ok tt, table') →
  (∃ ps, Providers.getProviderStatus user id table' = Providers.Ok ps ∧
         provider ∈ ps) ∧
  (Providers.removeProvider user id provider table').1 = Providers.Ok tt ∧
  (∃ ps, Providers.getProviderStatus user id
           (Providers.removeProvider user id provider table').2
         = Providers.Ok ps ∧ provider ∉ ps).
Proof.
  intros Hadd. apply addProvider_inv in Hadd as (Hown & s & _ & Hup).
  unfold Providers.getProviderStatus, Providers.removeProvider.
  rewrite Hown. simpl. split; [|split; [done|]].
  - eexists. split; [reflexivity|].
    unfold Providers.upsert_account in Hup.
    destruct (decide (Exists _ table)) as [|_]; [done|].
    destruct (decide (Exists _ table)) as [Hsame|_]; injection Hup as <-.
    + apply Exists_exists in Hsame as (x & Hx & Hp & Ho). simpl in Hp, Ho.
      apply list_elem_of_fmap.
      exists (Providers.mkExternalAccount (Providers.account_provider x)
                (Providers.session_id s) (Providers.session_token s)
                (Providers.account_ownerId x)).
      split; [done|]. apply list_elem_of_filter. split; [done|].
      apply list_elem_of_fmap. exists x. split; [|done].
      by rewrite decide_True by done.
    + apply list_elem_of_fmap. eexists. split; [|apply list_elem_of_filter; split;
        [|apply elem_of_app; right; left]]; done.
  - eexists. split; [reflexivity|].
    intros (x & -> & Hx)%list_elem_of_fmap.
    apply list_elem_of_filter in Hx as [Ho Hx].
    apply list_elem_of_filter in Hx as [Hne _]. by apply Hne.
Qed.

(** X21. The three endpoints work on the caller's own accounts only. With
    an id that is not the caller's they answer ForbiddenError and leave the
    table alone; and however addProvider and removeProvider end, the rows
    of every other user are what they were. getProviderStatus lists the
    providers of the caller's rows and no other. *)
Theorem providers_own_rows_only user id provider token table :
  let others l := filter (λ x, Providers.account_ownerId x ≠ user_id user) l in
  others (Providers.addProvider session user id provider token table).2
  = others table ∧
  others (Providers.removeProvider user id provider table).2 = others table ∧
  (uuid_out (user_id user) ≠ id →
   Providers.addProvider session user id provider token table
   = (Providers.Failed Providers.ForbiddenError, table) ∧
   Providers.removeProvider user id provider table
   = (Providers.Failed Providers.ForbiddenError, table) ∧
   Providers.getProviderStatus user id table
   = Providers.Failed Providers.ForbiddenError) ∧
  (∀ ps, Providers.getProviderStatus user id table = Providers.Ok ps →
     ∀ p, p ∈ ps ↔
       ∃ x, x ∈ table ∧ Providers.account_ownerId x = user_id user ∧
            Providers.account_provider x = p).
Proof.
  intros others. split_and!.
  - unfold Providers.addProvider.
    destruct (Providers.own_id user id); [|done]. simpl.
    destruct (session token provider) as [s|]; [|done].
    unfold Providers.upsert_account.
    destruct (decide (Exists _ table)) as [|_]; [done|].
    destruct (decide (Exists _ table)) as [_|_]; simpl.
    + apply filter_fmap_fixed. intros x _. split.
      * intros Hne. rewrite decide_False; [done|]. by intros [_ ?].
      * intros Hown. by destruct (decide _).
    + unfold others. rewrite filter_app.
      rewrite (filter_none _ [_]); [by rewrite app_nil_r|].
      intros x ->%list_elem_of_singleton. simpl. by intros ?.
  - unfold Providers.removeProvider.
    destruct (Providers.own_id user id); [|done]. simpl.
    unfold others. rewrite list_filter_filter. apply list_filter_iff.
    intros x. split; [by intros [? _]|]. intros Hne. split; [done|].
    by intros [_ ?].
  - intros Hne.
    unfold Providers.addProvider, Providers.removeProvider,
      Providers.getProviderStatus, Providers.own_id.
    by rewrite bool_decide_eq_false_2.
  - intros ps. unfold Providers.getProviderStatus.
    destruct (Providers.own_id user id); [|done]. simpl. intros [= <-] p.
    rewrite list_elem_of_fmap. split.
    + intros (x & -> & Hx). apply list_elem_of_filter in Hx as [? ?]. eauto.
    + intros (x & Hx & Ho & <-). exists x. split; [done|].
      by apply list_elem_of_filter.
Qed.
End providers_props.

Lemma providers_round_trip_witness :
  let session (_ _ : string) := Some (Providers.mkSessionData "42" "secret") in
  let id := uuid_out (user_id Sample.alice) in
  let table' := [Providers.mkExternalAccount "github" "42" "secret" 1] in
  Providers.addProvider session Sample.alice id "github" "t" []
  = (Providers.Ok tt, table') ∧
  (∃ ps, Providers.getProviderStatus Sample.alice id table' = Providers.Ok ps ∧
         "github" ∈ ps) ∧
  (Providers.removeProvider Sample.alice id "github" table').1 = Providers.Ok tt ∧
  (∃ ps, Providers.getProviderStatus Sample.alice id
           (Providers.removeProvider Sample.alice id "github" table').2
         = Providers.Ok ps ∧ "github" ∉ ps).
Proof.
  intros session id table'.
  assert (Providers.addProvider session Sample.alice id "github" "t" []
          = (Providers.Ok tt, table')) as H by (vm_compute; reflexivity).
  split; [exact H|].
  exact (providers_round_trip session Sample.alice id "github" "t" [] table' H).
Defined.

(** ** Downloads and the figure getLevels shows *)

(** X22. The downloads figure that getLevels shows for a level counts the
    users who downloaded it, not their downloads: the statement that
    getResourcesURL and downloadPackage send adds one to the figure of that
    level the first time a user downloads it and nothing afterwards, and it
    never changes the figure of another level. *)
Theorem download_counts_users levelUid userId db db' lvl :
  level_id_of_uid db levelUid = SVal lvl →
  record_download levelUid userId db = Return (tt, db') →
  (∀ l, downloads_of db' l =
        downloads_of db l +
        (if decide (level_id l = lvl ∧
                    ¬ Exists (λ d, download_levelId d = lvl ∧
                                   download_userId d = userId)
                             (level_downloads db))
         then 1 else 0)) ∧
  record_download levelUid userId db' = Return (tt, db').
Proof.
  intros Hlvl. unfold record_download. rewrite Hlvl. intros [= <-].
  split.
  - intros l. unfold downloads_of. cbn [level_downloads].
    destruct (decide (Exists _ (level_downloads db))) as [Hhit|Hnew].
    + rewrite decide_False by tauto. lia.
    + rewrite filter_app, length_app, filter_cons, filter_nil. cbn [download_levelId].
      destruct (decide (lvl = level_id l)) as [->|Hne].
      * rewrite decide_True by done. simpl. lia.
      * rewrite decide_False by (intros [? _]; congruence). simpl. lia.
  - change (level_id_of_uid (mkDatabase _ _ _ _ _ _) levelUid)
      with (level_id_of_uid db levelUid).
    rewrite Hlvl. cbn [users levels charts records level_ratings level_downloads].
    destruct (decide (Exists _ (level_downloads db))) as [Hhit|Hnew].
    + by rewrite decide_True.
    + rewrite decide_True; [done|].
      apply Exists_app. right. by constructor.
Qed.

Lemma download_counts_users_witness :
  let db' := mkDatabase (users Sample.db) (levels Sample.db) (charts Sample.db)
               (records Sample.db) (level_ratings Sample.db) [mkDownload 10 1] in
  level_id_of_uid Sample.db "io.cytoid.glow" = SVal 10%N ∧
  record_download "io.cytoid.glow" 1 Sample.db = Return (tt, db') ∧
  (∀ l, downloads_of db' l =
        downloads_of Sample.db l +
        (if decide (level_id l = 10%N ∧
                    ¬ Exists (λ d, download_levelId d = 10%N ∧
                                   download_userId d = 1%N)
                             (level_downloads Sample.db))
         then 1 else 0)) ∧
  record_download "io.cytoid.glow" 1 db' = Return (tt, db').
Proof.
  intros db'.
  assert (level_id_of_uid Sample.db "io.cytoid.glow" = SVal 10%N) as H
    by (vm_compute; reflexivity).
  assert (record_download "io.cytoid.glow" 1 Sample.db = Return (tt, db')) as H'
    by (vm_compute; reflexivity).
  split; [exact H|]. split; [exact H'|].
  exact (download_counts_users "io.cytoid.glow" 1 Sample.db db' 10 H H').
Defined.
